(** * Hackaplan backend: a shallow embedding of the fetch client, the URL
    normaliser, the Devpost crawl engine, the SQLite job store, the job
    orchestrator and the lookup endpoint, with the properties the
    specification states about them.

    Python [str] is [string] (code points below 256), [int] is [Z],
    [float] seconds are [Q], [set[str]] is [gset string], SQL tables are
    lists of rows in rowid order, and a raised exception is the [Raise]
    branch of [result]. *)

From Stdlib Require Import String Ascii ZArith QArith List Lia Bool.
From Stdlib Require OrderedTypeEx.
From stdpp Require Import base gmap strings list pretty.

Set Warnings "-register-all".

Local Open Scope string_scope.
Local Open Scope list_scope.
Local Open Scope Z_scope.

(* ===================================================================== *)
(** * app/errors.py *)
(* ===================================================================== *)

Module errors.

(** The subclasses of [AppError]. *)
Inductive AppErrorClass : Type :=
| ValidationAppError
| NetworkAppError
| ParseAppError
| BlockedAppError
| TimeoutAppError
| NotFoundAppError.

#[global] Instance AppErrorClass_eq_dec : EqDecision AppErrorClass.
Proof. solve_decision. Defined.

(** The class attribute [code]. *)
Definition code (c : AppErrorClass) : string :=
  match c with
  | ValidationAppError => "validation_error"
  | NetworkAppError => "network_error"
  | ParseAppError => "parse_error"
  | BlockedAppError => "blocked_error"
  | TimeoutAppError => "timeout_error"
  | NotFoundAppError => "not_found_error"
  end.

(** Exceptions that can travel through the modelled code.  [AppErr] is an
    instance of an [AppError] subclass with its [message]; the others are
    the built-in or framework exceptions the code can meet. *)
Inductive exn : Type :=
| AppErr (cls : AppErrorClass) (message : string)
| ValueError (text : string)
| RuntimeError (text : string)
| IntegrityError (text : string)
| HTTPException (status_code : Z) (detail_code detail_message : string).

#[global] Instance exn_eq_dec : EqDecision exn.
Proof. solve_decision. Defined.

(** [error_to_payload]: the pair of the [code] and [message] keys. *)
Definition error_to_payload (cls : AppErrorClass) (message : string)
  : string * string := (code cls, message).

(** A computation that returns or raises. *)
Inductive result (A : Type) : Type :=
| Ok (a : A)
| Raise (e : exn).
Arguments Ok {A} a.
Arguments Raise {A} e.

#[global] Instance result_ret : MRet result := fun A a => Ok a.

#[global] Instance result_bind : MBind result := fun A B k r =>
  match r with
  | Ok a => k a
  | Raise e => Raise e
  end.

End errors.
Export errors.

(** Python's [str(n)] for an [int]. *)
Definition str_of_int (n : Z) : string := pretty n.

(* ===================================================================== *)
(** * app/config.py *)
(* ===================================================================== *)

Module config.

Record Settings : Type := {
  request_timeout_seconds : Q;
  max_retries : Z;
  retry_backoff_base_seconds : Q;
  project_request_timeout_seconds : Q;
  project_max_retries : Z;
  project_retry_backoff_base_seconds : Q;
  project_fetch_concurrency : Z;
  job_timeout_seconds : Z;
  lookup_result_cache_ttl_seconds : Z;
  rate_limit_enabled : bool;
  rate_limit_hourly : Z;
  rate_limit_daily : Z;
  ip_hash_salt : string
}.

(** The defaults of the [Settings] class. *)
Definition default_settings : Settings := {|
  request_timeout_seconds := 20;
  max_retries := 3;
  retry_backoff_base_seconds := 6 # 10;
  project_request_timeout_seconds := 8;
  project_max_retries := 2;
  project_retry_backoff_base_seconds := 25 # 100;
  project_fetch_concurrency := 6;
  job_timeout_seconds := 300;
  lookup_result_cache_ttl_seconds := 1800;
  rate_limit_enabled := false;
  rate_limit_hourly := 3;
  rate_limit_daily := 10;
  ip_hash_salt := "change-me"
|}.

(** The field validators: a [Settings] object only exists when they pass. *)
Definition valid (s : Settings) : Prop :=
  1 <= max_retries s /\
  1 <= project_max_retries s /\
  1 <= project_fetch_concurrency s /\
  (0 < request_timeout_seconds s)%Q /\
  (0 < retry_backoff_base_seconds s)%Q /\
  (0 < project_request_timeout_seconds s)%Q /\
  (0 < project_retry_backoff_base_seconds s)%Q /\
  0 <= lookup_result_cache_ttl_seconds s /\
  1 <= rate_limit_hourly s /\
  1 <= rate_limit_daily s.

End config.

(* ===================================================================== *)
(** * app/scraping/http_client.py *)
(* ===================================================================== *)

Module http_client.
Import config.

(** What [response.json()] can decode to. *)
Inductive JsonValue : Type :=
| JNull
| JBool (b : bool)
| JNumber (literal : string)
| JString (s : string)
| JArray (items : list JsonValue)
| JObject (members : list (string * JsonValue)).

(** An [httpx.Response] as far as the client looks at it: [json_payload]
    is what [response.json()] returns, [None] when it raises [ValueError]. *)
Record Response : Type := {
  status_code : Z;
  text : string;
  json_payload : option JsonValue
}.

(** One call of [self.client.get]: it returns a response, raises
    [httpx.TimeoutException], or raises another [httpx.RequestError]. *)
Inductive AttemptOutcome : Type :=
| Responded (r : Response)
| TimeoutException (text : string)
| RequestError (text : string).

(** The network: the outcome of the [attempt]-th GET (counted from 1 inside
    one fetch) of a URL with query parameters. *)
Definition Network : Type :=
  string -> list (string * string) -> Z -> AttemptOutcome.

(** What one fetch does besides returning: requests and back-off sleeps. *)
Inductive NetEffect : Type :=
| Get (url : string) (attempt : Z)
| Sleep (seconds : Q).

(** The value of [last_error]. *)
Inductive LastError : Type :=
| LastTimeout (text : string)
| LastRequestError (text : string)
| LastNetworkAppError (message : string).

(** The statements after the [for] loop of [_fetch_with_retries]. *)
Definition raise_last_error (url : string) (last_error : option LastError)
  : exn :=
  match last_error with
  | Some (LastTimeout _) =>
      AppErr TimeoutAppError ("Request timeout while fetching " +:+ url)
  | Some (LastNetworkAppError message) =>
      AppErr NetworkAppError message
  | Some (LastRequestError text) =>
      AppErr NetworkAppError
        ("Network error while fetching " +:+ url +:+ ": " +:+ text)
  | None =>
      AppErr NetworkAppError ("Network error while fetching " +:+ url)
  end.

(** The [try] block of one iteration: a response to return, a
    [BlockedAppError] that leaves the function, or an error that is caught
    and stored in [last_error]. *)
Inductive AttemptResult : Type :=
| Return (r : Response)
| Blocked (message : string)
| Caught (e : LastError).

Definition attempt_result (url : string) (o : AttemptOutcome) : AttemptResult :=
  match o with
  | Responded response =>
      if bool_decide (status_code response = 403)
         || bool_decide (status_code response = 429) then
        Blocked ("Devpost denied access while fetching " +:+ url
                 +:+ " (status " +:+ str_of_int (status_code response) +:+ ")")
      else if (500 <=? status_code response) && (status_code response <? 600) then
        Caught (LastNetworkAppError
                  ("Devpost returned " +:+ str_of_int (status_code response)
                   +:+ " for " +:+ url))
      else if 400 <=? status_code response then
        Caught (LastNetworkAppError
                  ("Unable to fetch " +:+ url +:+ "; received "
                   +:+ str_of_int (status_code response)))
      else Return response
  | TimeoutException t => Caught (LastTimeout t)
  | RequestError t => Caught (LastRequestError t)
  end.

(** [backoff_base_seconds * (2 ** (attempt - 1))]. *)
Definition backoff_delay (backoff_base_seconds : Q) (attempt : Z) : Q :=
  (backoff_base_seconds * inject_Z (2 ^ (attempt - 1)))%Q.

(** The [for attempt in range(1, retry_count + 1)] loop, [remaining]
    iterations of it from [attempt] on, followed by the statements after
    it.  Effects are listed in the order they happen. *)
Fixpoint retry_loop (get : Z -> AttemptOutcome) (url : string)
    (retry_count : Z) (backoff_base_seconds : Q)
    (remaining : nat) (attempt : Z) (last_error : option LastError)
  : list NetEffect * result Response :=
  match remaining with
  | O => ([], Raise (raise_last_error url last_error))
  | S remaining' =>
      match attempt_result url (get attempt) with
      | Return response => ([Get url attempt], Ok response)
      | Blocked message =>
          ([Get url attempt], Raise (AppErr BlockedAppError message))
      | Caught e =>
          if bool_decide (attempt = retry_count) then
            ([Get url attempt], Raise (raise_last_error url (Some e)))
          else
            let '(effects, r) :=
              retry_loop get url retry_count backoff_base_seconds
                remaining' (attempt + 1) (Some e) in
            (Get url attempt
               :: Sleep (backoff_delay backoff_base_seconds attempt)
               :: effects, r)
      end
  end.

(** [RetryHttpClient._fetch_with_retries].  [timeout_seconds] only
    parameterises the request, whose outcome is the network's. *)
Definition _fetch_with_retries (settings : Settings) (net : Network)
    (url : string) (params : list (string * string))
    (max_retries : option Z) (retry_backoff_base_seconds : option Q)
  : list NetEffect * result Response :=
  let retry_count := default (config.max_retries settings) max_retries in
  let backoff_base_seconds :=
    default (config.retry_backoff_base_seconds settings)
            retry_backoff_base_seconds in
  retry_loop (net url params) url retry_count backoff_base_seconds
    (Z.to_nat retry_count) 1 None.

Definition fetch_text (settings : Settings) (net : Network) (url : string)
  : list NetEffect * result string :=
  let '(effects, r) := _fetch_with_retries settings net url [] None None in
  (effects, response ← r; Ok (text response)).

Definition fetch_text_with_options (settings : Settings) (net : Network)
    (url : string) (max_retries : option Z)
    (retry_backoff_base_seconds : option Q)
  : list NetEffect * result string :=
  let '(effects, r) :=
    _fetch_with_retries settings net url [] max_retries
      retry_backoff_base_seconds in
  (effects, response ← r; Ok (text response)).

Definition fetch_json (settings : Settings) (net : Network) (url : string)
    (params : list (string * string))
  : list NetEffect * result (list (string * JsonValue)) :=
  let '(effects, r) := _fetch_with_retries settings net url params None None in
  (effects,
   response ← r;
   match json_payload response with
   | None =>
       Raise (AppErr NetworkAppError
                ("Invalid JSON response while fetching " +:+ url))
   | Some (JObject payload) => Ok payload
   | Some _ =>
       Raise (AppErr NetworkAppError
                ("Unexpected JSON payload while fetching " +:+ url))
   end).

(** The requests among the effects of a fetch. *)
Definition requests (effects : list NetEffect) : list Z :=
  omap (fun e => match e with Get _ a => Some a | Sleep _ => None end) effects.

Definition sleeps (effects : list NetEffect) : list Q :=
  omap (fun e => match e with Sleep s => Some s | Get _ _ => None end) effects.

End http_client.

(* ===================================================================== *)
(** * Python [str] methods and [urllib.parse], as far as the code uses them *)
(* ===================================================================== *)

Module pystr.

Definition is_char (c : ascii) (x : ascii) : bool := Ascii.eqb x c.

Definition in_range (lo hi : nat) (c : ascii) : bool :=
  ((lo <=? nat_of_ascii c) && (nat_of_ascii c <=? hi))%nat.

(** [str.isspace] on one code point below 256. *)
Definition isspace (c : ascii) : bool :=
  in_range 9 13 c || in_range 28 32 c
  || is_char (ascii_of_nat 133) c || is_char (ascii_of_nat 160) c.

Definition is_upper (c : ascii) : bool :=
  in_range 65 90 c || (in_range 192 222 c && negb (is_char (ascii_of_nat 215) c)).

(** [str.lower], one code point below 256 at a time. *)
Definition lower_char (c : ascii) : ascii :=
  if is_upper c then ascii_of_nat (nat_of_ascii c + 32) else c.

Fixpoint lower (s : string) : string :=
  match s with
  | "" => ""
  | String c s' => String (lower_char c) (lower s')
  end.

(** [s.lstrip(chars)] and [s.rstrip(chars)], the character set given as a
    predicate. *)
Fixpoint lstrip_by (p : ascii -> bool) (s : string) : string :=
  match s with
  | "" => ""
  | String c s' => if p c then lstrip_by p s' else s
  end.

Fixpoint rstrip_by (p : ascii -> bool) (s : string) : string :=
  match s with
  | "" => ""
  | String c s' =>
      match rstrip_by p s' with
      | "" => if p c then "" else String c ""
      | r => String c r
      end
  end.

(** [s.strip()]. *)
Definition strip (s : string) : string :=
  lstrip_by isspace (rstrip_by isspace s).

(** [s.startswith(prefix)]. *)
Fixpoint startswith (s pre : string) {struct pre} : bool :=
  match pre with
  | "" => true
  | String a pre' =>
      match s with
      | "" => false
      | String b s' => Ascii.eqb a b && startswith s' pre'
      end
  end.

(** [s.endswith(suffix)]. *)
Fixpoint endswith (s suf : string) : bool :=
  if String.eqb s suf then true
  else match s with
       | "" => false
       | String _ s' => endswith s' suf
       end.

(** [c in s]. *)
Fixpoint contains (p : ascii -> bool) (s : string) : bool :=
  match s with
  | "" => false
  | String c s' => p c || contains p s'
  end.

Fixpoint all_chars (p : ascii -> bool) (s : string) : bool :=
  match s with
  | "" => true
  | String c s' => p c && all_chars p s'
  end.

(** [s.replace(c, "")] for every character [c] of a set. *)
Fixpoint remove_chars (p : ascii -> bool) (s : string) : string :=
  match s with
  | "" => ""
  | String c s' => if p c then remove_chars p s' else String c (remove_chars p s')
  end.

(** The text before the first character of a set, and the text from that
    character on ([""] when there is none): [s[:i], s[i:]] for
    [i = s.find(c)], the whole of [s] and [""] when [find] gives -1. *)
Fixpoint span_until (p : ascii -> bool) (s : string) : string * string :=
  match s with
  | "" => ("", "")
  | String c s' =>
      if p c then ("", s)
      else let '(before, rest) := span_until p s' in (String c before, rest)
  end.

(** [s.split(c, 1)] when [c in s]; [None] when it is not. *)
Definition split_once (c : ascii) (s : string) : option (string * string) :=
  match span_until (is_char c) s with
  | (before, String _ after) => Some (before, after)
  | (_, "") => None
  end.

(** [s[:i+1], s[i+1:]] for [i = s.rfind("/")]; [("", s)] without a slash. *)
Fixpoint rsplit_slash (s : string) : string * string :=
  match s with
  | "" => ("", "")
  | String c s' =>
      if contains (is_char "/") s' then
        let '(dir, seg) := rsplit_slash s' in (String c dir, seg)
      else if is_char "/" c then (String c "", s')
      else ("", s)
  end.

Definition drop2 (s : string) : string :=
  match s with
  | String _ (String _ s') => s'
  | _ => ""
  end.

End pystr.

Module urllib_parse.
Import pystr.

Definition uses_netloc : list string :=
  [""; "ftp"; "http"; "gopher"; "nntp"; "telnet"; "imap"; "wais"; "file";
   "mms"; "https"; "shttp"; "snews"; "prospero"; "rtsp"; "rtsps"; "rtspu";
   "rsync"; "svn"; "svn+ssh"; "sftp"; "nfs"; "git"; "git+ssh"; "ws"; "wss";
   "itms-services"].

Definition uses_params : list string :=
  [""; "ftp"; "hdl"; "prospero"; "http"; "imap"; "https"; "shttp"; "rtsp";
   "rtsps"; "rtspu"; "sip"; "sips"; "mms"; "sftp"; "tel"].

Definition is_ascii_alpha (c : ascii) : bool :=
  in_range 65 90 c || in_range 97 122 c.

Definition is_scheme_char (c : ascii) : bool :=
  is_ascii_alpha c || in_range 48 57 c
  || is_char "+" c || is_char "-" c || is_char "." c.

(** The characters [urlsplit] strips from the left, and the ones it
    removes everywhere (tab, carriage return, newline). *)
Definition is_c0_control_or_space (c : ascii) : bool := in_range 0 32 c.
Definition is_unsafe_url_byte (c : ascii) : bool :=
  is_char (ascii_of_nat 9) c || is_char (ascii_of_nat 13) c
  || is_char (ascii_of_nat 10) c.

Definition is_netloc_delim (c : ascii) : bool :=
  is_char "/" c || is_char "?" c || is_char "#" c.

Record ParseResult : Type := {
  scheme : string;
  netloc : string;
  path : string;
  params : string;
  query : string;
  fragment : string
}.

(** The scheme part of [urlsplit]: [url[:i].lower(), url[i+1:]] when the
    text before the first colon is a scheme, [("", url)] otherwise. *)
Definition split_scheme (url : string) : string * string :=
  match span_until (is_char ":") url with
  | (String c0 before, String _ after) =>
      if is_ascii_alpha c0 && all_chars is_scheme_char (String c0 before)
      then (lower (String c0 before), after)
      else ("", url)
  | _ => ("", url)
  end.

(** [urlsplit(url)] with the default arguments.  A netloc with only one of
    the two square brackets raises [ValueError]; the validation of a
    bracketed address literal and the NFKC check of a netloc, which raise
    on no netloc of code points below 256 without brackets, are left out. *)
Definition urlsplit (url : string)
  : result (string * string * string * string * string) :=
  let url := lstrip_by is_c0_control_or_space url in
  let url := remove_chars is_unsafe_url_byte url in
  let '(scheme, url) := split_scheme url in
  '(netloc, url) ←
    (if startswith url "//" then
       let '(netloc, rest) := span_until is_netloc_delim (drop2 url) in
       if (contains (is_char "[") netloc && negb (contains (is_char "]") netloc))
          || (contains (is_char "]") netloc && negb (contains (is_char "[") netloc))
       then Raise (ValueError "Invalid IPv6 URL")
       else Ok (netloc, rest)
     else Ok ("", url));
  let '(url, fragment) :=
    match split_once "#" url with
    | Some (u, f) => (u, f)
    | None => (url, "")
    end in
  let '(url, query) :=
    match split_once "?" url with
    | Some (u, q) => (u, q)
    | None => (url, "")
    end in
  Ok (scheme, netloc, url, query, fragment).

(** [_splitparams(url)], called when [";" in url]. *)
Definition _splitparams (url : string) : string * string :=
  let '(dir, seg) := rsplit_slash url in
  match split_once ";" seg with
  | Some (before, after) => (dir +:+ before, after)
  | None => (url, "")
  end.

(** [urlparse(url)]. *)
Definition urlparse (url : string) : result ParseResult :=
  '(scheme, netloc, url, query, fragment) ← urlsplit url;
  let '(url, params) :=
    if bool_decide (scheme ∈ uses_params) && contains (is_char ";") url
    then _splitparams url
    else (url, "") in
  Ok {| scheme := scheme; netloc := netloc; path := url; params := params;
        query := query; fragment := fragment |}.

Definition nonempty (s : string) : bool := negb (String.eqb s "").

(** [urlunsplit((scheme, netloc, url, query, fragment))]. *)
Definition urlunsplit (scheme netloc url query fragment : string) : string :=
  let url :=
    if nonempty netloc
       || (nonempty scheme && bool_decide (scheme ∈ uses_netloc)
           && negb (startswith url "//"))
    then
      let url :=
        if nonempty url && negb (startswith url "/") then "/" +:+ url else url in
      "//" +:+ netloc +:+ url
    else url in
  let url := if nonempty scheme then scheme +:+ ":" +:+ url else url in
  let url := if nonempty query then url +:+ "?" +:+ query else url in
  let url := if nonempty fragment then url +:+ "#" +:+ fragment else url in
  url.

(** [urlunparse(components)]. *)
Definition urlunparse (p : ParseResult) : string :=
  let url := if nonempty (params p) then path p +:+ ";" +:+ params p else path p in
  urlunsplit (scheme p) (netloc p) url (query p) (fragment p).

End urllib_parse.

(* ===================================================================== *)
(** * app/scraping/url_utils.py *)
(* ===================================================================== *)

Module url_utils.
Import pystr urllib_parse.

Definition normalize_hackathon_url (raw_url : string) : result string :=
  let candidate := strip raw_url in
  if negb (nonempty candidate) then
    Raise (AppErr ValidationAppError "Hackathon URL is required")
  else
    let candidate :=
      if negb (startswith candidate "http://" || startswith candidate "https://")
      then "https://" +:+ candidate
      else candidate in
    parsed ← urlparse candidate;
    if negb (nonempty (netloc parsed)) then
      Raise (AppErr ValidationAppError "Invalid hackathon URL")
    else
      let host := lower (netloc parsed) in
      if negb (endswith host "devpost.com") then
        Raise (AppErr ValidationAppError "Only Devpost URLs are allowed")
      else
        let cleaned_path :=
          if String.eqb (path parsed) "" || String.eqb (path parsed) "/" then ""
          else rstrip_by (is_char "/") (path parsed) in
        let normalized :=
          {| scheme := scheme parsed; netloc := netloc parsed;
             path := cleaned_path; params := ""; query := ""; fragment := "" |} in
        Ok (urlunparse normalized).

End url_utils.

(* ===================================================================== *)
(** * app/scraping/parser.py: the records and the interface of the parser *)
(* ===================================================================== *)

Module parser.

Record WinnerCandidate : Type := {
  project_title : string;
  project_url : string;
  software_id : option string;
  preview_image_url : option string
}.

Record GalleryParseResult : Type := {
  all_entries : list WinnerCandidate;
  winner_entries : list WinnerCandidate;
  scanned_projects : Z;
  next_page_url : option string
}.

(** One entry of the [prizes] list of a project, with its keys
    [hackathon_name], [hackathon_url] and [prize_name]. *)
Record PrizeAward : Type := {
  prize_hackathon_name : string;
  prize_hackathon_url : string;
  prize_name : string
}.

(** The dictionary [parse_project_page] returns, a field per key; the keys
    [project_title], [project_url] and [preview_image_url] are prefixed,
    the candidate record having fields of the same names. *)
Record Project : Type := {
  proj_project_title : string;
  proj_project_url : string;
  tagline : option string;
  proj_preview_image_url : option string;
  prizes : list PrizeAward;
  team_members : list (string * option string);
  built_with : list (string * option string);
  external_links : list (string * string);
  description_sections : list (string * string)
}.

Definition set_prizes (project : Project) (new_prizes : list PrizeAward)
  : Project :=
  {| proj_project_title := proj_project_title project;
     proj_project_url := proj_project_url project;
     tagline := tagline project;
     proj_preview_image_url := proj_preview_image_url project;
     prizes := new_prizes;
     team_members := team_members project;
     built_with := built_with project;
     external_links := external_links project;
     description_sections := description_sections project |}.

(** The functions of the module that the crawl engine calls.  They walk
    an HTML tree built by an HTML library, so the engine is modelled over
    any implementation of them; [parse_project_page] raises
    [ParseAppError] when the page has no title. *)
Class PageParser : Type := {
  parse_hackathon_name : string -> string;
  winners_are_announced : string -> bool;
  resolve_gallery_url : string -> string -> string;
  parse_gallery_page : string -> string -> GalleryParseResult;
  parse_project_page : string -> string -> string -> result Project
}.

End parser.

(* ===================================================================== *)
(** * app/scraping/service.py: [DevpostScraper.scrape_hackathon] *)
(* ===================================================================== *)

Module service.
Import config http_client parser url_utils.

(** The progress events of a lookup, a constructor per [event_type] with
    the keys of its payload. *)
Inductive ProgressEvent : Type :=
| queued (lookup_id hackathon_url : string)
| started (lookup_id : string)
| gallery_page_scanned (page_url : string)
    (page_number scanned_projects winners_found_on_page : Z)
    (next_page_url : option string)
| winner_project_found (project_title project_url : string)
    (software_id source preview_image_url : option string)
| winner_project_scraped (index total : Z) (project_title project_url : string)
    (prize_count : Z) (winner_project : Project)
| winner_detection_fallback (reason : string) (candidate_projects : Z)
| winners_not_announced (message : string)
| completed (lookup_id : string) (winner_count : Z)
| failed (code message : string).

Definition event_type (e : ProgressEvent) : string :=
  match e with
  | queued _ _ => "queued"
  | started _ => "started"
  | gallery_page_scanned _ _ _ _ _ => "gallery_page_scanned"
  | winner_project_found _ _ _ _ _ => "winner_project_found"
  | winner_project_scraped _ _ _ _ _ _ => "winner_project_scraped"
  | winner_detection_fallback _ _ => "winner_detection_fallback"
  | winners_not_announced _ => "winners_not_announced"
  | completed _ _ => "completed"
  | failed _ _ => "failed"
  end.

(** A task created by [schedule_candidate]: the arguments of its
    [scrape_candidate_with_limit] call. *)
Record ScrapeTask : Type := {
  candidate : WinnerCandidate;
  requires_prize_confirmation : bool
}.

(** What a crawl does to the outside, in order: calls of
    [progress_callback], calls of [asyncio.create_task], and fetches with
    their requests and sleeps. *)
Inductive Effect : Type :=
| Progress (e : ProgressEvent)
| CreateTask (t : ScrapeTask)
| Fetch (effects : list NetEffect).

(** The order in which the event loop lets the deep fetches finish.  A
    drain collects tasks by their position in the pending list at that
    moment: [done_after_page n] lists the tasks found done by the drain
    that follows gallery page [n], [done_at_end] the ones the final drain
    sees finish first, before the rest of the pending tasks. *)
Record Schedule : Type := {
  done_after_page : Z -> list nat;
  done_at_end : list nat
}.

Record CrawlEnv : Type := {
  page_parser : PageParser;
  settings : Settings;
  network : Network;
  schedule : Schedule;
  utcnow_iso : string
}.

(** The local variables of [scrape_hackathon] that its closures share,
    with the effects so far. *)
Record CrawlState : Type := {
  all_candidates : list WinnerCandidate;
  scanned_pages : Z;
  total_scanned_projects : Z;
  winners : list Project;
  visited_pages : gset string;
  found_gallery_winners : bool;
  pending_scrape_tasks : list ScrapeTask;
  scheduled_project_urls : gset string;
  total_candidates_scheduled : Z;
  trace : list Effect
}.

Definition initial_state : CrawlState := {|
  all_candidates := [];
  scanned_pages := 0;
  total_scanned_projects := 0;
  winners := [];
  visited_pages := ∅;
  found_gallery_winners := false;
  pending_scrape_tasks := [];
  scheduled_project_urls := ∅;
  total_candidates_scheduled := 0;
  trace := []
|}.

(** Assignments to one shared variable. *)
Definition log (e : Effect) (st : CrawlState) : CrawlState :=
  {| all_candidates := all_candidates st;
     scanned_pages := scanned_pages st;
     total_scanned_projects := total_scanned_projects st;
     winners := winners st;
     visited_pages := visited_pages st;
     found_gallery_winners := found_gallery_winners st;
     pending_scrape_tasks := pending_scrape_tasks st;
     scheduled_project_urls := scheduled_project_urls st;
     total_candidates_scheduled := total_candidates_scheduled st;
     trace := trace st ++ [e] |}.

Definition set_pending_scrape_tasks (tasks : list ScrapeTask) (st : CrawlState)
  : CrawlState :=
  {| all_candidates := all_candidates st;
     scanned_pages := scanned_pages st;
     total_scanned_projects := total_scanned_projects st;
     winners := winners st;
     visited_pages := visited_pages st;
     found_gallery_winners := found_gallery_winners st;
     pending_scrape_tasks := tasks;
     scheduled_project_urls := scheduled_project_urls st;
     total_candidates_scheduled := total_candidates_scheduled st;
     trace := trace st |}.

Definition set_winners (projects : list Project) (st : CrawlState) : CrawlState :=
  {| all_candidates := all_candidates st;
     scanned_pages := scanned_pages st;
     total_scanned_projects := total_scanned_projects st;
     winners := projects;
     visited_pages := visited_pages st;
     found_gallery_winners := found_gallery_winners st;
     pending_scrape_tasks := pending_scrape_tasks st;
     scheduled_project_urls := scheduled_project_urls st;
     total_candidates_scheduled := total_candidates_scheduled st;
     trace := trace st |}.

Definition set_found_gallery_winners (b : bool) (st : CrawlState) : CrawlState :=
  {| all_candidates := all_candidates st;
     scanned_pages := scanned_pages st;
     total_scanned_projects := total_scanned_projects st;
     winners := winners st;
     visited_pages := visited_pages st;
     found_gallery_winners := b;
     pending_scrape_tasks := pending_scrape_tasks st;
     scheduled_project_urls := scheduled_project_urls st;
     total_candidates_scheduled := total_candidates_scheduled st;
     trace := trace st |}.

Definition add_visited_page (page_url : string) (st : CrawlState) : CrawlState :=
  {| all_candidates := all_candidates st;
     scanned_pages := scanned_pages st;
     total_scanned_projects := total_scanned_projects st;
     winners := winners st;
     visited_pages := {[page_url]} ∪ visited_pages st;
     found_gallery_winners := found_gallery_winners st;
     pending_scrape_tasks := pending_scrape_tasks st;
     scheduled_project_urls := scheduled_project_urls st;
     total_candidates_scheduled := total_candidates_scheduled st;
     trace := trace st |}.

(** [scanned_pages += 1], [scanned_projects += parsed_page.scanned_projects]
    and [all_candidates.extend(parsed_page.all_entries)]. *)
Definition count_page (parsed_page : GalleryParseResult) (st : CrawlState)
  : CrawlState :=
  {| all_candidates := all_candidates st ++ all_entries parsed_page;
     scanned_pages := scanned_pages st + 1;
     total_scanned_projects :=
       total_scanned_projects st + scanned_projects parsed_page;
     winners := winners st;
     visited_pages := visited_pages st;
     found_gallery_winners := found_gallery_winners st;
     pending_scrape_tasks := pending_scrape_tasks st;
     scheduled_project_urls := scheduled_project_urls st;
     total_candidates_scheduled := total_candidates_scheduled st;
     trace := trace st |}.

(** How a piece of the crawl ends: it returns, it raises, or the crawl is
    still walking the gallery when the pages it is given time for run out. *)
Inductive Ending (A : Type) : Type :=
| Returned (a : A)
| Raised (e : exn)
| Unfinished.
Arguments Returned {A} a.
Arguments Raised {A} e.
Arguments Unfinished {A}.

(** A piece of the crawl: it updates the shared variables and ends. *)
Definition Crawl (A : Type) : Type := CrawlState -> CrawlState * Ending A.

#[global] Instance crawl_ret : MRet Crawl := fun A a st => (st, Returned a).

#[global] Instance crawl_bind : MBind Crawl := fun A B k m st =>
  match m st with
  | (st', Returned a) => k a st'
  | (st', Raised e) => (st', Raised e)
  | (st', Unfinished) => (st', Unfinished)
  end.

Definition update (f : CrawlState -> CrawlState) : Crawl unit :=
  fun st => (f st, Returned tt).

Definition read {A} (f : CrawlState -> A) : Crawl A :=
  fun st => (st, Returned (f st)).

(** [await progress_callback(event_type, payload)]. *)
Definition progress_callback (e : ProgressEvent) : Crawl unit :=
  update (log (Progress e)).

(** A fetch of the client inside the crawl. *)
Definition fetched (r : list NetEffect * result string) : Crawl string :=
  fun st =>
    (log (Fetch r.1) st,
     match r.2 with
     | Ok body => Returned body
     | Raise e => Raised e
     end).

(** The crawl is cut short. *)
Definition unfinished {A} : Crawl A := fun st => (st, Unfinished).

Definition lift {A} (r : result A) : Crawl A :=
  fun st => (st, match r with Ok a => Returned a | Raise e => Raised e end).

Section crawl.
Context (env : CrawlEnv).

#[local] Instance parser_of_env : PageParser := page_parser env.

(** The names bound before the closures: [normalized_hackathon_url] and
    [hackathon_name]. *)
Context (normalized_hackathon_url hackathon_name : string).

(** [not project.get("prizes")]. *)
Definition no_prizes (project : Project) : bool :=
  match prizes project with
  | [] => true
  | _ :: _ => false
  end.

(** The prize a gallery-tagged winner gets when its page lists none. *)
Definition generic_winner_prize : PrizeAward :=
  {| prize_hackathon_name := hackathon_name;
     prize_hackathon_url := normalized_hackathon_url;
     prize_name := "Winner" |}.

(** The closure [scrape_candidate]: [None] for a candidate that is
    filtered out, the [software_id] and the project otherwise. *)
Definition scrape_candidate (c : WinnerCandidate)
    (requires_prize_confirmation : bool)
  : Crawl (option (option string * Project)) :=
  project_html ←
    fetched (fetch_text_with_options (settings env) (network env)
               (project_url c)
               (Some (project_max_retries (settings env)))
               (Some (project_retry_backoff_base_seconds (settings env))));
  project ←
    lift (parse_project_page (project_url c) project_html
            normalized_hackathon_url);
  if requires_prize_confirmation && no_prizes project then
    mret None
  else
    let project :=
      if negb requires_prize_confirmation && no_prizes project
      then set_prizes project [generic_winner_prize]
      else project in
    (if requires_prize_confirmation then
       progress_callback
         (winner_project_found (proj_project_title project)
            (proj_project_url project) (software_id c)
            (Some "project_page_prize_confirmation")
            (proj_preview_image_url project))
     else mret tt);;
    mret (Some (software_id c, project)).

(** The closure [schedule_candidate]. *)
Definition schedule_candidate (c : WinnerCandidate)
    (requires_prize_confirmation : bool) : Crawl unit :=
  fun st =>
    if bool_decide (project_url c ∈ scheduled_project_urls st) then
      (st, Returned tt)
    else
      let t := {| candidate := c;
                  requires_prize_confirmation := requires_prize_confirmation |} in
      ({| all_candidates := all_candidates st;
          scanned_pages := scanned_pages st;
          total_scanned_projects := total_scanned_projects st;
          winners := winners st;
          visited_pages := visited_pages st;
          found_gallery_winners := found_gallery_winners st;
          pending_scrape_tasks := pending_scrape_tasks st ++ [t];
          scheduled_project_urls :=
            {[project_url c]} ∪ scheduled_project_urls st;
          total_candidates_scheduled := total_candidates_scheduled st + 1;
          trace := trace st ++ [CreateTask t] |},
       Returned tt).

(** The body of [for task in done] in [drain_completed_scrapes]: the task
    leaves the pending set, [task.result()] returns what its
    [scrape_candidate] returned or raises what it raised, and a kept
    project joins [winners] and is reported.  The effects of the task
    itself are recorded here, where its result is collected. *)
Definition collect_task (position : nat) (t : ScrapeTask) : Crawl unit :=
  update (fun st =>
    set_pending_scrape_tasks (delete position (pending_scrape_tasks st)) st);;
  candidate_result ←
    scrape_candidate (candidate t) (requires_prize_confirmation t);
  match candidate_result with
  | None => mret tt
  | Some (_, project) =>
      update (fun st => set_winners (winners st ++ [project]) st);;
      winner_index ← read (fun st => Z.of_nat (length (winners st)));
      total ← read total_candidates_scheduled;
      progress_callback
        (winner_project_scraped winner_index (Z.max total winner_index)
           (proj_project_title project) (proj_project_url project)
           (Z.of_nat (length (prizes project))) project)
  end.

(** The tasks a drain finds done, collected one after the other by their
    position in the pending list; a position without a task is passed
    over. *)
Fixpoint collect_done (done : list nat) : Crawl unit :=
  match done with
  | [] => mret tt
  | position :: done' =>
      pending ← read pending_scrape_tasks;
      match pending !! position with
      | None => collect_done done'
      | Some t => collect_task position t;; collect_done done'
      end
  end.

(** The rest of a blocking drain: every task still pending is waited for
    and collected. *)
Fixpoint collect_pending (n : nat) : Crawl unit :=
  match n with
  | O => mret tt
  | S n' =>
      pending ← read pending_scrape_tasks;
      match pending with
      | [] => mret tt
      | t :: _ => collect_task 0 t;; collect_pending n'
      end
  end.

(** The closure [drain_completed_scrapes]: without [wait_for_all] it
    collects the tasks that are done, with it it goes on until no task is
    pending. *)
Definition drain_completed_scrapes (done : list nat) (wait_for_all : bool)
  : Crawl unit :=
  collect_done done;;
  if wait_for_all then
    n ← read (fun st => length (pending_scrape_tasks st));
    collect_pending n
  else mret tt.

(** [for entry in parsed_page.winner_entries]. *)
Fixpoint schedule_winner_entries (entries : list WinnerCandidate) : Crawl unit :=
  match entries with
  | [] => mret tt
  | entry :: entries' =>
      update (set_found_gallery_winners true);;
      progress_callback
        (winner_project_found (project_title entry) (project_url entry)
           (software_id entry) None (preview_image_url entry));;
      schedule_candidate entry false;;
      schedule_winner_entries entries'
  end.

(** Python's truth value of [page_url]. *)
Definition truthy (page_url : option string) : option string :=
  match page_url with
  | Some "" => None
  | other => other
  end.

(** The body of the [while] loop for one gallery page; it hands back the
    new value of [page_url]. *)
Definition visit_gallery_page (page_url : string) : Crawl (option string) :=
  update (add_visited_page page_url);;
  page_html ← fetched (fetch_text (settings env) (network env) page_url);
  let parsed_page := parse_gallery_page page_url page_html in
  update (count_page parsed_page);;
  schedule_winner_entries (winner_entries parsed_page);;
  page_number ← read scanned_pages;
  progress_callback
    (gallery_page_scanned page_url page_number
       (scanned_projects parsed_page)
       (Z.of_nat (length (winner_entries parsed_page)))
       (next_page_url parsed_page));;
  drain_completed_scrapes (done_after_page (schedule env) page_number) false;;
  mret (next_page_url parsed_page).

(** The [while page_url and page_url not in visited_pages] loop, at most
    [pages] iterations of it. *)
Fixpoint walk_gallery (pages : nat) (page_url : option string) : Crawl unit :=
  match truthy page_url with
  | None => mret tt
  | Some page_url =>
      visited ← read visited_pages;
      if bool_decide (page_url ∈ visited) then mret tt
      else
        match pages with
        | O => unfinished
        | S pages' =>
            next ← visit_gallery_page page_url;
            walk_gallery pages' next
        end
  end.

(** [unique_all_candidates]: the first candidate of each [project_url]. *)
Fixpoint unique_candidates (seen_project_urls : gset string)
    (candidates : list WinnerCandidate) : list WinnerCandidate :=
  match candidates with
  | [] => []
  | c :: candidates' =>
      if bool_decide (project_url c ∈ seen_project_urls) then
        unique_candidates seen_project_urls candidates'
      else
        c :: unique_candidates ({[project_url c]} ∪ seen_project_urls) candidates'
  end.

Fixpoint schedule_fallback (candidates : list WinnerCandidate) : Crawl unit :=
  match candidates with
  | [] => mret tt
  | c :: candidates' =>
      schedule_candidate c true;; schedule_fallback candidates'
  end.

(** The [if]/[elif] after the loop. *)
Definition detect_by_fallback (should_run_deep_fallback : bool) : Crawl unit :=
  found ← read found_gallery_winners;
  if negb found && should_run_deep_fallback then
    candidates ← read all_candidates;
    let unique_all_candidates := unique_candidates ∅ candidates in
    progress_callback
      (winner_detection_fallback "gallery_badges_missing"
         (Z.of_nat (length unique_all_candidates)));;
    schedule_fallback unique_all_candidates
  else if negb found then
    progress_callback
      (winners_not_announced
         "Hackathon page indicates winners are not announced yet.")
  else mret tt.

(** The [finally] clause: the tasks still pending are cancelled. *)
Definition cancel_pending (st : CrawlState) : CrawlState :=
  set_pending_scrape_tasks [] st.

(** The [try]/[finally] statement. *)
Definition crawl_body (pages : nat) (gallery_url : string)
    (should_run_deep_fallback : bool) : Crawl unit :=
  fun st =>
    let '(st', ending) :=
      (walk_gallery pages (Some gallery_url);;
       detect_by_fallback should_run_deep_fallback;;
       drain_completed_scrapes (done_at_end (schedule env)) true) st in
    (cancel_pending st', ending).

End crawl.

Record HackathonMetadata : Type := {
  name : string;
  url : string;
  gallery_url : string;
  meta_scanned_pages : Z;
  meta_scanned_projects : Z;
  winner_count : Z
}.

(** The dictionary [scrape_hackathon] returns. *)
Record HackathonResult : Type := {
  hackathon : HackathonMetadata;
  result_winners : list Project;
  generated_at : string
}.

(** [DevpostScraper.scrape_hackathon], given time for at most [pages]
    gallery pages: the effects in order, and how the call ends. *)
Definition scrape_hackathon (env : CrawlEnv) (pages : nat)
    (hackathon_url : string) : list Effect * Ending HackathonResult :=
  let P := page_parser env in
  let run : Crawl HackathonResult :=
    normalized_hackathon_url ← lift (normalize_hackathon_url hackathon_url);
    hackathon_html ←
      fetched (fetch_text (settings env) (network env) normalized_hackathon_url);
    let hackathon_name := parse_hackathon_name hackathon_html in
    let should_run_deep_fallback := winners_are_announced hackathon_html in
    let gallery_url := resolve_gallery_url normalized_hackathon_url hackathon_html in
    crawl_body env normalized_hackathon_url hackathon_name pages gallery_url
      should_run_deep_fallback;;
    st ← read id;
    if bool_decide (scanned_pages st = 0) then
      lift (Raise (AppErr ParseAppError
                     "Unable to locate or parse the project gallery page"))
    else
      mret {| hackathon :=
                {| name := hackathon_name;
                   url := normalized_hackathon_url;
                   gallery_url := gallery_url;
                   meta_scanned_pages := scanned_pages st;
                   meta_scanned_projects := total_scanned_projects st;
                   winner_count := Z.of_nat (length (winners st)) |};
              result_winners := winners st;
              generated_at := utcnow_iso env |} in
  let '(st, ending) := run initial_state in
  (trace st, ending).

End service.

(* ===================================================================== *)
(** * app/db.py: the SQLite store *)
(* ===================================================================== *)

Module db.
Import service.

(** The values of the [status] column, [LookupStatus] in [schemas.py]. *)
Inductive LookupStatus : Type :=
| Queued
| Started
| Completed
| Failed.

#[global] Instance LookupStatus_eq_dec : EqDecision LookupStatus.
Proof. solve_decision. Defined.

Definition status_text (s : LookupStatus) : string :=
  match s with
  | Queued => "queued"
  | Started => "started"
  | Completed => "completed"
  | Failed => "failed"
  end.

(** A row of [lookup_jobs]. *)
Record LookupJob : Type := {
  id : string;
  hackathon_url : string;
  status : LookupStatus;
  created_at : string;
  started_at : option string;
  finished_at : option string;
  error_code : option string;
  error_message : option string
}.

(** A row of [lookup_progress_events]; its [id] is its position. *)
Record ProgressRow : Type := {
  lookup_job_id : string;
  event : ProgressEvent;
  event_created_at : string
}.

(** A row of [lookup_results]. *)
Record ResultRow : Type := {
  result_lookup_job_id : string;
  result_json : HackathonResult;
  result_created_at : string
}.

(** A row of [rate_limit_events]. *)
Record RateLimitRow : Type := {
  ip_hash : string;
  endpoint : string;
  rate_created_at : string
}.

(** The tables, rows in rowid order. *)
Record Database : Type := {
  lookup_jobs : list LookupJob;
  lookup_progress_events : list ProgressRow;
  lookup_results : list ResultRow;
  rate_limit_events : list RateLimitRow
}.

Definition set_lookup_jobs (jobs : list LookupJob) (d : Database) : Database :=
  {| lookup_jobs := jobs;
     lookup_progress_events := lookup_progress_events d;
     lookup_results := lookup_results d;
     rate_limit_events := rate_limit_events d |}.

(** [UPDATE lookup_jobs SET ... WHERE id = ?]. *)
Definition update_job (lookup_id : string) (f : LookupJob -> LookupJob)
    (d : Database) : Database :=
  set_lookup_jobs
    ((fun job => if String.eqb (id job) lookup_id then f job else job)
       <$> lookup_jobs d) d.

Definition get_lookup_job (d : Database) (lookup_id : string) : option LookupJob :=
  List.find (fun job => String.eqb (id job) lookup_id) (lookup_jobs d).

(** The primary key makes a second row with the same [id] fail. *)
Definition create_lookup_job (d : Database) (lookup_id hackathon_url now : string)
  : result Database :=
  match get_lookup_job d lookup_id with
  | Some _ => Raise (IntegrityError "UNIQUE constraint failed: lookup_jobs.id")
  | None =>
      Ok (set_lookup_jobs
            (lookup_jobs d ++
             [{| id := lookup_id; hackathon_url := hackathon_url;
                 status := Queued; created_at := now;
                 started_at := None; finished_at := None;
                 error_code := None; error_message := None |}]) d)
  end.

Definition set_lookup_started (d : Database) (lookup_id now : string) : Database :=
  update_job lookup_id (fun job =>
    {| id := id job; hackathon_url := hackathon_url job;
       status := Started; created_at := created_at job;
       started_at := Some now; finished_at := finished_at job;
       error_code := error_code job; error_message := error_message job |}) d.

Definition set_lookup_completed (d : Database) (lookup_id now : string) : Database :=
  update_job lookup_id (fun job =>
    {| id := id job; hackathon_url := hackathon_url job;
       status := Completed; created_at := created_at job;
       started_at := started_at job; finished_at := Some now;
       error_code := None; error_message := None |}) d.

Definition set_lookup_failed (d : Database)
    (lookup_id error_code error_message now : string) : Database :=
  update_job lookup_id (fun job =>
    {| id := id job; hackathon_url := hackathon_url job;
       status := Failed; created_at := created_at job;
       started_at := started_at job; finished_at := Some now;
       error_code := Some error_code; error_message := Some error_message |}) d.

(** [INSERT ... ON CONFLICT(lookup_job_id) DO UPDATE]. *)
Definition save_lookup_result (d : Database) (lookup_id : string)
    (r : HackathonResult) (now : string) : Database :=
  let row := {| result_lookup_job_id := lookup_id; result_json := r;
                result_created_at := now |} in
  let exists_row :=
    existsb (fun x => String.eqb (result_lookup_job_id x) lookup_id)
      (lookup_results d) in
  {| lookup_jobs := lookup_jobs d;
     lookup_progress_events := lookup_progress_events d;
     lookup_results :=
       if exists_row then
         (fun x => if String.eqb (result_lookup_job_id x) lookup_id then row else x)
           <$> lookup_results d
       else lookup_results d ++ [row];
     rate_limit_events := rate_limit_events d |}.

(** The row is appended; the event dictionary handed back carries the
    event and its timestamp. *)
Definition insert_progress_event (d : Database) (lookup_id : string)
    (e : ProgressEvent) (now : string) : Database * (ProgressEvent * string) :=
  ({| lookup_jobs := lookup_jobs d;
      lookup_progress_events :=
        lookup_progress_events d ++
        [{| lookup_job_id := lookup_id; event := e; event_created_at := now |}];
      lookup_results := lookup_results d;
      rate_limit_events := rate_limit_events d |},
   (e, now)).

Definition is_active (job : LookupJob) : bool :=
  bool_decide (status job = Queued) || bool_decide (status job = Started).

(** [ORDER BY created_at ASC LIMIT 1]: the first row among those with
    the least [created_at], compared as text. *)
Fixpoint earliest_created (rows : list LookupJob) : option LookupJob :=
  match rows with
  | [] => None
  | row :: rows' =>
      match earliest_created rows' with
      | Some row' =>
          if String.ltb (created_at row') (created_at row)
          then Some row' else Some row
      | None => Some row
      end
  end.

Definition get_latest_active_lookup_for_url (d : Database) (url : string)
  : option LookupJob :=
  earliest_created
    (filter (fun job => String.eqb (hackathon_url job) url && is_active job = true)
       (lookup_jobs d)).

(** [ORDER BY jobs.finished_at DESC LIMIT 1]: the first row among those
    with the greatest [finished_at]. *)
Fixpoint latest_finished (rows : list LookupJob) : option LookupJob :=
  match rows with
  | [] => None
  | row :: rows' =>
      match latest_finished rows' with
      | Some row' =>
          if String.ltb (default "" (finished_at row))
                        (default "" (finished_at row'))
          then Some row' else Some row
      | None => Some row
      end
  end.

Definition get_recent_completed_lookup_for_url (d : Database)
    (url finished_since : string) : option LookupJob :=
  latest_finished
    (filter (fun job =>
       (String.eqb (hackathon_url job) url
        && bool_decide (status job = Completed)
        && existsb (fun x => String.eqb (result_lookup_job_id x) (id job))
             (lookup_results d)
        && match finished_at job with
           | Some t => String.leb finished_since t
           | None => false
           end) = true)
       (lookup_jobs d)).

Definition get_lookup_result (d : Database) (lookup_id : string)
  : option HackathonResult :=
  result_json <$>
    List.find (fun x => String.eqb (result_lookup_job_id x) lookup_id)
      (lookup_results d).

Definition list_progress_events (d : Database) (lookup_id : string)
  : list (ProgressEvent * string) :=
  (fun row => (event row, event_created_at row)) <$>
    filter (fun row => String.eqb (lookup_job_id row) lookup_id = true)
      (lookup_progress_events d).

Definition insert_rate_limit_event (d : Database) (ip_hash endpoint now : string)
  : Database :=
  {| lookup_jobs := lookup_jobs d;
     lookup_progress_events := lookup_progress_events d;
     lookup_results := lookup_results d;
     rate_limit_events :=
       rate_limit_events d ++
       [{| ip_hash := ip_hash; endpoint := endpoint; rate_created_at := now |}] |}.

Definition count_rate_limit_events (d : Database)
    (hash endpoint_key since_timestamp : string) : Z :=
  Z.of_nat (length (filter (fun row =>
    (String.eqb (ip_hash row) hash && String.eqb (endpoint row) endpoint_key
     && String.leb since_timestamp (rate_created_at row)) = true)
    (rate_limit_events d))).

End db.

(* ===================================================================== *)
(** * app/job_orchestrator.py *)
(* ===================================================================== *)

Module job_orchestrator.
Import config service db.

(** What the orchestrator meets outside itself: the clock
    ([clock tick seconds] is the text of the time [seconds] before the
    [tick]-th reading), the scraper ([scrape_hackathon] of a crawl
    environment, or a stand-in as in the tests), whether the job time limit
    cuts a crawl short and after how many of its progress events, which
    websockets fail on [send_json], the identifiers [uuid4] hands out and
    the hash of a client address. *)
Record World : Type := {
  clock : nat -> Z -> string;
  scraper : string -> list Effect * Ending HackathonResult;
  deadline : string -> option nat;
  send_fails : nat -> bool;
  uuid4_hex : nat -> string;
  hash_ip : string -> string -> string
}.

(** The attributes of a [JobOrchestrator] with its database, the number
    of clock readings so far, and the [send_json] calls made. *)
Record Orchestrator : Type := {
  database : Database;
  _queue : option (list string);
  _worker_task : bool;
  _subscribers : gmap string (gset nat);
  ticks : nat;
  sent : list (nat * (ProgressEvent * string))
}.

Definition set_database (d : Database) (o : Orchestrator) : Orchestrator :=
  {| database := d; _queue := _queue o; _worker_task := _worker_task o;
     _subscribers := _subscribers o; ticks := ticks o; sent := sent o |}.

Definition set_queue (q : option (list string)) (o : Orchestrator) : Orchestrator :=
  {| database := database o; _queue := q; _worker_task := _worker_task o;
     _subscribers := _subscribers o; ticks := ticks o; sent := sent o |}.

Definition set_subscribers (s : gmap string (gset nat)) (o : Orchestrator)
  : Orchestrator :=
  {| database := database o; _queue := _queue o; _worker_task := _worker_task o;
     _subscribers := s; ticks := ticks o; sent := sent o |}.

(** One reading of [utcnow_iso()]. *)
Definition tick (o : Orchestrator) : Orchestrator :=
  {| database := database o; _queue := _queue o; _worker_task := _worker_task o;
     _subscribers := _subscribers o; ticks := S (ticks o); sent := sent o |}.

Definition record_send (socket : nat) (e : ProgressEvent * string)
    (o : Orchestrator) : Orchestrator :=
  {| database := database o; _queue := _queue o; _worker_task := _worker_task o;
     _subscribers := _subscribers o; ticks := ticks o;
     sent := sent o ++ [(socket, e)] |}.

Section orchestrator.
Context (settings : Settings) (w : World).

Definition utcnow_iso (o : Orchestrator) : string := clock w (ticks o) 0.

Definition start (o : Orchestrator) : Orchestrator :=
  if _worker_task o then o
  else {| database := database o; _queue := Some []; _worker_task := true;
          _subscribers := _subscribers o; ticks := ticks o; sent := sent o |}.

Definition stop (o : Orchestrator) : Orchestrator :=
  if negb (_worker_task o) then o
  else {| database := database o; _queue := None; _worker_task := false;
          _subscribers := ∅; ticks := ticks o; sent := sent o |}.

Definition enqueue_lookup (o : Orchestrator) (lookup_id : string)
  : result Orchestrator :=
  match _queue o with
  | None => Raise (RuntimeError "Lookup worker has not been started.")
  | Some q => Ok (set_queue (Some (q ++ [lookup_id])%list) o)
  end.

Definition subscribe (o : Orchestrator) (lookup_id : string) (websocket : nat)
  : result Orchestrator :=
  if negb (_worker_task o) then
    Raise (RuntimeError "Lookup worker has not been started.")
  else
    Ok (set_subscribers
          (<[lookup_id := {[websocket]} ∪ default ∅ (_subscribers o !! lookup_id)]>
             (_subscribers o)) o).

Definition unsubscribe (o : Orchestrator) (lookup_id : string) (websocket : nat)
  : Orchestrator :=
  if negb (_worker_task o) then o
  else
    match _subscribers o !! lookup_id with
    | None => o
    | Some sockets =>
        let sockets' := sockets ∖ {[websocket]} in
        if bool_decide (sockets' = ∅)
        then set_subscribers (delete lookup_id (_subscribers o)) o
        else set_subscribers (<[lookup_id := sockets']> (_subscribers o)) o
    end.

(** The [for socket in sockets] loop of [_broadcast]: the sends made, and
    the sockets that failed. *)
Fixpoint send_all (sockets : list nat) (e : ProgressEvent * string)
    (o : Orchestrator) : Orchestrator * list nat :=
  match sockets with
  | [] => (o, [])
  | socket :: sockets' =>
      let '(o', stale) := send_all sockets' e (record_send socket e o) in
      (o', if send_fails w socket then socket :: stale else stale)
  end.

Definition _broadcast (o : Orchestrator) (lookup_id : string)
    (e : ProgressEvent * string) : Orchestrator :=
  if negb (_worker_task o) then o
  else
    let sockets := elements (default ∅ (_subscribers o !! lookup_id)) in
    match sockets with
    | [] => o
    | _ :: _ =>
        let '(o', stale) := send_all sockets e o in
        match stale, _subscribers o' !! lookup_id with
        | _ :: _, Some current =>
            set_subscribers
              (<[lookup_id := current ∖ list_to_set stale]> (_subscribers o')) o'
        | _, _ => o'
        end
    end.

Definition publish_event (o : Orchestrator) (lookup_id : string)
    (e : ProgressEvent) : Orchestrator :=
  let '(d, ev) := insert_progress_event (database o) lookup_id e (utcnow_iso o) in
  _broadcast (tick (set_database d o)) lookup_id ev.

(** The calls of [progress_callback] a crawl makes, published in order. *)
Fixpoint publish_all (o : Orchestrator) (lookup_id : string)
    (events : list ProgressEvent) : Orchestrator :=
  match events with
  | [] => o
  | e :: events' => publish_all (publish_event o lookup_id e) lookup_id events'
  end.

Definition progress_events (effects : list Effect) : list ProgressEvent :=
  omap (fun x => match x with Progress e => Some e | _ => None end) effects.

(** [str(error)] of an exception that is not an [AppError]. *)
Definition str_of_exn (e : exn) : string :=
  match e with
  | AppErr _ message => message
  | ValueError t | RuntimeError t | IntegrityError t => t
  | HTTPException _ _ message => message
  end.

(** The handlers of [_process_lookup]: the failure is stored and
    published. *)
Definition fail_lookup (o : Orchestrator) (lookup_id code message : string)
  : Orchestrator :=
  let o := tick (set_database
                   (set_lookup_failed (database o) lookup_id code message
                      (utcnow_iso o)) o) in
  publish_event o lookup_id (failed code message).

(** What [asyncio.wait_for] makes of the crawl: a crawl still running at
    the limit, or never ending, is cancelled with the events it had
    published, and [asyncio.TimeoutError] is raised. *)
Definition wait_for (lookup_id : string)
    (run : list Effect * Ending HackathonResult)
  : list ProgressEvent * option (Ending HackathonResult) :=
  match deadline w lookup_id, run.2 with
  | Some n, _ => (take n (progress_events run.1), None)
  | None, Unfinished => (progress_events run.1, None)
  | None, ending => (progress_events run.1, Some ending)
  end.

Definition _process_lookup (o : Orchestrator) (lookup_id : string) : Orchestrator :=
  match get_lookup_job (database o) lookup_id with
  | None => o
  | Some job =>
      let o := tick (set_database
                       (set_lookup_started (database o) lookup_id (utcnow_iso o)) o) in
      let o := publish_event o lookup_id (started lookup_id) in
      let '(events, outcome) :=
        wait_for lookup_id (scraper w (hackathon_url job)) in
      let o := publish_all o lookup_id events in
      match outcome with
      | Some (Returned r) =>
          let o := tick (set_database
                           (save_lookup_result (database o) lookup_id r
                              (utcnow_iso o)) o) in
          let o := tick (set_database
                           (set_lookup_completed (database o) lookup_id
                              (utcnow_iso o)) o) in
          publish_event o lookup_id
            (completed lookup_id (Z.of_nat (length (result_winners r))))
      | None | Some Unfinished =>
          fail_lookup o lookup_id "timeout_error" "Lookup timed out"
      | Some (Raised (AppErr cls message)) =>
          fail_lookup o lookup_id (code cls) message
      | Some (Raised error) =>
          fail_lookup o lookup_id (code ParseAppError)
            ("Unexpected scraping failure: " +:+ str_of_exn error)
      end
  end.

(** One turn of the [while True] loop of [_worker_loop]: [None] while
    [queue.get()] has nothing to hand out. *)
Definition worker_turn (o : Orchestrator) : option Orchestrator :=
  match _queue o with
  | Some (cons lookup_id q) =>
      Some (_process_lookup (set_queue (Some q) o) lookup_id)
  | _ => None
  end.

(** The worker loop for at most [turns] turns, until it waits on an empty
    queue. *)
Fixpoint _worker_loop (turns : nat) (o : Orchestrator) : Orchestrator :=
  match turns with
  | O => o
  | S turns' =>
      match worker_turn o with
      | Some o' => _worker_loop turns' o'
      | None => o
      end
  end.

End orchestrator.

End job_orchestrator.

(* ===================================================================== *)
(** * app/rate_limit.py and app/main.py: the lookup endpoint *)
(* ===================================================================== *)

Module main.
Import config url_utils service db job_orchestrator.

Definition LOOKUP_ENDPOINT_KEY : string := "POST:/api/v1/lookups".

(** The body of a [POST /lookups] request and the address of its client. *)
Record LookupCreateRequest : Type := {
  payload_hackathon_url : string;
  client_ip : string
}.

Record LookupCreateResponse : Type := {
  lookup_id : string;
  response_status : LookupStatus
}.

Section endpoint.
Context (settings : Settings) (w : World).

Definition enforce_lookup_rate_limit (o : Orchestrator) (ip : string)
  : result Orchestrator :=
  if negb (rate_limit_enabled settings) then Ok o
  else
    let hash := hash_ip w (ip_hash_salt settings) ip in
    let one_hour_ago := clock w (ticks o) 3600 in
    let one_day_ago := clock w (ticks o) 86400 in
    let o := tick o in
    let hourly :=
      count_rate_limit_events (database o) hash LOOKUP_ENDPOINT_KEY one_hour_ago in
    if rate_limit_hourly settings <=? hourly then
      Raise (HTTPException 429 "rate_limit_exceeded"
               ("Hourly limit exceeded (" +:+ str_of_int (rate_limit_hourly settings)
                +:+ " lookups/hour)"))
    else
      let daily :=
        count_rate_limit_events (database o) hash LOOKUP_ENDPOINT_KEY one_day_ago in
      if rate_limit_daily settings <=? daily then
        Raise (HTTPException 429 "rate_limit_exceeded"
                 ("Daily limit exceeded (" +:+ str_of_int (rate_limit_daily settings)
                  +:+ " lookups/day)"))
      else
        Ok (tick (set_database
                    (insert_rate_limit_event (database o) hash LOOKUP_ENDPOINT_KEY
                       (utcnow_iso w o)) o)).

(** The validation of the request model: [min_length=5], [max_length=2048]. *)
Definition valid_payload (request : LookupCreateRequest) : bool :=
  let n := String.length (payload_hackathon_url request) in
  ((5 <=? n) && (n <=? 2048))%nat.

(** The handler [create_lookup]: the orchestrator after the request, and
    the response or the exception. *)
Definition create_lookup (o : Orchestrator) (request : LookupCreateRequest)
  : Orchestrator * result LookupCreateResponse :=
  if negb (valid_payload request) then
    (o, Raise (HTTPException 422 "validation" "hackathon_url"))
  else
  match enforce_lookup_rate_limit o (client_ip request) with
  | Raise e => (o, Raise e)
  | Ok o =>
      match normalize_hackathon_url (payload_hackathon_url request) with
      | Raise (AppErr ValidationAppError message) =>
          (o, Raise (HTTPException 422 (code ValidationAppError) message))
      | Raise e => (o, Raise e)
      | Ok normalized =>
          match get_latest_active_lookup_for_url (database o) normalized with
          | Some active_lookup =>
              let response :=
                {| lookup_id := id active_lookup;
                   response_status := status active_lookup |} in
              if bool_decide (status active_lookup = Queued) then
                match enqueue_lookup o (id active_lookup) with
                | Ok o' => (o', Ok response)
                | Raise e => (o, Raise e)
                end
              else (o, Ok response)
          | None =>
              let cached_lookup :=
                if 0 <? lookup_result_cache_ttl_seconds settings then
                  let finished_since :=
                    clock w (ticks o) (lookup_result_cache_ttl_seconds settings) in
                  (tick o,
                   get_recent_completed_lookup_for_url (database o) normalized
                     finished_since)
                else (o, None) in
              match cached_lookup with
              | (o, Some cached) =>
                  (o, Ok {| lookup_id := id cached;
                            response_status := status cached |})
              | (o, None) =>
                  let new_id := uuid4_hex w (ticks o) in
                  match create_lookup_job (database o) new_id normalized
                          (utcnow_iso w o) with
                  | Raise e => (o, Raise e)
                  | Ok d =>
                      let o := tick (set_database d o) in
                      let o :=
                        publish_event w o new_id (queued new_id normalized) in
                      match enqueue_lookup o new_id with
                      | Ok o' =>
                          (o', Ok {| lookup_id := new_id;
                                     response_status := Queued |})
                      | Raise e => (o, Raise e)
                      end
                  end
              end
          end
      end
  end.

End endpoint.

End main.

(* ===================================================================== *)
(** * The vocabulary of the properties *)
(* ===================================================================== *)

Module observations.
Import config http_client parser url_utils service.

(** The tasks a crawl created, in order, and the project URLs they are
    to fetch. *)
Definition created_tasks (effects : list Effect) : list ScrapeTask :=
  omap (fun x => match x with CreateTask t => Some t | _ => None end) effects.

Definition scheduled_urls (effects : list Effect) : list string :=
  (fun t => project_url (candidate t)) <$> created_tasks effects.

(** The report of an entry that carries a winner badge in the gallery:
    the discovery event without a [source]. *)
Definition is_badge_report (x : Effect) : bool :=
  match x with
  | Progress (winner_project_found _ _ _ None _) => true
  | _ => false
  end.

(** The fallback pass: its announcement, or a task that requires the
    prize confirmation. *)
Definition is_fallback_step (x : Effect) : bool :=
  match x with
  | Progress (winner_detection_fallback _ _) => true
  | CreateTask t => requires_prize_confirmation t
  | _ => false
  end.

Definition is_not_announced_report (x : Effect) : bool :=
  match x with
  | Progress (winners_not_announced _) => true
  | _ => false
  end.

Definition badge_reported (effects : list Effect) : bool :=
  existsb is_badge_report effects.

(** A gallery page yields a badge-tagged winner: the parser reads at
    least one winner entry off the HTML that the page serves. *)
Definition yields_winner (env : CrawlEnv) (page_url : string) : bool :=
  match (fetch_text (settings env) (network env) page_url).2 with
  | Ok page_html =>
      match winner_entries
              (@parse_gallery_page (page_parser env) page_url page_html) with
      | [] => false
      | _ :: _ => true
      end
  | Raise _ => false
  end.

(** The gallery pages a crawl has read are those of its
    [gallery_page_scanned] events; a gallery entry is badge-tagged in the
    crawl when one of these pages yields a winner. *)
Definition is_winner_page (env : CrawlEnv) (x : Effect) : bool :=
  match x with
  | Progress (gallery_page_scanned page_url _ _ _ _) => yields_winner env page_url
  | _ => false
  end.

Definition badge_tagged (env : CrawlEnv) (effects : list Effect) : bool :=
  existsb (is_winner_page env) effects.

Definition fallback_ran (effects : list Effect) : bool :=
  existsb is_fallback_step effects.

Definition not_announced_reported (effects : list Effect) : bool :=
  existsb is_not_announced_report effects.

(** What the landing page says about the winners, when the crawl gets as
    far as reading it: the value of [should_run_deep_fallback]. *)
Definition winners_likely_announced (env : CrawlEnv) (hackathon_url : string)
  : option bool :=
  match normalize_hackathon_url hackathon_url with
  | Ok normalized =>
      match (fetch_text (settings env) (network env) normalized).2 with
      | Ok hackathon_html =>
          Some (@winners_are_announced (page_parser env) hackathon_html)
      | Raise _ => None
      end
  | Raise _ => None
  end.

(** The first answer to a GET of [url] is a 403 or a 429. *)
Definition denied (net : Network) (url : string) : Prop :=
  exists r, net url [] 1 = Responded r
            /\ (status_code r = 403 \/ status_code r = 429).

(** The first answer to a GET of [url] is below 400. *)
Definition served (net : Network) (url : string) : Prop :=
  exists r, net url [] 1 = Responded r /\ status_code r < 400.

(** Every page that the site serves parses as a project page of the
    hackathon [normalized_hackathon_url]. *)
Definition served_pages_parse (env : CrawlEnv) (normalized_hackathon_url : string)
  : Prop :=
  forall url r,
    network env url [] 1 = Responded r -> status_code r < 400 ->
    exists project,
      @parse_project_page (page_parser env) url (text r) normalized_hackathon_url
      = Ok project.

End observations.

(* ===================================================================== *)
(** * The vocabulary of the properties *)
(* ===================================================================== *)

(** ** The fetch client *)

Module fetch_properties.
Import config http_client.

(** The effects of [n] consecutive failed attempts from [attempt] on, as the
    specification words them: a request per attempt, and between attempt
    [k] and attempt [k+1] a sleep of [backoff_base * 2^(k-1)] seconds. *)
Fixpoint attempts_from (url : string) (backoff_base : Q) (n : nat) (attempt : Z)
  : list NetEffect :=
  match n with
  | O => []
  | S O => [Get url attempt]
  | S n' =>
      Get url attempt
        :: Sleep (backoff_base * inject_Z (2 ^ (attempt - 1)))%Q
        :: attempts_from url backoff_base n' (attempt + 1)
  end.

(** A status the client treats as a plain client error. *)
Definition other_client_error (status : Z) : Prop :=
  400 <= status /\ status <> 403 /\ status <> 429 /\ ~ (500 <= status < 600).

(** The loop invariant of [_fetch_with_retries]: [remaining] iterations
    are left when the loop is at [attempt]. *)
Definition in_budget (retry_count : Z) (remaining : nat) (attempt : Z) : Prop :=
  Z.of_nat remaining = retry_count - attempt + 1.

End fetch_properties.

(** ** The URL normaliser *)

Module url_properties.
Import pystr urllib_parse.

(** A character that no stripping or splitting step of the normaliser
    looks for inside a host or a path. *)
Definition plain_char (c : ascii) : bool :=
  negb (isspace c || is_c0_control_or_space c
        || is_char "?" c || is_char "#" c || is_char ";" c
        || is_char "[" c || is_char "]" c).

(** A host of the source site: plain characters without a slash, ending
    in the site's domain. *)
Definition host_ok (h : string) : bool :=
  all_chars (fun c => plain_char c && negb (is_char "/" c)) h
  && endswith (lower h) "devpost.com".

(** A canonical path: empty or starting with a slash, of plain characters,
    without a trailing slash. *)
Definition path_ok (p : string) : bool :=
  (String.eqb p "" || startswith p "/")
  && all_chars plain_char p
  && String.eqb (rstrip_by (is_char "/") p) p.

(** What may follow the path in a raw spelling: nothing, a query string,
    or a fragment. *)
Definition suffix_ok (rest : string) : bool :=
  match rest with
  | "" => true
  | String c _ => is_char "?" c || is_char "#" c
  end.

(** What is left of a suffix once the fragment is taken off: nothing or a
    query. *)
Definition query_mark (rest : string) : bool :=
  match rest with
  | "" => true
  | String c _ => is_char "?" c
  end.

(** The two schemes a candidate can carry into [urlparse]. *)
Definition web_scheme (s : string) : Prop := s = "http" \/ s = "https".

End url_properties.

(** ** A Hoare logic of the crawl *)

Module crawl_properties.
Import config http_client parser url_utils service observations.

(** [hoare P m Q]: from a state satisfying [P], the piece [m] of the crawl
    leaves a state and an ending related by [Q]. *)
Definition hoare {A} (P : CrawlState -> Prop) (m : Crawl A)
    (Q : CrawlState -> Ending A -> Prop) : Prop :=
  forall st, P st -> Q (m st).1 (m st).2.

(** [invariant I m]: however [m] ends, it keeps [I]. *)
Definition invariant {A} (I : CrawlState -> Prop) (m : Crawl A) : Prop :=
  hoare I m (fun st _ => I st).

(** The properties of a state that the collecting of finished tasks and
    the bookkeeping of a gallery page cannot break: they do not depend on
    the counters, the winners, the visited pages and the pending tasks, nor
    on fetches and on reports other than the discovery of a badge, the
    fallback and the missing announcement. *)
Record steady (I : CrawlState -> Prop) : Prop := {
  steady_fetch : forall st effects, I st -> I (log (Fetch effects) st);
  steady_scraped : forall st i n title url k project,
    I st -> I (log (Progress (winner_project_scraped i n title url k project)) st);
  steady_confirmed : forall st title url sid source img,
    I st ->
    I (log (Progress (winner_project_found title url sid (Some source) img)) st);
  steady_page : forall st url n k j next,
    I st -> I (log (Progress (gallery_page_scanned url n k j next)) st);
  steady_pending : forall st tasks, I st -> I (set_pending_scrape_tasks tasks st);
  steady_winners : forall st projects, I st -> I (set_winners projects st);
  steady_visited : forall st url, I st -> I (add_visited_page url st);
  steady_count : forall st parsed, I st -> I (count_page parsed st)
}.

(** The URLs of the created tasks are pairwise distinct and all recorded
    in [scheduled_project_urls]. *)
Definition scheduled_once (st : CrawlState) : Prop :=
  NoDup (scheduled_urls (trace st)) /\
  forall u, u ∈ scheduled_urls (trace st) -> u ∈ scheduled_project_urls st.

(** While the gallery is walked: [found_gallery_winners] tells whether a
    badge was reported, and neither the fallback nor the missing
    announcement has been. *)
Definition walking (st : CrawlState) : Prop :=
  found_gallery_winners st = badge_reported (trace st) /\
  fallback_ran (trace st) = false /\
  not_announced_reported (trace st) = false.

(** Once the decision after the walk is taken: a badge was reported and
    nothing else, or none was and, by what the landing page says, either
    the fallback ran or the missing announcement was reported. *)
Definition decided (should_run : bool) (st : CrawlState) : Prop :=
  (badge_reported (trace st) = true /\ fallback_ran (trace st) = false
   /\ not_announced_reported (trace st) = false) \/
  (badge_reported (trace st) = false /\ should_run = true
   /\ fallback_ran (trace st) = true
   /\ not_announced_reported (trace st) = false) \/
  (badge_reported (trace st) = false /\ should_run = false
   /\ fallback_ran (trace st) = false
   /\ not_announced_reported (trace st) = true).

(** The reports of badges agree with the gallery pages read: a badge was
    reported exactly when a page read so far yields a winner, or, inside
    the visit of a page, when [b] says that an entry of the page was
    reported already. *)
Definition reports_match (env : CrawlEnv) (b : bool) (st : CrawlState) : Prop :=
  badge_reported (trace st) = badge_tagged env (trace st) || b.

(** What a piece of the crawl leaves when its only failures are denials:
    [K] when it returns, a [BlockedAppError] when it raises. *)
Definition blocked_or {A} (K : CrawlState -> Prop) (st : CrawlState)
    (ending : Ending A) : Prop :=
  match ending with
  | Returned _ => K st
  | Raised e => exists message, e = AppErr BlockedAppError message
  | Unfinished => True
  end.

Definition guarded {A} (K K' : CrawlState -> Prop) (m : Crawl A) : Prop :=
  hoare K m (blocked_or K').

(** The properties of a state that no report, no fetch and no bookkeeping
    of a gallery page can break. *)
Record calm (K : CrawlState -> Prop) : Prop := {
  calm_fetch : forall st effects, K st -> K (log (Fetch effects) st);
  calm_progress : forall st e, K st -> K (log (Progress e) st);
  calm_winners : forall st projects, K st -> K (set_winners projects st);
  calm_visited : forall st url, K st -> K (add_visited_page url st);
  calm_count : forall st parsed, K st -> K (count_page parsed st);
  calm_found : forall st b, K st -> K (set_found_gallery_winners b st)
}.

(** Every created task whose page is denied is still pending: none has
    been collected. *)
Definition denied_kept (env : CrawlEnv) (st : CrawlState) : Prop :=
  forall t, t ∈ created_tasks (trace st) ->
            denied (network env) (project_url (candidate t)) ->
            t ∈ pending_scrape_tasks st.

Definition denied_kept_with (env : CrawlEnv) (pending : list ScrapeTask) (st : CrawlState) : Prop :=
  denied_kept env st /\ pending_scrape_tasks st = pending.

(** [settles K m]: from a state in [K], the piece [m] of the crawl ends,
    by returning or raising, in a state in [K]: it does not run out of
    the gallery pages it is given time for. *)
Definition settles {A} (K : CrawlState -> Prop) (m : Crawl A) : Prop :=
  hoare K m (fun st ending => K st /\ ending <> Unfinished).

(** The gallery pages marked as visited are those of [V]. *)
Definition visited_is (V : gset string) (st : CrawlState) : Prop :=
  visited_pages st = V.

(** The gallery of a hackathon lies within the finite set [U] of URLs:
    the gallery URL read off the landing page the site serves is in [U],
    and so is the next-page link of every page of [U] the site serves. *)
Definition gallery_within (env : CrawlEnv) (hackathon_url : string)
    (U : gset string) : Prop :=
  (forall normalized html,
     normalize_hackathon_url hackathon_url = Ok normalized ->
     (fetch_text (settings env) (network env) normalized).2 = Ok html ->
     @resolve_gallery_url (page_parser env) normalized html ∈ U) /\
  (forall page_url html next,
     page_url ∈ U ->
     (fetch_text (settings env) (network env) page_url).2 = Ok html ->
     next_page_url (@parse_gallery_page (page_parser env) page_url html)
     = Some next ->
     next ∈ U).

End crawl_properties.

(* ===================================================================== *)
(** * Further vocabulary of the properties *)
(* ===================================================================== *)

Module fetch_measures.
Import config http_client.

(** The time a fetch spends in [asyncio.sleep], in seconds. *)
Definition total_sleep (effects : list NetEffect) : Q :=
  fold_right Qplus 0%Q (sleeps effects).

(** The result of a fetch whose [try] block is left by [return] or by
    the [BlockedAppError] that is raised again. *)
Definition leaves_loop (r : AttemptResult) : option (result Response) :=
  match r with
  | Return response => Some (Ok response)
  | Blocked message => Some (Raise (AppErr BlockedAppError message))
  | Caught _ => None
  end.

End fetch_measures.

(* ===================================================================== *)
(** * app/scraping/url_utils.py: [same_hackathon] *)
(* ===================================================================== *)

Module url_utils_more.
Import pystr urllib_parse.

Definition same_hackathon (target_url challenge_url : string) : result bool :=
  target ← urlparse target_url;
  challenge ← urlparse challenge_url;
  if negb (String.eqb (lower (netloc target)) (lower (netloc challenge))) then
    Ok false
  else
    let target_path := rstrip_by (is_char "/") (path target) in
    let challenge_path := rstrip_by (is_char "/") (path challenge) in
    if negb (nonempty target_path) || String.eqb target_path "/" then Ok true
    else Ok (startswith challenge_path target_path).

End url_utils_more.

(* ===================================================================== *)
(** * Vocabulary of the job store *)
(* ===================================================================== *)

Module store_properties.
Import service db.

(** The primary keys of [lookup_jobs] and of [lookup_results], in rowid
    order. *)
Definition job_ids (d : Database) : list string := id <$> lookup_jobs d.

Definition result_ids (d : Database) : list string :=
  result_lookup_job_id <$> lookup_results d.

(** The events of a lookup without their timestamps. *)
Definition stored_events (d : Database) (lookup_id : string) : list ProgressEvent :=
  fst <$> list_progress_events d lookup_id.

(** [created_at] of one row is strictly before that of another. *)
Definition created_before (a b : LookupJob) : Prop :=
  String.ltb (created_at a) (created_at b) = true.

(** A row the query of [get_latest_active_lookup_for_url] selects from. *)
Definition active_for (url : string) (job : LookupJob) : Prop :=
  hackathon_url job = url /\ is_active job = true.

End store_properties.

(* ===================================================================== *)
(** * Vocabulary of the orchestrator *)
(* ===================================================================== *)

Module orchestrator_properties.
Import service db job_orchestrator.

(** [self._subscribers.get(lookup_id, set())]. *)
Definition subscribers_of (o : Orchestrator) (lookup_id : string) : gset nat :=
  default ∅ (_subscribers o !! lookup_id).

(** The [send_json] calls that hand one event to a list of sockets. *)
Definition sends_to (sockets : list nat) (e : ProgressEvent * string)
  : list (nat * (ProgressEvent * string)) :=
  (fun socket => (socket, e)) <$> sockets.

(** A job has reached the end of the state machine. *)
Definition terminal (s : LookupStatus) : Prop := s = Completed \/ s = Failed.

(** The orchestrator of [_process_lookup] when the crawl has ended or has
    been cancelled: the job is marked started, and [started] and the
    events of the crawl are published. *)
Definition after_crawl (w : World) (o : Orchestrator) (lookup_id : string)
    (events : list ProgressEvent) : Orchestrator :=
  let o := tick (set_database
                   (set_lookup_started (database o) lookup_id (utcnow_iso w o)) o) in
  let o := publish_event w o lookup_id (started lookup_id) in
  publish_all w o lookup_id events.

(** The statements of [_process_lookup] after a crawl that returned. *)
Definition complete_lookup (w : World) (o : Orchestrator) (lookup_id : string)
    (r : HackathonResult) : Orchestrator :=
  let o := tick (set_database
                   (save_lookup_result (database o) lookup_id r (utcnow_iso w o)) o) in
  let o := tick (set_database
                   (set_lookup_completed (database o) lookup_id (utcnow_iso w o)) o) in
  publish_event w o lookup_id
    (completed lookup_id (Z.of_nat (length (result_winners r)))).

(** The row of a job once it is started, failed or completed. *)
Definition started_row (job : LookupJob) (now : string) : LookupJob :=
  {| id := id job; hackathon_url := hackathon_url job;
     status := Started; created_at := created_at job;
     started_at := Some now; finished_at := finished_at job;
     error_code := error_code job; error_message := error_message job |}.

Definition failed_row (job : LookupJob) (code message now : string) : LookupJob :=
  {| id := id job; hackathon_url := hackathon_url job;
     status := Failed; created_at := created_at job;
     started_at := started_at job; finished_at := Some now;
     error_code := Some code; error_message := Some message |}.

Definition completed_row (job : LookupJob) (now : string) : LookupJob :=
  {| id := id job; hackathon_url := hackathon_url job;
     status := Completed; created_at := created_at job;
     started_at := started_at job; finished_at := Some now;
     error_code := None; error_message := None |}.

End orchestrator_properties.

(* ===================================================================== *)
(** * app/main.py: the endpoint [get_lookup] *)
(* ===================================================================== *)

Module main_more.
Import urllib_parse service db.

Record ScrapeError : Type := {
  scrape_error_code : string;
  scrape_error_message : string
}.

Record LookupJobResponse : Type := {
  job_lookup_id : string;
  job_hackathon_url : string;
  job_status : LookupStatus;
  job_created_at : string;
  job_started_at : option string;
  job_finished_at : option string;
  job_error : option ScrapeError;
  job_progress_events : list (ProgressEvent * string);
  job_result : option HackathonResult
}.

(** The handler [get_lookup]: the response, or the 404. *)
Definition get_lookup (d : Database) (lookup_id : string)
  : result LookupJobResponse :=
  match get_lookup_job d lookup_id with
  | None => Raise (HTTPException 404 "not_found" "Lookup not found")
  | Some lookup =>
      let progress_events := list_progress_events d lookup_id in
      let result_payload := get_lookup_result d lookup_id in
      let error :=
        match error_code lookup with
        | Some code =>
            if nonempty code then
              Some {| scrape_error_code := code;
                      scrape_error_message :=
                        match error_message lookup with
                        | Some message => message
                        | None => ""
                        end |}
            else None
        | None => None
        end in
      Ok {| job_lookup_id := id lookup;
            job_hackathon_url := hackathon_url lookup;
            job_status := status lookup;
            job_created_at := created_at lookup;
            job_started_at := started_at lookup;
            job_finished_at := finished_at lookup;
            job_error := error;
            job_progress_events := progress_events;
            job_result := result_payload |}
  end.

End main_more.

(* ===================================================================== *)
(** * Further vocabulary of the crawl *)
(* ===================================================================== *)

Module crawl_observations.
Import config http_client parser url_utils service observations crawl_properties.

(** The projects and the indices that the [winner_project_scraped] events
    of a crawl carry, in order. *)
Definition scraped_projects (effects : list Effect) : list Project :=
  omap (fun x => match x with
                 | Progress (winner_project_scraped _ _ _ _ _ project) => Some project
                 | _ => None
                 end) effects.

Definition scraped_indices (effects : list Effect) : list Z :=
  omap (fun x => match x with
                 | Progress (winner_project_scraped index _ _ _ _ _) => Some index
                 | _ => None
                 end) effects.

(** The URLs and the numbers of the gallery pages that the
    [gallery_page_scanned] events of a crawl carry, in order. *)
Definition scanned_page_urls (effects : list Effect) : list string :=
  omap (fun x => match x with
                 | Progress (gallery_page_scanned page_url _ _ _ _) => Some page_url
                 | _ => None
                 end) effects.

Definition scanned_page_numbers (effects : list Effect) : list Z :=
  omap (fun x => match x with
                 | Progress (gallery_page_scanned _ page_number _ _ _) =>
                     Some page_number
                 | _ => None
                 end) effects.

(** The winners collected so far are the projects reported as scraped,
    numbered from 1, and each of them has a prize. *)
Definition winners_reported (st : CrawlState) : Prop :=
  winners st = scraped_projects (trace st) /\
  scraped_indices (trace st) = seqZ 1 (Z.of_nat (length (winners st))) /\
  Forall (fun project => prizes project <> []) (winners st).

(** The gallery pages reported so far are pairwise distinct, all marked as
    visited, and numbered from 1 to [scanned_pages]. *)
Definition pages_once (st : CrawlState) : Prop :=
  NoDup (scanned_page_urls (trace st)) /\
  (forall u, u ∈ scanned_page_urls (trace st) -> u ∈ visited_pages st) /\
  0 <= scanned_pages st /\
  scanned_page_numbers (trace st) = seqZ 1 (scanned_pages st).

(** A property of the shared variables that the fetches, the discovery
    reports, the fallback decision and the scheduling of a candidate do
    not break. *)
Record bystander (I : CrawlState -> Prop) : Prop := {
  by_fetch : forall st effects, I st -> I (log (Fetch effects) st);
  by_found : forall st title url sid source img,
    I st -> I (log (Progress (winner_project_found title url sid source img)) st);
  by_fallback : forall st reason k,
    I st -> I (log (Progress (winner_detection_fallback reason k)) st);
  by_not_announced : forall st message,
    I st -> I (log (Progress (winners_not_announced message)) st);
  by_pending : forall st tasks, I st -> I (set_pending_scrape_tasks tasks st);
  by_flag : forall st b, I st -> I (set_found_gallery_winners b st);
  by_schedule : forall c requires st,
    I st -> I (schedule_candidate c requires st).1
}.

(** Inside the visit of the page [url]: the page is marked as visited
    and not yet reported, and [k] pages are counted but not yet reported. *)
Definition page_open (url : string) (k : Z) (st : CrawlState) : Prop :=
  NoDup (scanned_page_urls (trace st)) /\
  (forall u, u ∈ scanned_page_urls (trace st) -> u ∈ visited_pages st) /\
  0 <= scanned_pages st - k /\
  scanned_page_numbers (trace st) = seqZ 1 (scanned_pages st - k) /\
  (url ∉ scanned_page_urls (trace st)) /\
  (url ∈ visited_pages st).

End crawl_observations.

(* ===================================================================== *)
(** * A small site to run the crawl on *)
(* ===================================================================== *)

Module sample_site.
Import config http_client parser service db job_orchestrator main.

Definition hackathon_url : string := "https://samplehack.devpost.com".
Definition gallery_url : string := "https://samplehack.devpost.com/project-gallery".
Definition winner_url : string := "https://devpost.com/software/example-winner".
Definition non_winner_url : string := "https://devpost.com/software/not-winner".
Definition plain_url : string := "https://devpost.com/software/third".

Definition entry (title url : string) : WinnerCandidate :=
  {| project_title := title; project_url := url;
     software_id := None; preview_image_url := None |}.

Definition winner_entry : WinnerCandidate := entry "Example Winner" winner_url.
Definition non_winner_entry : WinnerCandidate := entry "Not Winner" non_winner_url.
Definition plain_entry : WinnerCandidate := entry "Third" plain_url.

Definition first_place : PrizeAward :=
  {| prize_hackathon_name := "SampleHack";
     prize_hackathon_url := hackathon_url;
     prize_name := "First Place" |}.

(** A parser for pages whose text names what they hold: a landing page
    says whether winners are announced, a gallery page whether its
    entries carry badges, a project page whether it lists a prize. *)
#[local] Instance toy_parser : PageParser := {|
  parse_hackathon_name := fun _ => "SampleHack";
  winners_are_announced := fun html => negb (String.eqb html "landing: winners announced soon");
  resolve_gallery_url := fun hackathon_url _ => hackathon_url +:+ "/project-gallery";
  parse_gallery_page := fun _ html =>
    {| all_entries := [winner_entry; non_winner_entry; plain_entry];
       winner_entries :=
         if String.eqb html "gallery: badges"
         then [winner_entry; non_winner_entry] else [];
       scanned_projects := 3;
       next_page_url := None |};
  parse_project_page := fun project_url html _ =>
    Ok {| proj_project_title := html;
          proj_project_url := project_url;
          tagline := None;
          proj_preview_image_url := None;
          prizes := if String.eqb html "project: prize" then [first_place] else [];
          team_members := []; built_with := [];
          external_links := []; description_sections := [] |}
|}.

Definition page (body : string) : AttemptOutcome :=
  Responded {| status_code := 200; text := body; json_payload := None |}.

Definition denied : AttemptOutcome :=
  Responded {| status_code := 429; text := "slow down"; json_payload := None |}.

(** The site: a landing page, a one-page gallery, and project pages. *)
Definition site (landing gallery : string) (project : string -> AttemptOutcome)
  : Network := fun url _ _ =>
  if String.eqb url hackathon_url then page landing
  else if String.eqb url gallery_url then page gallery
  else project url.

Definition in_order : Schedule :=
  {| done_after_page := fun _ => []; done_at_end := [] |}.

Definition env_of (net : Network) : CrawlEnv :=
  {| page_parser := toy_parser;
     settings := default_settings;
     network := net;
     schedule := in_order;
     service.utcnow_iso := "2026-01-01T00:00:00.000000Z" |}.

(** Scenario A: two of three entries carry a badge. *)
Definition badges_env : CrawlEnv :=
  env_of (site "landing" "gallery: badges" (fun _ => page "project: no prize")).

(** Scenario B: no badge, winners announced, one project page with a prize. *)
Definition fallback_env : CrawlEnv :=
  env_of (site "landing" "gallery: no badges"
            (fun url => if String.eqb url winner_url
                        then page "project: prize" else page "project: no prize")).

(** Scenario C: no badge, winners not announced yet. *)
Definition not_announced_env : CrawlEnv :=
  env_of (site "landing: winners announced soon" "gallery: no badges"
            (fun _ => page "project: no prize")).

(** Scenario D: every project page answers 429. *)
Definition denied_env : CrawlEnv :=
  env_of (site "landing" "gallery: badges" (fun _ => denied)).

(** A cyclic gallery: two pages whose next-page links point at each
    other. *)
Definition second_page_url : string :=
  "https://samplehack.devpost.com/project-gallery?page=2".

Definition cyclic_parser : PageParser := {|
  parse_hackathon_name := fun _ => "SampleHack";
  winners_are_announced := fun _ => false;
  resolve_gallery_url := fun hackathon_url _ => hackathon_url +:+ "/project-gallery";
  parse_gallery_page := fun page_url _ =>
    {| all_entries := [plain_entry];
       winner_entries := [];
       scanned_projects := 1;
       next_page_url :=
         Some (if String.eqb page_url gallery_url
               then second_page_url else gallery_url) |};
  parse_project_page := @parse_project_page toy_parser
|}.

Definition cyclic_env : CrawlEnv :=
  {| page_parser := cyclic_parser;
     settings := default_settings;
     network := fun _ _ _ => page "gallery";
     schedule := in_order;
     service.utcnow_iso := "2026-01-01T00:00:00.000000Z" |}.

(** A store with one queued lookup of the sample hackathon, and a started
    orchestrator whose queue holds it. *)
Definition queued_job : LookupJob :=
  {| id := "lookup-1"; db.hackathon_url := hackathon_url; status := Queued;
     created_at := "2026-01-01T00:00:00.000000Z";
     started_at := None; finished_at := None;
     error_code := None; error_message := None |}.

Definition store_of (jobs : list LookupJob) : Database :=
  {| lookup_jobs := jobs; lookup_progress_events := [];
     lookup_results := []; rate_limit_events := [] |}.

Definition orchestrator_of (jobs : list LookupJob) (queue : list string)
  : Orchestrator :=
  {| database := store_of jobs; _queue := Some queue; _worker_task := true;
     _subscribers := ∅; ticks := 0; sent := [] |}.

(** A world whose scraper is the crawl of a crawl environment, given time
    for five gallery pages and never cut by the job time limit. *)
Definition world_of (env : CrawlEnv) : World :=
  {| clock := fun _ _ => "2026-01-01T00:00:01.000000Z";
     scraper := scrape_hackathon env 5;
     deadline := fun _ => None;
     send_fails := fun _ => false;
     uuid4_hex := fun _ => "lookup-2";
     hash_ip := fun salt ip => salt +:+ ":" +:+ ip |}.

Definition started_job : LookupJob :=
  {| id := "lookup-1"; db.hackathon_url := hackathon_url; status := Started;
     created_at := "2026-01-01T00:00:00.000000Z";
     started_at := Some "2026-01-01T00:00:01.000000Z"; finished_at := None;
     error_code := None; error_message := None |}.

Definition sample_request : LookupCreateRequest :=
  {| payload_hackathon_url := "samplehack.devpost.com/?x=1";
     client_ip := "203.0.113.7" |}.

(** A started orchestrator with the sockets 1 and 2 subscribed to the
    queued lookup, and a world in which socket 2 is closed. *)
Definition listening : Orchestrator :=
  {| database := store_of [queued_job]; _queue := Some ["lookup-1"];
     _worker_task := true;
     _subscribers := {["lookup-1" := {[1%nat; 2%nat]}]};
     ticks := 0; sent := [] |}.

Definition flaky_world (env : CrawlEnv) : World :=
  {| clock := fun _ _ => "2026-01-01T00:00:01.000000Z";
     scraper := scrape_hackathon env 5;
     deadline := fun _ => None;
     send_fails := fun socket => Nat.eqb socket 2;
     uuid4_hex := fun _ => "lookup-2";
     hash_ip := fun salt ip => salt +:+ ":" +:+ ip |}.

(** A queued job of another hackathon. *)
Definition other_job : LookupJob :=
  {| id := "lookup-7"; db.hackathon_url := "https://otherhack.devpost.com";
     status := Queued; created_at := "2026-01-01T00:00:09.000000Z";
     started_at := None; finished_at := None;
     error_code := None; error_message := None |}.

(** A result of a crawl of the sample hackathon without winners. *)
Definition sample_result : HackathonResult :=
  {| hackathon :=
       {| name := "SampleHack"; url := hackathon_url;
          service.gallery_url := gallery_url;
          meta_scanned_pages := 1; meta_scanned_projects := 3;
          winner_count := 0 |};
     result_winners := [];
     generated_at := "2026-01-01T00:00:02.000000Z" |}.

(** A job of the sample hackathon completed a second after the sample
    clock, with its result stored. *)
Definition completed_job : LookupJob :=
  {| id := "lookup-1"; db.hackathon_url := hackathon_url; status := Completed;
     created_at := "2026-01-01T00:00:00.000000Z";
     started_at := Some "2026-01-01T00:00:01.000000Z";
     finished_at := Some "2026-01-01T00:00:02.000000Z";
     error_code := None; error_message := None |}.

Definition cached_orchestrator : Orchestrator :=
  {| database :=
       {| lookup_jobs := [completed_job]; lookup_progress_events := [];
          lookup_results :=
            [{| result_lookup_job_id := "lookup-1"; result_json := sample_result;
                result_created_at := "2026-01-01T00:00:02.000000Z" |}];
          rate_limit_events := [] |};
     _queue := Some []; _worker_task := true; _subscribers := ∅;
     ticks := 0; sent := [] |}.

(** Settings with the rate limit on, one lookup an hour; and an
    orchestrator that has counted one request of the sample client. *)
Definition limited_settings : Settings := {|
  request_timeout_seconds := 20;
  max_retries := 3;
  retry_backoff_base_seconds := 6 # 10;
  project_request_timeout_seconds := 8;
  project_max_retries := 2;
  project_retry_backoff_base_seconds := 25 # 100;
  project_fetch_concurrency := 6;
  job_timeout_seconds := 300;
  lookup_result_cache_ttl_seconds := 1800;
  rate_limit_enabled := true;
  rate_limit_hourly := 1;
  rate_limit_daily := 10;
  ip_hash_salt := "change-me"
|}.

Definition counted_orchestrator : Orchestrator :=
  {| database :=
       {| lookup_jobs := []; lookup_progress_events := []; lookup_results := [];
          rate_limit_events :=
            [{| ip_hash := "change-me:203.0.113.7";
                endpoint := LOOKUP_ENDPOINT_KEY;
                rate_created_at := "2026-01-01T00:00:01.000000Z" |}] |};
     _queue := Some []; _worker_task := true; _subscribers := ∅;
     ticks := 0; sent := [] |}.

End sample_site.

(* ===================================================================== *)
(** * Properties of the fetch client *)
(* ===================================================================== *)

Section fetch_client.
Import config http_client fetch_properties.

Implicit Types (get : Z -> AttemptOutcome) (url : string) (attempt retry_count : Z).

Lemma attempts_from_cons url b n attempt :
  attempts_from url b (S (S n)) attempt =
  Get url attempt :: Sleep (backoff_delay b attempt)
    :: attempts_from url b (S n) (attempt + 1).
Proof. reflexivity. Qed.

Lemma requests_attempts_from url b n attempt :
  requests (attempts_from url b n attempt) = seqZ attempt (Z.of_nat n).
Proof.
  revert attempt. induction n as [|[|n] IH]; intros attempt.
  - reflexivity.
  - reflexivity.
  - rewrite attempts_from_cons. cbn [requests omap list_omap].
    fold (requests (attempts_from url b (S n) (attempt + 1))).
    rewrite IH. rewrite (seqZ_cons attempt (Z.of_nat (S (S n)))) by lia.
    f_equal. f_equal; lia.
Qed.

Lemma attempt_result_other_client_error url r :
  other_client_error (status_code r) ->
  attempt_result url (Responded r) =
  Caught (LastNetworkAppError
            ("Unable to fetch " +:+ url +:+ "; received "
             +:+ str_of_int (status_code r))).
Proof.
  intros (H400 & H403 & H429 & H5).
  unfold attempt_result.
  rewrite !bool_decide_eq_false_2 by assumption. cbn [orb].
  destruct (500 <=? status_code r) eqn:E1; destruct (status_code r <? 600) eqn:E2;
    cbn [andb]; try (exfalso; apply H5; lia).
  all: destruct (400 <=? status_code r) eqn:E3; [reflexivity | lia].
Qed.

(** Every fetch issues consecutive attempts from the current one on, at
    most [remaining] of them, with the back-off sleeps in between. *)
Lemma retry_loop_effects get url retry_count b remaining attempt last_error :
  in_budget retry_count remaining attempt ->
  exists n, (n <= remaining)%nat /\ (remaining <> O -> n <> O) /\
    (retry_loop get url retry_count b remaining attempt last_error).1
    = attempts_from url b n attempt.
Proof.
  unfold in_budget. revert attempt last_error.
  induction remaining as [|remaining IH]; intros attempt last_error Hinv.
  - exists O. repeat split; [lia | congruence].
  - cbn [retry_loop].
    destruct (attempt_result url (get attempt)) as [r|m|e];
      [exists 1%nat; repeat split; lia ..|].
    case_bool_decide as Hlast; [exists 1%nat; repeat split; lia|].
    destruct (IH (attempt + 1) (Some e)) as (n & Hn & Hpos & Heq); [lia|].
    destruct (retry_loop get url retry_count b remaining (attempt + 1) (Some e))
      as [effects r].
    cbn [fst] in *. subst effects.
    destruct n as [|n]; [exfalso; apply Hpos; [lia | reflexivity]|].
    exists (S (S n)). split; [lia|]. split; [lia | reflexivity].
Qed.

(** When every attempt of the budget fails with a caught error, the budget
    is used up and the error of the last attempt decides the failure. *)
Lemma retry_loop_exhausted get url retry_count b (e : Z -> LastError)
    remaining attempt last_error :
  in_budget retry_count remaining attempt ->
  remaining <> O ->
  (forall a, attempt <= a <= retry_count ->
             attempt_result url (get a) = Caught (e a)) ->
  retry_loop get url retry_count b remaining attempt last_error
  = (attempts_from url b remaining attempt,
     Raise (raise_last_error url (Some (e retry_count)))).
Proof.
  unfold in_budget. revert attempt last_error.
  induction remaining as [|remaining IH]; intros attempt last_error Hinv Hpos Hall;
    [congruence|].
  cbn [retry_loop]. rewrite Hall by lia.
  case_bool_decide as Hlast.
  - subst attempt. assert (remaining = O) as -> by lia. reflexivity.
  - destruct remaining as [|remaining]; [lia|].
    rewrite (IH (attempt + 1) (Some (e attempt))); [| lia | congruence |].
    + reflexivity.
    + intros a Ha. apply Hall. lia.
Qed.

(** C7. Every fetch with retry budget [max_retries] issues at most
    [max_retries] requests, numbered from 1, the first one included; the
    sleep after failed attempt [k] is [backoff_base * 2^(k-1)] seconds; and
    when every attempt of the budget fails, a timeout on the last one gives
    a [TimeoutAppError], a [NetworkAppError] on the last one is raised again
    as it is, and a transport error on the last one is raised as a
    [NetworkAppError] carrying its text. *)
Theorem fetch_retry_budget (settings : Settings) (net : Network) url params
    (max_retries : option Z) (retry_backoff_base_seconds : option Q) :
  let retry_count := default (config.max_retries settings) max_retries in
  let backoff_base :=
    default (config.retry_backoff_base_seconds settings)
            retry_backoff_base_seconds in
  let run :=
    _fetch_with_retries settings net url params max_retries
      retry_backoff_base_seconds in
  (exists n, (n <= Z.to_nat retry_count)%nat /\
             run.1 = attempts_from url backoff_base n 1 /\
             requests run.1 = seqZ 1 (Z.of_nat n)) /\
  (1 <= retry_count ->
   (forall a, 1 <= a <= retry_count ->
      exists e, attempt_result url (net url params a) = Caught e) ->
   run.1 = attempts_from url backoff_base (Z.to_nat retry_count) 1 /\
   (forall t, net url params retry_count = TimeoutException t ->
      run.2 = Raise (AppErr TimeoutAppError
                       ("Request timeout while fetching " +:+ url))) /\
   (forall message,
      attempt_result url (net url params retry_count)
      = Caught (LastNetworkAppError message) ->
      run.2 = Raise (AppErr NetworkAppError message)) /\
   (forall t, net url params retry_count = RequestError t ->
      run.2 = Raise (AppErr NetworkAppError
                       ("Network error while fetching " +:+ url
                        +:+ ": " +:+ t)))).
Proof.
  intros retry_count backoff_base run. subst run.
  unfold _fetch_with_retries. fold retry_count. fold backoff_base.
  assert (Hinv : 1 <= retry_count ->
                 in_budget retry_count (Z.to_nat retry_count) 1)
    by (unfold in_budget; lia).
  split.
  - destruct (Z_le_gt_dec 1 retry_count) as [Hge|Hlt].
    + destruct (retry_loop_effects (net url params) url retry_count backoff_base
                  (Z.to_nat retry_count) 1 None (Hinv Hge))
        as (n & Hn & _ & Heq).
      exists n. rewrite Heq. repeat split; [assumption|].
      apply requests_attempts_from.
    + exists O. replace (Z.to_nat retry_count) with O by lia.
      repeat split; lia.
  - intros Hge Hall.
    set (e := fun a =>
           match attempt_result url (net url params a) with
           | Caught e => e
           | _ => LastTimeout ""
           end).
    rewrite (retry_loop_exhausted (net url params) url retry_count backoff_base e);
      [| auto | lia |].
    + cbn [fst snd]. split; [reflexivity|]. subst e. cbn beta.
      repeat split.
      * intros t Ht. rewrite Ht. reflexivity.
      * intros message Hm. rewrite Hm. reflexivity.
      * intros t Ht. rewrite Ht. reflexivity.
    + intros a Ha. destruct (Hall a Ha) as [e' He']. subst e. cbn beta.
      rewrite He'. reflexivity.
Qed.

(** A run of the theorem: a budget of three attempts, every one timing out. *)
Lemma fetch_retry_budget_witness :
  _fetch_with_retries default_settings
    (fun _ _ _ => TimeoutException "read timeout")
    "https://samplehack.devpost.com" [] None None
  = ([Get "https://samplehack.devpost.com" 1; Sleep (backoff_delay (6 # 10) 1);
      Get "https://samplehack.devpost.com" 2; Sleep (backoff_delay (6 # 10) 2);
      Get "https://samplehack.devpost.com" 3],
     Raise (AppErr TimeoutAppError
              "Request timeout while fetching https://samplehack.devpost.com")).
Proof.
  pose proof (fetch_retry_budget default_settings
                (fun _ _ _ => TimeoutException "read timeout")
                "https://samplehack.devpost.com" [] None None) as [_ H].
  destruct H as (Heff & Htimeout & _ & _).
  - cbn. lia.
  - intros a _. eexists. reflexivity.
  - apply injective_projections.
    + rewrite Heff. reflexivity.
    + rewrite (Htimeout "read timeout" eq_refl). reflexivity.
Defined.

(** C1, as the specification states it, fails: a 404 on every attempt is
    requested three times under the default budget, not once. *)
Lemma client_error_retried_counterexample :
  let net : Network := fun _ _ _ =>
    Responded {| status_code := 404; text := "not found"; json_payload := None |} in
  let run :=
    _fetch_with_retries default_settings net "https://devpost.com/software/x"
      [] None None in
  other_client_error 404 /\
  requests run.1 = [1; 2; 3] /\
  length (requests run.1) <> 1%nat.
Proof.
  cbv zeta. split; [unfold other_client_error; lia|].
  split; [reflexivity | vm_compute; discriminate].
Qed.

(** C1, amended. A response status that is at least 400 and neither 403, 429
    nor 5xx is a [NetworkAppError] that is retried like a 5xx: when every
    attempt of the budget gets such a status, exactly [max_retries] requests
    are issued (one only when [max_retries] is 1), with the back-off sleeps
    in between, and the fetch fails with the network error of the last
    response. *)
Theorem client_error_retried (settings : Settings) (net : Network) url params
    (max_retries : option Z) (retry_backoff_base_seconds : option Q)
    (response : Z -> Response) :
  let retry_count := default (config.max_retries settings) max_retries in
  let backoff_base :=
    default (config.retry_backoff_base_seconds settings)
            retry_backoff_base_seconds in
  1 <= retry_count ->
  (forall a, 1 <= a <= retry_count ->
     net url params a = Responded (response a) /\
     other_client_error (status_code (response a))) ->
  _fetch_with_retries settings net url params max_retries
    retry_backoff_base_seconds
  = (attempts_from url backoff_base (Z.to_nat retry_count) 1,
     Raise (AppErr NetworkAppError
              ("Unable to fetch " +:+ url +:+ "; received "
               +:+ str_of_int (status_code (response retry_count))))) /\
  requests (attempts_from url backoff_base (Z.to_nat retry_count) 1)
  = seqZ 1 retry_count.
Proof.
  intros retry_count backoff_base Hge Hall.
  split.
  - unfold _fetch_with_retries. fold retry_count. fold backoff_base.
    rewrite (retry_loop_exhausted (net url params) url retry_count backoff_base
               (fun a => LastNetworkAppError
                           ("Unable to fetch " +:+ url +:+ "; received "
                            +:+ str_of_int (status_code (response a)))));
      [reflexivity | unfold in_budget; lia | lia |].
    intros a Ha. destruct (Hall a Ha) as [-> Hst].
    apply attempt_result_other_client_error, Hst.
  - rewrite requests_attempts_from. f_equal. lia.
Qed.

(** A run of the amended C1: a budget of two attempts, both answered 404. *)
Lemma client_error_retried_witness :
  _fetch_with_retries default_settings
    (fun _ _ _ => Responded {| status_code := 404; text := ""; json_payload := None |})
    "https://devpost.com/software/x" [] (Some 2) None
  = ([Get "https://devpost.com/software/x" 1; Sleep (backoff_delay (6 # 10) 1);
      Get "https://devpost.com/software/x" 2],
     Raise (AppErr NetworkAppError
              "Unable to fetch https://devpost.com/software/x; received 404")).
Proof.
  refine (proj1 (client_error_retried default_settings _ _ [] (Some 2) None
                   (fun _ => {| status_code := 404; text := "";
                                json_payload := None |}) _ _)).
  - cbn. lia.
  - intros a _. split; [reflexivity | unfold other_client_error; cbn; lia].
Defined.

(** C2, as the specification states it, fails: a body that is not JSON makes
    [fetch_json] raise a [NetworkAppError], whose code is not the parse
    code. *)
Lemma fetch_json_parse_code_counterexample :
  let net : Network := fun _ _ _ =>
    Responded {| status_code := 200; text := "<html>"; json_payload := None |} in
  (fetch_json default_settings net "https://devpost.com/api/hackathons" []).2
  = Raise (AppErr NetworkAppError
             "Invalid JSON response while fetching https://devpost.com/api/hackathons")
  /\ code NetworkAppError = "network_error"
  /\ code NetworkAppError <> code ParseAppError.
Proof. cbv zeta. repeat split. cbn. discriminate. Qed.

(** C2, amended. When the response of [fetch_json] does not decode as JSON,
    or decodes to a value that is not an object, the call fails with a
    [NetworkAppError], whose code is [network_error]. *)
Theorem fetch_json_not_object (settings : Settings) (net : Network) url params
    (response : Response) effects :
  _fetch_with_retries settings net url params None None = (effects, Ok response) ->
  (forall members, json_payload response <> Some (JObject members)) ->
  exists message,
    fetch_json settings net url params
    = (effects, Raise (AppErr NetworkAppError message)) /\
    code NetworkAppError = "network_error" /\
    message =
      match json_payload response with
      | None => "Invalid JSON response while fetching " +:+ url
      | Some _ => "Unexpected JSON payload while fetching " +:+ url
      end.
Proof.
  intros Hfetch Hnot. unfold fetch_json. rewrite Hfetch. cbn.
  destruct (json_payload response) as [[| | | | |members]|] eqn:E;
    try (eexists; repeat split; reflexivity).
  exfalso. exact (Hnot members eq_refl).
Qed.

(** A run of the amended C2: the body decodes to a JSON array. *)
Lemma fetch_json_not_object_witness :
  exists message,
    fetch_json default_settings
      (fun _ _ _ => Responded {| status_code := 200; text := "[]";
                                 json_payload := Some (JArray []) |})
      "https://devpost.com/api/hackathons" [("search", "x")]
    = ([Get "https://devpost.com/api/hackathons" 1],
       Raise (AppErr NetworkAppError message)) /\
    code NetworkAppError = "network_error" /\
    message = "Unexpected JSON payload while fetching https://devpost.com/api/hackathons".
Proof.
  apply (fetch_json_not_object default_settings _ _ _
           {| status_code := 200; text := "[]"; json_payload := Some (JArray []) |}).
  - reflexivity.
  - intros members. discriminate.
Defined.

End fetch_client.

(* ===================================================================== *)
(** * Properties of the URL normaliser *)
(* ===================================================================== *)

Section url_normalisation.
Import pystr urllib_parse url_utils url_properties.

Implicit Types (s h p u rest : string) (c : ascii).

#[local] Arguments String.append : simpl nomatch.

Lemma all_chars_app q a b :
  all_chars q (a +:+ b) = all_chars q a && all_chars q b.
Proof. induction a as [|c a IH]; simpl; [reflexivity|]. rewrite IH. apply andb_assoc. Qed.

Lemma all_chars_impl (q q' : ascii -> bool) a :
  (forall c, q c = true -> q' c = true) ->
  all_chars q a = true -> all_chars q' a = true.
Proof.
  intros Himp. induction a as [|c a IH]; simpl; [reflexivity|].
  intros [Hc Ha]%andb_true_iff. rewrite (Himp c Hc). simpl. auto.
Qed.

Lemma app_assoc_s a b z : (a +:+ b) +:+ z = a +:+ (b +:+ z).
Proof. induction a as [|x a IH]; simpl; [reflexivity|]. now rewrite IH. Qed.

Lemma app_empty_r a : a +:+ "" = a.
Proof. induction a as [|x a IH]; simpl; [reflexivity|]. now rewrite IH. Qed.

Lemma rstrip_by_app q a b :
  all_chars (fun c => negb (q c)) a = true ->
  rstrip_by q (a +:+ b) = a +:+ rstrip_by q b.
Proof.
  induction a as [|c a IH]; simpl; [reflexivity|].
  intros [Hc Ha]%andb_true_iff. rewrite (IH Ha).
  apply negb_true_iff in Hc. rewrite Hc.
  destruct (a +:+ rstrip_by q b); reflexivity.
Qed.

Lemma rstrip_by_cons_keep q c s :
  q c = false -> rstrip_by q (String c s) = String c (rstrip_by q s).
Proof. intros Hc. simpl. rewrite Hc. destruct (rstrip_by q s); reflexivity. Qed.

Lemma remove_chars_app q a b :
  all_chars (fun c => negb (q c)) a = true ->
  remove_chars q (a +:+ b) = a +:+ remove_chars q b.
Proof.
  induction a as [|c a IH]; simpl; [reflexivity|].
  intros [Hc Ha]%andb_true_iff. apply negb_true_iff in Hc. rewrite Hc.
  now rewrite (IH Ha).
Qed.

Lemma span_until_app q a b :
  all_chars (fun c => negb (q c)) a = true ->
  span_until q (a +:+ b) = ((a +:+ (span_until q b).1), (span_until q b).2).
Proof.
  induction a as [|c a IH]; simpl.
  - intros _. now destruct (span_until q b).
  - intros [Hc Ha]%andb_true_iff. apply negb_true_iff in Hc. rewrite Hc.
    rewrite (IH Ha). reflexivity.
Qed.

Lemma span_until_none q a :
  all_chars (fun c => negb (q c)) a = true -> span_until q a = (a, "").
Proof.
  intros Ha. rewrite <- (app_empty_r a) at 1.
  rewrite (span_until_app q a "" Ha). simpl. now rewrite app_empty_r.
Qed.

Lemma span_until_hit q a c b :
  all_chars (fun c => negb (q c)) a = true -> q c = true ->
  span_until q (a +:+ String c b) = (a, String c b).
Proof.
  intros Ha Hc. rewrite (span_until_app q a _ Ha). simpl. rewrite Hc. simpl.
  now rewrite app_empty_r.
Qed.

Lemma contains_all_chars q a :
  all_chars (fun c => negb (q c)) a = true -> contains q a = false.
Proof.
  induction a as [|c a IH]; simpl; [reflexivity|].
  intros [Hc Ha]%andb_true_iff. apply negb_true_iff in Hc.
  now rewrite Hc, (IH Ha).
Qed.

Lemma length_lower a : String.length (lower a) = String.length a.
Proof. induction a as [|c a IH]; simpl; congruence. Qed.

Lemma endswith_cons c a suf :
  endswith (String c a) suf
  = if String.eqb (String c a) suf then true else endswith a suf.
Proof. reflexivity. Qed.

Lemma endswith_length a suf :
  endswith a suf = true -> (String.length suf <= String.length a)%nat.
Proof.
  induction a as [|c a IH].
  - destruct suf; simpl; [lia | discriminate].
  - rewrite endswith_cons.
    destruct (String.eqb_spec (String c a) suf) as [<-|_]; [simpl; lia|].
    intros H. specialize (IH H). simpl. lia.
Qed.

(** A prefix that fits inside [a] consists of characters of [a]. *)
Lemma startswith_app_all_chars q pre a b :
  startswith (a +:+ b) pre = true ->
  (String.length pre <= String.length a)%nat ->
  all_chars q a = true -> all_chars q pre = true.
Proof.
  revert a. induction pre as [|x pre IH]; intros a; [reflexivity|].
  destruct a as [|y a]; simpl; [lia|].
  destruct (Ascii.eqb_spec x y) as [->|]; [|discriminate].
  intros Hpre Hlen [Hy Ha]%andb_true_iff. rewrite Hy. simpl.
  apply (IH a); [assumption | lia | assumption].
Qed.

(** Facts about single characters, by running through the 256 of them. *)
Ltac by_char_cases c :=
  destruct c as [[] [] [] [] [] [] [] []]; vm_compute; congruence.

Lemma plain_not_space c : plain_char c = true -> negb (isspace c) = true.
Proof. by_char_cases c. Qed.
Lemma plain_not_c0 c : plain_char c = true -> negb (is_c0_control_or_space c) = true.
Proof. by_char_cases c. Qed.
Lemma plain_not_unsafe c : plain_char c = true -> negb (is_unsafe_url_byte c) = true.
Proof. by_char_cases c. Qed.
Lemma plain_not_hash c : plain_char c = true -> negb (is_char "#" c) = true.
Proof. by_char_cases c. Qed.
Lemma plain_not_question c : plain_char c = true -> negb (is_char "?" c) = true.
Proof. by_char_cases c. Qed.
Lemma plain_not_semicolon c : plain_char c = true -> negb (is_char ";" c) = true.
Proof. by_char_cases c. Qed.
Lemma plain_not_lbracket c : plain_char c = true -> negb (is_char "[" c) = true.
Proof. by_char_cases c. Qed.
Lemma plain_not_rbracket c : plain_char c = true -> negb (is_char "]" c) = true.
Proof. by_char_cases c. Qed.
Lemma host_char_plain c :
  plain_char c && negb (is_char "/" c) = true -> plain_char c = true.
Proof. by_char_cases c. Qed.
Lemma host_char_not_slash c :
  plain_char c && negb (is_char "/" c) = true -> negb (is_char "/" c) = true.
Proof. by_char_cases c. Qed.
Lemma host_char_not_delim c :
  plain_char c && negb (is_char "/" c) = true -> negb (is_netloc_delim c) = true.
Proof. by_char_cases c. Qed.
Lemma suffix_char_not_space c :
  is_char "?" c || is_char "#" c = true -> isspace c = false.
Proof. by_char_cases c. Qed.
Lemma suffix_char_not_unsafe c :
  is_char "?" c || is_char "#" c = true -> is_unsafe_url_byte c = false.
Proof. by_char_cases c. Qed.
Lemma suffix_char_delim c :
  is_char "?" c || is_char "#" c = true -> is_netloc_delim c = true.
Proof. by_char_cases c. Qed.
Lemma slash_delim c : is_char "/" c = true -> is_netloc_delim c = true.
Proof. by_char_cases c. Qed.

Lemma suffix_ok_rstrip rest :
  suffix_ok rest = true -> suffix_ok (rstrip_by isspace rest) = true.
Proof.
  destruct rest as [|c rest]; [reflexivity|]. simpl. intros Hc.
  rewrite (suffix_char_not_space c Hc).
  destruct (rstrip_by isspace rest); exact Hc.
Qed.

Lemma suffix_ok_remove rest :
  suffix_ok rest = true -> suffix_ok (remove_chars is_unsafe_url_byte rest) = true.
Proof.
  destruct rest as [|c rest]; [reflexivity|]. simpl. intros Hc.
  rewrite (suffix_char_not_unsafe c Hc). exact Hc.
Qed.

(** The fragment step of [urlsplit] on a path followed by nothing, by a
    query or by a fragment. *)
Lemma split_fragment u rest :
  all_chars plain_char u = true -> suffix_ok rest = true ->
  exists q f,
    query_mark q = true /\
    match split_once "#" (u +:+ rest) with
    | Some (x, f) => (x, f)
    | None => (u +:+ rest, "")
    end = (u +:+ q, f).
Proof.
  intros Hu Hrest.
  pose proof (all_chars_impl _ _ u plain_not_hash Hu) as Hhash.
  unfold split_once. rewrite (span_until_app _ u _ Hhash).
  destruct rest as [|c rest].
  - exists "", "". split; [reflexivity|]. simpl. now rewrite !app_empty_r.
  - simpl in Hrest. apply orb_true_iff in Hrest as [Hc|Hc];
      apply Ascii.eqb_eq in Hc; subst c.
    + simpl. destruct (span_until (is_char "#") rest) as [x [|y r]]; simpl.
      * exists (String "?" rest), "". now split.
      * exists (String "?" x), r. now split.
    + simpl. exists "", rest. now split.
Qed.

(** The query step of [urlsplit] on a path followed by nothing or by a
    query. *)
Lemma split_query u q :
  all_chars plain_char u = true -> query_mark q = true ->
  exists q',
    match split_once "?" (u +:+ q) with
    | Some (x, y) => (x, y)
    | None => (u +:+ q, "")
    end = (u, q').
Proof.
  intros Hu Hq.
  pose proof (all_chars_impl _ _ u plain_not_question Hu) as Hquestion.
  unfold split_once. destruct q as [|c q].
  - rewrite app_empty_r, (span_until_none _ u Hquestion). now exists "".
  - simpl in Hq. rewrite (span_until_hit _ u c q Hquestion Hq). now exists q.
Qed.

(** [span_until] stops at the end of a text without the characters looked
    for when what follows is empty or starts with one of them. *)
Lemma span_until_stop q a b :
  all_chars (fun c => negb (q c)) a = true ->
  match b with "" => true | String c _ => q c end = true ->
  span_until q (a +:+ b) = (a, b).
Proof.
  intros Ha Hb. destruct b as [|c b].
  - rewrite app_empty_r. now apply span_until_none.
  - now apply span_until_hit.
Qed.

Lemma urlsplit_target s h u rest :
  web_scheme s -> host_ok h = true -> all_chars plain_char u = true ->
  (u = "" \/ startswith u "/" = true) -> suffix_ok rest = true ->
  exists q f,
    urlsplit (s +:+ "://" +:+ h +:+ u +:+ rest) = Ok (s, h, u, q, f).
Proof.
  intros Hs [Hh Hdom]%andb_true_iff Hu Hu0 Hrest.
  pose proof (all_chars_impl _ _ h host_char_not_delim Hh) as Hdelim.
  pose proof (all_chars_impl _ _ h host_char_plain Hh) as Hplain.
  pose proof (all_chars_impl _ _ h plain_not_unsafe Hplain) as Hunsafe.
  pose proof (all_chars_impl _ _ u plain_not_unsafe Hu) as Huunsafe.
  pose proof (contains_all_chars _ h (all_chars_impl _ _ h plain_not_lbracket Hplain)) as Hlb.
  pose proof (contains_all_chars _ h (all_chars_impl _ _ h plain_not_rbracket Hplain)) as Hrb.
  unfold urlsplit.
  assert (Hpre : lstrip_by is_c0_control_or_space (s +:+ "://" +:+ h +:+ u +:+ rest)
                 = s +:+ "://" +:+ h +:+ u +:+ rest)
    by (destruct Hs as [-> | ->]; reflexivity).
  rewrite Hpre.
  assert (Hrem : remove_chars is_unsafe_url_byte (s +:+ "://" +:+ h +:+ u +:+ rest)
                 = s +:+ "://" +:+ h +:+ u +:+ remove_chars is_unsafe_url_byte rest).
  { transitivity (s +:+ "://" +:+ remove_chars is_unsafe_url_byte (h +:+ u +:+ rest)).
    - destruct Hs as [-> | ->]; reflexivity.
    - now rewrite (remove_chars_app _ h _ Hunsafe), (remove_chars_app _ u _ Huunsafe). }
  rewrite Hrem.
  set (rest' := remove_chars is_unsafe_url_byte rest).
  assert (Hrest' : suffix_ok rest' = true) by (apply suffix_ok_remove, Hrest).
  assert (Hsch : split_scheme (s +:+ "://" +:+ h +:+ u +:+ rest')
                 = (s, "//" +:+ h +:+ u +:+ rest'))
    by (destruct Hs as [-> | ->]; reflexivity).
  rewrite Hsch.
  change (startswith ("//" +:+ h +:+ u +:+ rest') "//") with true.
  change (drop2 ("//" +:+ h +:+ u +:+ rest')) with (h +:+ u +:+ rest').
  rewrite (span_until_stop _ h (u +:+ rest') Hdelim).
  2:{ destruct Hu0 as [-> | Hslash].
      - simpl. destruct rest' as [|c r]; [reflexivity|].
        apply suffix_char_delim, Hrest'.
      - destruct u as [|c u]; [discriminate|]. simpl.
        apply slash_delim. simpl in Hslash. unfold is_char.
        rewrite Ascii.eqb_sym. now rewrite andb_true_r in Hslash. }
  rewrite Hlb, Hrb. simpl.
  destruct (split_fragment u rest' Hu Hrest') as (q & f & Hq & ->).
  destruct (split_query u q Hu Hq) as (q' & ->).
  now exists q', f.
Qed.


Lemma urlparse_target s h u rest :
  web_scheme s -> host_ok h = true -> all_chars plain_char u = true ->
  (u = "" \/ startswith u "/" = true) -> suffix_ok rest = true ->
  exists q f,
    urlparse (s +:+ "://" +:+ h +:+ u +:+ rest)
    = Ok {| scheme := s; netloc := h; path := u; params := "";
            query := q; fragment := f |}.
Proof.
  intros Hs Hh Hu Hu0 Hrest.
  destruct (urlsplit_target s h u rest Hs Hh Hu Hu0 Hrest) as (q & f & Hsplit).
  exists q, f. unfold urlparse. rewrite Hsplit. simpl.
  rewrite (contains_all_chars _ u (all_chars_impl _ _ u plain_not_semicolon Hu)).
  now rewrite andb_false_r.
Qed.

Lemma host_ok_length h : host_ok h = true -> (11 <= String.length h)%nat.
Proof.
  intros [_ Hdom]%andb_true_iff. apply endswith_length in Hdom.
  rewrite length_lower in Hdom. exact Hdom.
Qed.

Lemma startswith_cons_slash c u :
  startswith (String c u) "/" = true -> c = "/"%char.
Proof.
  cbn [startswith]. rewrite andb_true_r. intros H.
  symmetry. now apply Ascii.eqb_eq.
Qed.

Lemma rstrip_slash_start u :
  (u = "" \/ startswith u "/" = true) ->
  nonempty (rstrip_by (is_char "/") u)
  && negb (startswith (rstrip_by (is_char "/") u) "/") = false.
Proof.
  intros [-> | Hslash]; [reflexivity|].
  destruct u as [|c u]; [discriminate|].
  apply startswith_cons_slash in Hslash. subst c.
  simpl. destruct (rstrip_by (is_char "/") u); reflexivity.
Qed.

Lemma cleaned_path_rstrip u :
  (if String.eqb u "" || String.eqb u "/" then "" else rstrip_by (is_char "/") u)
  = rstrip_by (is_char "/") u.
Proof.
  destruct (String.eqb_spec u "") as [-> | _]; [reflexivity|].
  destruct (String.eqb_spec u "/") as [-> | _]; reflexivity.
Qed.

(** The tail of [normalize_hackathon_url], from [urlparse] on, for a
    candidate with one of the two schemes. *)
Lemma normalize_candidate s h u rest :
  web_scheme s -> host_ok h = true -> all_chars plain_char u = true ->
  (u = "" \/ startswith u "/" = true) -> suffix_ok rest = true ->
  normalize_hackathon_url (s +:+ "://" +:+ h +:+ u +:+ rest)
  = Ok (s +:+ "://" +:+ h +:+ rstrip_by (is_char "/") u).
Proof.
  intros Hs Hh Hu Hu0 Hrest.
  pose proof (host_ok_length h Hh) as Hlen.
  pose proof Hh as [Hhc Hdom]%andb_true_iff.
  pose proof (all_chars_impl _ _ h host_char_plain Hhc) as Hplain.
  pose proof (all_chars_impl _ _ h plain_not_space Hplain) as Hhspace.
  pose proof (all_chars_impl _ _ u plain_not_space Hu) as Huspace.
  unfold normalize_hackathon_url.
  assert (Hstrip : strip (s +:+ "://" +:+ h +:+ u +:+ rest)
                   = s +:+ "://" +:+ h +:+ u +:+ rstrip_by isspace rest).
  { unfold strip.
    assert (rstrip_by isspace (s +:+ "://" +:+ h +:+ u +:+ rest)
            = s +:+ "://" +:+ h +:+ u +:+ rstrip_by isspace rest) as ->.
    { rewrite (rstrip_by_app isspace s) by (destruct Hs as [-> | ->]; reflexivity).
      rewrite (rstrip_by_app isspace "://") by reflexivity.
      now rewrite (rstrip_by_app _ h _ Hhspace), (rstrip_by_app _ u _ Huspace). }
    destruct Hs as [-> | ->]; reflexivity. }
  rewrite Hstrip.
  set (rest' := rstrip_by isspace rest).
  assert (Hrest' : suffix_ok rest' = true) by (apply suffix_ok_rstrip, Hrest).
  assert (nonempty (s +:+ "://" +:+ h +:+ u +:+ rest') = true) as ->
    by (destruct Hs as [-> | ->]; reflexivity).
  assert (startswith (s +:+ "://" +:+ h +:+ u +:+ rest') "http://"
          || startswith (s +:+ "://" +:+ h +:+ u +:+ rest') "https://" = true) as ->
    by (destruct Hs as [-> | ->]; reflexivity).
  cbn [negb].
  destruct (urlparse_target s h u rest' Hs Hh Hu Hu0 Hrest') as (q & f & ->).
  cbn [mbind result_bind netloc path scheme].
  assert (nonempty h = true) as -> by (destruct h; [simpl in Hlen; lia | reflexivity]).
  rewrite Hdom. cbn [negb]. rewrite cleaned_path_rstrip.
  unfold urlunparse, urlunsplit.
  cbn [params path scheme netloc query fragment].
  assert (nonempty h = true) as -> by (destruct h; [simpl in Hlen; lia | reflexivity]).
  change (nonempty "") with false. cbn [orb].
  rewrite (rstrip_slash_start u Hu0).
  assert (nonempty s = true) as -> by (destruct Hs as [-> | ->]; reflexivity).
  destruct Hs as [-> | ->]; reflexivity.
Qed.

Lemma rstrip_by_app_empty q a b :
  rstrip_by q b = "" -> rstrip_by q (a +:+ b) = rstrip_by q a.
Proof.
  intros Hb. induction a as [|c a IH]; simpl; [exact Hb|]. now rewrite IH.
Qed.

(** A raw spelling without a scheme is normalised like the same spelling
    with [https://] in front. *)
Lemma normalize_bare h u rest :
  host_ok h = true -> all_chars plain_char u = true ->
  normalize_hackathon_url (h +:+ u +:+ rest)
  = normalize_hackathon_url ("https://" +:+ h +:+ u +:+ rest).
Proof.
  intros Hh Hu.
  pose proof (host_ok_length h Hh) as Hlen.
  pose proof Hh as [Hhc Hdom]%andb_true_iff.
  pose proof (all_chars_impl _ _ h host_char_plain Hhc) as Hplain.
  pose proof (all_chars_impl _ _ h plain_not_space Hplain) as Hhspace.
  pose proof (all_chars_impl _ _ u plain_not_space Hu) as Huspace.
  pose proof (all_chars_impl _ _ h host_char_not_slash Hhc) as Hslash.
  unfold normalize_hackathon_url.
  assert (strip ("https://" +:+ h +:+ u +:+ rest)
          = "https://" +:+ h +:+ u +:+ rstrip_by isspace rest) as ->.
  { unfold strip. rewrite (rstrip_by_app isspace "https://") by reflexivity.
    now rewrite (rstrip_by_app _ h _ Hhspace), (rstrip_by_app _ u _ Huspace). }
  assert (strip (h +:+ u +:+ rest) = h +:+ u +:+ rstrip_by isspace rest) as ->.
  { unfold strip.
    rewrite (rstrip_by_app _ h _ Hhspace), (rstrip_by_app _ u _ Huspace).
    destruct h as [|c h]; [simpl in Hlen; lia|].
    simpl in Hhspace. apply andb_true_iff in Hhspace as [Hc _].
    apply negb_true_iff in Hc. simpl. now rewrite Hc. }
  set (x := u +:+ rstrip_by isspace rest).
  assert (nonempty (h +:+ x) = true) as ->
    by (destruct h; [simpl in Hlen; lia | reflexivity]).
  change (nonempty ("https://" +:+ h +:+ x)) with true.
  change (startswith ("https://" +:+ h +:+ x) "http://"
          || startswith ("https://" +:+ h +:+ x) "https://") with true.
  assert (Hno : forall pre, (String.length pre <= 11)%nat ->
            all_chars (fun c => negb (is_char "/" c)) pre = false ->
            startswith (h +:+ x) pre = false).
  { intros pre Hpre Hnot. destruct (startswith (h +:+ x) pre) eqn:E; [|reflexivity].
    rewrite (startswith_app_all_chars _ pre h x E) in Hnot;
      [discriminate | lia | exact Hslash]. }
  rewrite (Hno "http://") by (simpl; lia || reflexivity).
  rewrite (Hno "https://") by (simpl; lia || reflexivity).
  reflexivity.
Qed.

(** C3, as the specification states it, fails: the scheme is not fixed, as
    an [http://] spelling keeps its scheme, so it and the spelling without
    a scheme, which gets [https://], normalise differently; and a path with
    an inner blank before its trailing slash is normalised to a string that
    normalises to yet another one. *)
Lemma normalize_scheme_counterexample :
  normalize_hackathon_url "http://samplehack.devpost.com"
  = Ok "http://samplehack.devpost.com" /\
  normalize_hackathon_url "samplehack.devpost.com"
  = Ok "https://samplehack.devpost.com" /\
  normalize_hackathon_url "https://samplehack.devpost.com/a /"
  = Ok "https://samplehack.devpost.com/a " /\
  normalize_hackathon_url "https://samplehack.devpost.com/a "
  = Ok "https://samplehack.devpost.com/a".
Proof. repeat split; vm_compute; reflexivity. Qed.

(** C3, amended. For a host of the source site and a canonical path, the raw
    spellings without a scheme or with [https://], with or without a
    trailing slash, and with or without a query string or fragment, all
    normalise to the one canonical string [https://host/path]; the same
    spellings with [http://] all normalise to [http://host/path], the
    scheme being the given one when there is one and [https] otherwise; and
    normalising either canonical string returns it unchanged. *)
Theorem normalize_spellings h p sl rest :
  host_ok h = true -> path_ok p = true ->
  (sl = "" \/ sl = "/") -> suffix_ok rest = true ->
  normalize_hackathon_url (h +:+ p +:+ sl +:+ rest)
  = Ok ("https://" +:+ h +:+ p) /\
  normalize_hackathon_url ("https://" +:+ h +:+ p +:+ sl +:+ rest)
  = Ok ("https://" +:+ h +:+ p) /\
  normalize_hackathon_url ("http://" +:+ h +:+ p +:+ sl +:+ rest)
  = Ok ("http://" +:+ h +:+ p) /\
  normalize_hackathon_url ("https://" +:+ h +:+ p) = Ok ("https://" +:+ h +:+ p) /\
  normalize_hackathon_url ("http://" +:+ h +:+ p) = Ok ("http://" +:+ h +:+ p).
Proof.
  intros Hh Hp Hsl Hrest.
  apply andb_true_iff in Hp as [[Hstart Hplain]%andb_true_iff Hcanon].
  apply String.eqb_eq in Hcanon.
  assert (Hp0 : p = "" \/ startswith p "/" = true).
  { apply orb_true_iff in Hstart as [Hp0 | Hp0]; [left | right; exact Hp0].
    now apply String.eqb_eq. }
  assert (Hu : all_chars plain_char (p +:+ sl) = true).
  { rewrite all_chars_app, Hplain. destruct Hsl as [-> | ->]; reflexivity. }
  assert (Hu0 : p +:+ sl = "" \/ startswith (p +:+ sl) "/" = true).
  { destruct Hp0 as [-> | Hslash].
    - destruct Hsl as [-> | ->]; [left | right]; reflexivity.
    - right. destruct p as [|c p]; [discriminate|].
      apply startswith_cons_slash in Hslash. now subst c. }
  assert (Hstrip : rstrip_by (is_char "/") (p +:+ sl) = p).
  { destruct Hsl as [-> | ->].
    - now rewrite app_empty_r.
    - now rewrite rstrip_by_app_empty. }
  assert (Hwith : forall s, web_scheme s ->
            normalize_hackathon_url (s +:+ "://" +:+ h +:+ p +:+ sl +:+ rest)
            = Ok (s +:+ "://" +:+ h +:+ p)).
  { intros s Hs. rewrite <- Hstrip at 2. rewrite <- (app_assoc_s p sl rest).
    now apply normalize_candidate. }
  assert (Hcanonical : forall s, web_scheme s ->
            normalize_hackathon_url (s +:+ "://" +:+ h +:+ p)
            = Ok (s +:+ "://" +:+ h +:+ p)).
  { intros s Hs. rewrite <- Hcanon at 2. rewrite <- (app_empty_r p) at 1.
    apply normalize_candidate; auto. }
  repeat split.
  - rewrite <- (app_assoc_s p sl rest), (normalize_bare h (p +:+ sl) rest Hh Hu).
    rewrite (app_assoc_s p sl rest). apply (Hwith "https"). now right.
  - apply (Hwith "https"). now right.
  - apply (Hwith "http"). now left.
  - apply (Hcanonical "https"). now right.
  - apply (Hcanonical "http"). now left.
Qed.

(** A run of the amended C3: the spelling of the repository's own test. *)
Lemma normalize_spellings_witness :
  normalize_hackathon_url "samplehack.devpost.com/?x=1"
  = Ok "https://samplehack.devpost.com".
Proof.
  refine (proj1 (normalize_spellings "samplehack.devpost.com" "" "/" "?x=1"
                   _ _ _ _)).
  - reflexivity.
  - reflexivity.
  - now right.
  - reflexivity.
Defined.

End url_normalisation.

(* ===================================================================== *)
(** * Properties of the crawl engine *)
(* ===================================================================== *)

Section crawl_logic.
Import config http_client parser url_utils service observations crawl_properties.

Lemma hoare_bind {A B} (P : CrawlState -> Prop) (m : Crawl A) (k : A -> Crawl B)
    (Q : CrawlState -> Ending A -> Prop) (R : CrawlState -> Ending B -> Prop) :
  hoare P m Q ->
  (forall a, hoare (fun st => Q st (Returned a)) (k a) R) ->
  (forall st e, Q st (Raised e) -> R st (Raised e)) ->
  (forall st, Q st Unfinished -> R st Unfinished) ->
  hoare P (m ≫= k) R.
Proof.
  intros Hm Hk Hraise Hcut st HP. specialize (Hm st HP).
  unfold mbind, crawl_bind. destruct (m st) as [st' [a|e|]]; cbn [fst snd] in *.
  - apply Hk, Hm.
  - apply Hraise, Hm.
  - apply Hcut, Hm.
Qed.

Lemma hoare_at {A} (P : CrawlState -> Prop) (m : Crawl A)
    (Q : CrawlState -> Ending A -> Prop) st st' ending :
  hoare P m Q -> P st -> m st = (st', ending) -> Q st' ending.
Proof. intros Hm HP E. specialize (Hm st HP). now rewrite E in Hm. Qed.

Lemma bind_read {A B} (f : CrawlState -> A) (k : A -> Crawl B) st :
  (read f ≫= k) st = k (f st) st.
Proof. reflexivity. Qed.

Lemma bind_update {B} (f : CrawlState -> CrawlState) (k : unit -> Crawl B) st :
  (update f ≫= k) st = k tt (f st).
Proof. reflexivity. Qed.

Lemma bind_returned {A B} (m : Crawl A) (k : A -> Crawl B) st st' a :
  m st = (st', Returned a) -> (m ≫= k) st = k a st'.
Proof. intros H. unfold mbind, crawl_bind. now rewrite H. Qed.

Lemma bind_raised {A B} (m : Crawl A) (k : A -> Crawl B) st st' e :
  m st = (st', Raised e) -> (m ≫= k) st = (st', Raised e).
Proof. intros H. unfold mbind, crawl_bind. now rewrite H. Qed.

Lemma bind_unfinished {A B} (m : Crawl A) (k : A -> Crawl B) st st' :
  m st = (st', Unfinished) -> (m ≫= k) st = (st', Unfinished).
Proof. intros H. unfold mbind, crawl_bind. now rewrite H. Qed.

Lemma invariant_bind {A B} (I : CrawlState -> Prop) (m : Crawl A) (k : A -> Crawl B) :
  invariant I m -> (forall a, invariant I (k a)) -> invariant I (m ≫= k).
Proof. intros Hm Hk. apply (hoare_bind I m k (fun st _ => I st)); auto. Qed.

Lemma invariant_ret {A} (I : CrawlState -> Prop) (a : A) : invariant I (mret a).
Proof. intros st HI. exact HI. Qed.

Lemma invariant_read {A} (I : CrawlState -> Prop) (f : CrawlState -> A) :
  invariant I (read f).
Proof. intros st HI. exact HI. Qed.

Lemma invariant_lift {A} (I : CrawlState -> Prop) (r : result A) :
  invariant I (lift r).
Proof. intros st HI. exact HI. Qed.

Lemma invariant_unfinished {A} (I : CrawlState -> Prop) :
  invariant I (@unfinished A).
Proof. intros st HI. exact HI. Qed.

Lemma invariant_update (I : CrawlState -> Prop) (f : CrawlState -> CrawlState) :
  (forall st, I st -> I (f st)) -> invariant I (update f).
Proof. intros Hf st HI. apply Hf, HI. Qed.

Lemma invariant_fetched (I : CrawlState -> Prop) r :
  (forall st, I st -> I (log (Fetch r.1) st)) -> invariant I (fetched r).
Proof. intros Hf st HI. apply Hf, HI. Qed.

Context (env : CrawlEnv) (normalized_hackathon_url hackathon_name : string).

Abbreviation scrape_candidate := (scrape_candidate env normalized_hackathon_url hackathon_name).
Abbreviation collect_task := (collect_task env normalized_hackathon_url hackathon_name).
Abbreviation collect_done := (collect_done env normalized_hackathon_url hackathon_name).
Abbreviation collect_pending := (collect_pending env normalized_hackathon_url hackathon_name).
Abbreviation drain_completed_scrapes :=
  (drain_completed_scrapes env normalized_hackathon_url hackathon_name).
Abbreviation walk_gallery := (walk_gallery env normalized_hackathon_url hackathon_name).
Abbreviation crawl_body := (crawl_body env normalized_hackathon_url hackathon_name).

Ltac invariant_steps :=
  repeat first
    [ apply invariant_ret | apply invariant_read | apply invariant_lift
    | apply invariant_unfinished
    | apply invariant_bind; [|intros ?] ].

Lemma invariant_scrape_candidate I c requires :
  steady I -> invariant I (scrape_candidate c requires).
Proof.
  intros HI. unfold service.scrape_candidate.
  apply invariant_bind; [apply invariant_fetched; intros; now apply steady_fetch|].
  intros html. apply invariant_bind; [apply invariant_lift|]. intros project.
  destruct (requires && no_prizes project); [apply invariant_ret|].
  apply invariant_bind; [|intros; apply invariant_ret].
  destruct requires; [|apply invariant_ret].
  apply invariant_update. intros. now apply steady_confirmed.
Qed.

Lemma invariant_collect_task I position t :
  steady I -> invariant I (collect_task position t).
Proof.
  intros HI. unfold service.collect_task.
  apply invariant_bind; [apply invariant_update; intros; now apply steady_pending|].
  intros _. apply invariant_bind; [now apply invariant_scrape_candidate|].
  intros [[sid project]|]; [|apply invariant_ret].
  apply invariant_bind; [apply invariant_update; intros; now apply steady_winners|].
  intros _. invariant_steps.
  apply invariant_update. intros. now apply steady_scraped.
Qed.

Lemma invariant_collect_done I done :
  steady I -> invariant I (collect_done done).
Proof.
  intros HI. induction done as [|position done IH]; [apply invariant_ret|].
  cbn [service.collect_done]. apply invariant_bind; [apply invariant_read|].
  intros pending. destruct (pending !! position) as [t|]; [|exact IH].
  apply invariant_bind; [now apply invariant_collect_task | intros _; exact IH].
Qed.

Lemma invariant_collect_pending I n :
  steady I -> invariant I (collect_pending n).
Proof.
  intros HI. induction n as [|n IH]; [apply invariant_ret|].
  cbn [service.collect_pending]. apply invariant_bind; [apply invariant_read|].
  intros [|t pending]; [apply invariant_ret|].
  apply invariant_bind; [now apply invariant_collect_task | intros _; exact IH].
Qed.

Lemma invariant_drain I done wait_for_all :
  steady I -> invariant I (drain_completed_scrapes done wait_for_all).
Proof.
  intros HI. unfold service.drain_completed_scrapes.
  apply invariant_bind; [now apply invariant_collect_done|]. intros _.
  destruct wait_for_all; [|apply invariant_ret].
  apply invariant_bind; [apply invariant_read|]. intros n.
  now apply invariant_collect_pending.
Qed.

(** A steady property that the scheduling of a badge-tagged entry keeps is
    kept by the visit of a gallery page and by the walk over the gallery. *)
Lemma invariant_visit_gallery_page I page_url :
  steady I ->
  (forall entry,
     invariant I
       (update (set_found_gallery_winners true);;
        progress_callback
          (winner_project_found (project_title entry) (project_url entry)
             (software_id entry) None (preview_image_url entry));;
        schedule_candidate entry false)) ->
  invariant I
    (visit_gallery_page env normalized_hackathon_url hackathon_name page_url).
Proof.
  intros HI Hbadge. unfold visit_gallery_page.
  apply invariant_bind;
    [apply invariant_update; intros; now apply steady_visited|]. intros _.
  apply invariant_bind;
    [apply invariant_fetched; intros; now apply steady_fetch|]. intros html.
  apply invariant_bind;
    [apply invariant_update; intros; now apply steady_count|]. intros _.
  apply invariant_bind.
  { induction (winner_entries _) as [|entry entries IHe]; [apply invariant_ret|].
    cbn [schedule_winner_entries].
    intros st Hst. pose proof (Hbadge entry st Hst) as Hstep.
    change ((update (set_found_gallery_winners true);; _) st)
      with ((((update (set_found_gallery_winners true);;
              progress_callback
                (winner_project_found (project_title entry) (project_url entry)
                   (software_id entry) None (preview_image_url entry));;
              schedule_candidate entry false)
             ≫= fun _ => schedule_winner_entries entries) st)).
    destruct ((update (set_found_gallery_winners true);;
               progress_callback
                 (winner_project_found (project_title entry) (project_url entry)
                    (software_id entry) None (preview_image_url entry));;
               schedule_candidate entry false) st) as [st' [[]|e|]] eqn:E;
      cbn [fst snd] in Hstep.
    - rewrite (bind_returned _ _ _ _ _ E). now apply IHe.
    - now rewrite (bind_raised _ _ _ _ _ E).
    - now rewrite (bind_unfinished _ _ _ _ E). }
  intros _. apply invariant_bind; [apply invariant_read|]. intros page_number.
  apply invariant_bind;
    [apply invariant_update; intros; now apply steady_page|]. intros _.
  apply invariant_bind; [now apply invariant_drain|]. intros _.
  apply invariant_ret.
Qed.

Lemma invariant_walk_gallery I pages page_url :
  steady I ->
  (forall entry,
     invariant I
       (update (set_found_gallery_winners true);;
        progress_callback
          (winner_project_found (project_title entry) (project_url entry)
             (software_id entry) None (preview_image_url entry));;
        schedule_candidate entry false)) ->
  invariant I (walk_gallery pages page_url).
Proof.
  intros HI Hbadge. revert page_url.
  induction pages as [|pages IH]; intros page_url; cbn [service.walk_gallery];
    (destruct (truthy page_url) as [url|]; [|apply invariant_ret]);
    (apply invariant_bind; [apply invariant_read|]; intros visited;
     case_bool_decide; [apply invariant_ret|]).
  - apply invariant_unfinished.
  - apply invariant_bind; [now apply invariant_visit_gallery_page|].
    intros next. apply IH.
Qed.

Lemma invariant_progress (I : CrawlState -> Prop) e :
  (forall st, I st -> I (log (Progress e) st)) -> invariant I (progress_callback e).
Proof. intros H. now apply invariant_update. Qed.

Lemma invariant_schedule_fallback I candidates :
  (forall c, invariant I (schedule_candidate c true)) ->
  invariant I (schedule_fallback candidates).
Proof.
  intros Hc. induction candidates as [|c candidates IH]; [apply invariant_ret|].
  cbn [schedule_fallback]. apply invariant_bind; [apply Hc | intros _; exact IH].
Qed.

(** A steady property kept by the scheduling of badge-tagged entries and by
    the fallback decision is kept by the whole [try]/[finally] statement. *)
Lemma invariant_crawl_body I pages gallery should_run :
  steady I ->
  (forall entry,
     invariant I
       (update (set_found_gallery_winners true);;
        progress_callback
          (winner_project_found (project_title entry) (project_url entry)
             (software_id entry) None (preview_image_url entry));;
        schedule_candidate entry false)) ->
  invariant I (detect_by_fallback should_run) ->
  invariant I (crawl_body pages gallery should_run).
Proof.
  intros HI Hbadge Hdetect st Hst. unfold service.crawl_body.
  pose proof (invariant_bind I (walk_gallery pages (Some gallery))
                (fun _ => detect_by_fallback should_run;;
                          drain_completed_scrapes (done_at_end (schedule env)) true)
                (invariant_walk_gallery I pages (Some gallery) HI Hbadge)) as Hall.
  specialize (Hall (fun _ => invariant_bind I _ _ Hdetect
                               (fun _ => invariant_drain I _ true HI)) st Hst).
  cbn beta in Hall.
  destruct ((walk_gallery pages (Some gallery) ≫= _) st) as [st' ending].
  cbn [fst snd] in *. unfold cancel_pending. now apply steady_pending.
Qed.

(** What is kept by the collection of every task is kept by a drain. *)
Lemma drain_keeps I done wait_for_all :
  (forall position t, invariant I (collect_task position t)) ->
  invariant I (drain_completed_scrapes done wait_for_all).
Proof.
  intros Hcollect. unfold service.drain_completed_scrapes.
  apply invariant_bind.
  { induction done as [|position done IH]; [apply invariant_ret|].
    cbn [service.collect_done]. apply invariant_bind; [apply invariant_read|].
    intros pending. destruct (pending !! position) as [t|]; [|exact IH].
    apply invariant_bind; [apply Hcollect | intros _; exact IH]. }
  intros _. destruct wait_for_all; [|apply invariant_ret].
  apply invariant_bind; [apply invariant_read|]. intros n.
  induction n as [|n IH]; [apply invariant_ret|].
  cbn [service.collect_pending]. apply invariant_bind; [apply invariant_read|].
  intros [|t pending]; [apply invariant_ret|].
  apply invariant_bind; [apply Hcollect | intros _; exact IH].
Qed.

(** What is kept by the visit of every page not yet visited is kept by
    the walk over the gallery. *)
Lemma walk_keeps I pages page_url :
  (forall url,
     hoare (fun st => I st /\ url ∉ visited_pages st)
       (visit_gallery_page env normalized_hackathon_url hackathon_name url)
       (fun st _ => I st)) ->
  invariant I (walk_gallery pages page_url).
Proof.
  intros Hvisit. revert page_url.
  induction pages as [|pages IH]; intros page_url st Hst;
    cbn [service.walk_gallery];
    (destruct (truthy page_url) as [url|]; [|exact Hst]);
    rewrite bind_read; case_bool_decide as Hseen; try exact Hst.
  specialize (Hvisit url st (conj Hst Hseen)).
  unfold mbind, crawl_bind.
  destruct (service.visit_gallery_page env normalized_hackathon_url hackathon_name
              url st) as [st' [next|e|]]; cbn [fst snd] in *; try exact Hvisit.
  now apply IH.
Qed.

(** What the visit of every page, the decision after the walk and the
    collection of every task keep is kept by the whole [try]/[finally]
    statement. *)
Lemma crawl_body_keeps_with I pages gallery should_run :
  (forall url,
     hoare (fun st => I st /\ url ∉ visited_pages st)
       (visit_gallery_page env normalized_hackathon_url hackathon_name url)
       (fun st _ => I st)) ->
  invariant I (detect_by_fallback should_run) ->
  (forall position t, invariant I (collect_task position t)) ->
  (forall st tasks, I st -> I (set_pending_scrape_tasks tasks st)) ->
  invariant I (crawl_body pages gallery should_run).
Proof.
  intros Hvisit Hdetect Hcollect Hpending st Hst. unfold service.crawl_body.
  pose proof (invariant_bind I (walk_gallery pages (Some gallery))
                (fun _ => detect_by_fallback should_run;;
                          drain_completed_scrapes (done_at_end (schedule env)) true)
                (walk_keeps I pages (Some gallery) Hvisit)) as Hall.
  specialize (Hall (fun _ => invariant_bind I _ _ Hdetect
                               (fun _ => drain_keeps I _ true Hcollect)) st Hst).
  cbn beta in Hall.
  destruct ((walk_gallery pages (Some gallery) ≫= _) st) as [st' ending].
  cbn [fst snd] in *. unfold cancel_pending. now apply Hpending.
Qed.

End crawl_logic.

Section crawl_whole.
Import config http_client parser url_utils service observations crawl_properties.

(** What holds of a state reached by [scrape_hackathon] holds of its trace:
    a property of states that is steady, holds at the start, and is kept
    by the scheduling steps holds of the state the crawl ends in. *)
Lemma scrape_hackathon_invariant (I : CrawlState -> Prop) env pages hackathon_url :
  steady I ->
  I initial_state ->
  (forall entry,
     invariant I
       (update (set_found_gallery_winners true);;
        progress_callback
          (winner_project_found (project_title entry) (project_url entry)
             (software_id entry) None (preview_image_url entry));;
        schedule_candidate entry false)) ->
  (forall should_run, invariant I (detect_by_fallback should_run)) ->
  exists st, I st /\ (scrape_hackathon env pages hackathon_url).1 = trace st.
Proof.
  intros HI H0 Hbadge Hdetect. unfold scrape_hackathon.
  match goal with |- context [let '(_, _) := ?run initial_state in _] =>
    assert (Hrun : invariant I run); [|specialize (Hrun initial_state H0);
      destruct (run initial_state) as [st ending]; exists st; split;
      [exact Hrun | reflexivity]] end.
  apply invariant_bind; [apply invariant_lift|]. intros n.
  apply invariant_bind; [apply invariant_fetched; intros; now apply steady_fetch|].
  intros html.
  apply invariant_bind;
    [apply invariant_crawl_body; [exact HI | apply Hbadge | apply Hdetect]|].
  intros _. apply invariant_bind; [apply invariant_read|]. intros st.
  case_bool_decide; [apply invariant_lift | apply invariant_ret].
Qed.

(** ** No project URL is scheduled twice *)

Lemma scheduled_urls_log e st :
  (forall t, e <> CreateTask t) ->
  scheduled_urls (trace (log e st)) = scheduled_urls (trace st).
Proof.
  intros He. unfold scheduled_urls, created_tasks, log. cbn [trace].
  rewrite omap_app. cbn. destruct e; try (now rewrite app_nil_r).
  now destruct (He t).
Qed.

Lemma scheduled_once_log e st :
  (forall t, e <> CreateTask t) -> scheduled_once st -> scheduled_once (log e st).
Proof.
  intros He [Hnd Hin]. unfold scheduled_once.
  rewrite (scheduled_urls_log e st He). split; [exact Hnd | exact Hin].
Qed.

Lemma scheduled_once_steady : steady scheduled_once.
Proof.
  split; intros; try (apply scheduled_once_log; [discriminate | assumption]);
    assumption.
Qed.

Lemma scheduled_once_schedule c requires :
  invariant scheduled_once (schedule_candidate c requires).
Proof.
  intros st [Hnd Hin]. unfold schedule_candidate.
  case_bool_decide as Hseen; cbn [fst snd]; [now split|].
  unfold scheduled_once, scheduled_urls, created_tasks. cbn [trace scheduled_project_urls].
  rewrite omap_app, fmap_app. cbn.
  split.
  - apply NoDup_app. split; [exact Hnd|]. split; [|apply NoDup_singleton].
    intros u Hu ->%list_elem_of_singleton. apply Hseen, Hin, Hu.
  - intros u [Hu | ->%list_elem_of_singleton]%elem_of_app.
    + apply elem_of_union_r, Hin, Hu.
    + apply elem_of_union_l, elem_of_singleton. reflexivity.
Qed.

(** C4. Within one crawl, whatever the gallery pages list, however far the
    crawl gets and however it ends, the project URLs of the deep fetches it
    schedules, in the badge pass and in the fallback pass together, are
    pairwise distinct. *)
Theorem no_project_url_scheduled_twice env pages hackathon_url :
  NoDup (scheduled_urls (scrape_hackathon env pages hackathon_url).1).
Proof.
  destruct (scrape_hackathon_invariant scheduled_once env pages hackathon_url)
    as (st & [Hnd _] & ->); [apply scheduled_once_steady | | | | exact Hnd].
  - split; [apply NoDup_nil_2 | intros u Hu; inversion Hu].
  - intros entry. apply invariant_bind;
      [apply invariant_update; intros st H; exact H|]. intros _.
    apply invariant_bind;
      [apply invariant_progress; intros; now apply scheduled_once_log|].
    intros _. apply scheduled_once_schedule.
  - intros should_run. unfold detect_by_fallback.
    apply invariant_bind; [apply invariant_read|]. intros found.
    destruct (negb found && should_run).
    + apply invariant_bind; [apply invariant_read|]. intros candidates.
      apply invariant_bind;
        [apply invariant_progress; intros; now apply scheduled_once_log|].
      intros _. apply invariant_schedule_fallback. intros c.
      apply scheduled_once_schedule.
    + destruct (negb found); [|apply invariant_ret].
      apply invariant_progress; intros; now apply scheduled_once_log.
Qed.

(** ** The fallback pass and the badges exclude each other *)

Lemma flags_log e st :
  badge_reported (trace (log e st)) = badge_reported (trace st) || is_badge_report e /\
  fallback_ran (trace (log e st)) = fallback_ran (trace st) || is_fallback_step e /\
  not_announced_reported (trace (log e st))
  = not_announced_reported (trace st) || is_not_announced_report e.
Proof.
  unfold badge_reported, fallback_ran, not_announced_reported, log. cbn [trace].
  rewrite !existsb_app. cbn. now rewrite !orb_false_r.
Qed.

(** An effect that is none of the three reports leaves the three
    observations as they are. *)
Lemma flags_log_neutral e st :
  is_badge_report e = false -> is_fallback_step e = false ->
  is_not_announced_report e = false ->
  badge_reported (trace (log e st)) = badge_reported (trace st) /\
  fallback_ran (trace (log e st)) = fallback_ran (trace st) /\
  not_announced_reported (trace (log e st)) = not_announced_reported (trace st).
Proof.
  intros H1 H2 H3. destruct (flags_log e st) as (-> & -> & ->).
  now rewrite H1, H2, H3, !orb_false_r.
Qed.

Lemma walking_log_neutral e st :
  is_badge_report e = false -> is_fallback_step e = false ->
  is_not_announced_report e = false -> walking st -> walking (log e st).
Proof.
  intros H1 H2 H3 Hw. unfold walking.
  destruct (flags_log_neutral e st H1 H2 H3) as (-> & -> & ->). exact Hw.
Qed.

Lemma decided_log_neutral b e st :
  is_badge_report e = false -> is_fallback_step e = false ->
  is_not_announced_report e = false -> decided b st -> decided b (log e st).
Proof.
  intros H1 H2 H3 Hd. unfold decided.
  destruct (flags_log_neutral e st H1 H2 H3) as (-> & -> & ->). exact Hd.
Qed.

Lemma walking_steady : steady walking.
Proof.
  split; intros; try (apply walking_log_neutral; [reflexivity .. | assumption]);
    assumption.
Qed.

Lemma decided_steady b : steady (decided b).
Proof.
  split; intros; try (apply decided_log_neutral; [reflexivity .. | assumption]);
    assumption.
Qed.

(** The scheduling of a task leaves the observations of the badge and of
    the missing announcement, and adds the fallback only when the task
    requires the confirmation. *)
Lemma schedule_candidate_flags c requires st :
  let st' := (schedule_candidate c requires st).1 in
  found_gallery_winners st' = found_gallery_winners st /\
  badge_reported (trace st') = badge_reported (trace st) /\
  not_announced_reported (trace st') = not_announced_reported (trace st) /\
  (fallback_ran (trace st') = fallback_ran (trace st) \/
   requires = true /\ fallback_ran (trace st') = true).
Proof.
  unfold schedule_candidate. case_bool_decide; cbn [fst]; [auto|].
  cbn [found_gallery_winners trace].
  unfold badge_reported, fallback_ran, not_announced_reported.
  rewrite !existsb_app. cbn. rewrite !orb_false_r.
  repeat split. destruct requires; [right | left]; [split|];
    [reflexivity | apply orb_true_r | apply orb_false_r].
Qed.

Lemma walking_badge_step entry :
  invariant walking
    (update (set_found_gallery_winners true);;
     progress_callback
       (winner_project_found (project_title entry) (project_url entry)
          (software_id entry) None (preview_image_url entry));;
     schedule_candidate entry false).
Proof.
  intros st (Hfound & Hfb & Hna).
  set (report := Progress (winner_project_found (project_title entry)
                   (project_url entry) (software_id entry) None
                   (preview_image_url entry))).
  set (st0 := set_found_gallery_winners true st).
  change ((update (set_found_gallery_winners true);; _) st)
    with (schedule_candidate entry false (log report st0)).
  destruct (schedule_candidate_flags entry false (log report st0))
    as (Hf & Hb & Hn & Hr).
  destruct Hr as [Hr | [? _]]; [|discriminate].
  destruct (flags_log report st0) as (Hb1 & Hr1 & Hn1).
  unfold walking. rewrite Hf, Hb, Hn, Hr, Hb1, Hr1, Hn1.
  change (trace st0) with (trace st). rewrite Hfb, Hna.
  split; [|split; reflexivity].
  change (true = badge_reported (trace st) || true). now rewrite orb_true_r.
Qed.

Lemma schedule_fallback_flags candidates st :
  let st' := (schedule_fallback candidates st).1 in
  (schedule_fallback candidates st).2 = Returned tt /\
  badge_reported (trace st') = badge_reported (trace st) /\
  not_announced_reported (trace st') = not_announced_reported (trace st) /\
  (fallback_ran (trace st) = true -> fallback_ran (trace st') = true).
Proof.
  revert st. induction candidates as [|c candidates IH]; intros st; [cbn; auto|].
  cbn [schedule_fallback]. unfold mbind, crawl_bind.
  pose proof (schedule_candidate_flags c true st) as (_ & Hb & Hn & Hr).
  assert (Hret : (schedule_candidate c true st).2 = Returned tt)
    by (unfold schedule_candidate; case_bool_decide; reflexivity).
  destruct (schedule_candidate c true st) as [st1 e1]. cbn [fst snd] in *. subst e1.
  destruct (IH st1) as (Hret' & Hb' & Hn' & Hr'). cbn zeta in *.
  rewrite Hb', Hn', Hb, Hn. repeat split; [exact Hret'|].
  intros Hran. apply Hr'. destruct Hr as [-> | [_ ->]]; [exact Hran | reflexivity].
Qed.

(** The decision after the walk always returns, and takes the state from
    [walking] to [decided]. *)
Lemma detect_by_fallback_decides should_run :
  hoare walking (detect_by_fallback should_run)
    (fun st ending => ending = Returned tt /\ decided should_run st).
Proof.
  intros st (Hfound & Hfb & Hna). unfold detect_by_fallback, mbind, crawl_bind, read.
  cbn [fst snd]. destruct (found_gallery_winners st) eqn:Ef; cbn [negb andb].
  - cbn. split; [reflexivity|]. left. now rewrite <- Hfound.
  - destruct should_run; cbn [andb].
    + set (report := Progress (winner_detection_fallback "gallery_badges_missing"
                  (Z.of_nat (length (unique_candidates ∅ (all_candidates st)))))).
      change (progress_callback _ st) with (log report st, Returned tt).
      cbn iota beta.
      destruct (flags_log report st) as (Hb1 & Hr1 & Hn1).
      destruct (schedule_fallback_flags (unique_candidates ∅ (all_candidates st))
                  (log report st)) as (Hret & Hb & Hn & Hr).
      destruct (schedule_fallback _ (log report st)) as [st2 e2].
      cbn [fst snd] in *.
      split; [exact Hret|]. right. left.
      rewrite Hb, Hn, Hb1, Hn1, <- Hfound, Hna, Hr;
        [auto | rewrite Hr1; apply orb_true_r].
    + set (report := Progress (winners_not_announced
                  "Hackathon page indicates winners are not announced yet.")).
      change (progress_callback _ st) with (log report st, Returned tt).
      cbn [fst snd].
      destruct (flags_log report st) as (Hb1 & Hr1 & Hn1).
      split; [reflexivity|]. right. right.
      rewrite Hb1, Hr1, Hn1, <- Hfound, Hfb. auto using orb_true_r.
Qed.

Lemma hoare_weaken {A} (P P' : CrawlState -> Prop) (m : Crawl A)
    (Q Q' : CrawlState -> Ending A -> Prop) :
  hoare P m Q -> (forall st, P' st -> P st) ->
  (forall st e, Q st e -> Q' st e) -> hoare P' m Q'.
Proof. intros Hm HP HQ st Hst. apply HQ, Hm, HP, Hst. Qed.

(** The [try]/[finally] statement leaves the state walking or decided, and
    decided when it returns. *)
Lemma crawl_body_decides env n name pages gallery should_run :
  hoare walking (crawl_body env n name pages gallery should_run)
    (fun st ending =>
       (walking st \/ decided should_run st) /\
       (ending = Returned tt -> decided should_run st)).
Proof.
  intros st Hst. unfold crawl_body.
  set (Q := fun (st : CrawlState) (ending : Ending ()) =>
              (walking st \/ decided should_run st) /\
              (ending = Returned tt -> decided should_run st)).
  assert (Hall : hoare walking
            (walk_gallery env n name pages (Some gallery);;
             detect_by_fallback should_run;;
             drain_completed_scrapes env n name (done_at_end (schedule env)) true) Q).
  { apply (hoare_bind walking _ _ (fun st _ => walking st)).
    - apply invariant_walk_gallery; [apply walking_steady | apply walking_badge_step].
    - intros _.
      apply (hoare_bind walking _ _
               (fun st ending => ending = Returned tt /\ decided should_run st)).
      + apply detect_by_fallback_decides.
      + intros [].
        apply (hoare_weaken (decided should_run) _ _ (fun st _ => decided should_run st)).
        * apply invariant_drain, decided_steady.
        * now intros ? [_ ?].
        * intros ? ? ?. split; auto.
      + intros ? ? [? _]. discriminate.
      + intros ? [? _]. discriminate.
    - intros ? ? ?. split; [now left | discriminate].
    - intros ? ?. split; [now left | discriminate]. }
  specialize (Hall st Hst).
  destruct ((walk_gallery env n name pages (Some gallery);; _) st) as [st' ending].
  cbn [fst snd] in *. unfold Q in *. unfold cancel_pending.
  destruct Hall as [[Hw | Hd] Hret]; (split; [|intros Hr; specialize (Hret Hr)]).
  - left. now apply walking_steady.
  - now apply decided_steady.
  - right. now apply decided_steady.
  - now apply decided_steady.
Qed.

(** How [scrape_hackathon] ends, by the step it gets to: the
    normalisation fails, the landing page cannot be fetched, or the
    [try]/[finally] statement runs from the state left by that fetch. *)
Lemma scrape_hackathon_cases env pages hackathon_url :
  (exists e, normalize_hackathon_url hackathon_url = Raise e /\
     scrape_hackathon env pages hackathon_url = ([], Raised e)) \/
  (exists n effects e,
     normalize_hackathon_url hackathon_url = Ok n /\
     fetch_text (settings env) (network env) n = (effects, Raise e) /\
     scrape_hackathon env pages hackathon_url = ([Fetch effects], Raised e)) \/
  (exists n effects html st ending,
     normalize_hackathon_url hackathon_url = Ok n /\
     fetch_text (settings env) (network env) n = (effects, Ok html) /\
     crawl_body env n (@parse_hackathon_name (page_parser env) html) pages
       (@resolve_gallery_url (page_parser env) n html)
       (@winners_are_announced (page_parser env) html)
       (log (Fetch effects) initial_state) = (st, ending) /\
     (scrape_hackathon env pages hackathon_url).1 = trace st /\
     (forall r, (scrape_hackathon env pages hackathon_url).2 = Returned r ->
        ending = Returned tt /\ scanned_pages st <> 0 /\
        result_winners r = winners st) /\
     (forall e, ending = Raised e ->
        (scrape_hackathon env pages hackathon_url).2 = Raised e) /\
     (ending = Unfinished ->
        (scrape_hackathon env pages hackathon_url).2 = Unfinished) /\
     (ending = Returned tt ->
        (exists r, (scrape_hackathon env pages hackathon_url).2 = Returned r) \/
        (scanned_pages st = 0 /\
         (scrape_hackathon env pages hackathon_url).2
         = Raised (AppErr ParseAppError
                     "Unable to locate or parse the project gallery page")))).
Proof.
  unfold scrape_hackathon, mbind, crawl_bind, lift, fetched, read.
  destruct (normalize_hackathon_url hackathon_url) as [n|e]; cbn [fst snd];
    [|left; now exists e].
  right.
  destruct (fetch_text (settings env) (network env) n) as [effects [html|e]] eqn:Ef;
    cbn [fst snd]; [|left; exists n, effects, e; auto].
  right.
  destruct (crawl_body env n _ pages _ _ (log (Fetch effects) initial_state))
    as [st ending] eqn:Eb.
  exists n, effects, html, st, ending.
  split; [reflexivity|]. split; [exact Ef|]. split; [exact Eb|].
  destruct ending as [[]|e|]; cbn [fst snd].
  - case_bool_decide as Hz; cbn [fst snd].
    + repeat split; try discriminate. intros _. right. now split.
    + repeat split; try discriminate; try (inversion H; subst; reflexivity || assumption).
      intros _. left. eexists. reflexivity.
  - repeat split; try discriminate. intros e' [= ->]. reflexivity.
  - repeat split; try discriminate.
Qed.

(** *** The reports of badges and the gallery pages read *)

(** The loop over the badge-tagged entries of a page returns. *)
Lemma schedule_winner_entries_returns entries st :
  exists st', schedule_winner_entries entries st = (st', Returned tt).
Proof.
  revert st. induction entries as [|entry entries IH]; intros st;
    [now exists st|].
  cbn [schedule_winner_entries]. unfold progress_callback. rewrite !bind_update.
  unfold mbind, crawl_bind, schedule_candidate.
  case_bool_decide; apply IH.
Qed.

Lemma badge_flags_log env e st :
  badge_reported (trace (log e st)) = badge_reported (trace st) || is_badge_report e /\
  badge_tagged env (trace (log e st))
  = badge_tagged env (trace st) || is_winner_page env e.
Proof.
  unfold badge_reported, badge_tagged, log. cbn [trace].
  rewrite !existsb_app. cbn. now rewrite !orb_false_r.
Qed.

(** An effect that is neither the report of a badge nor the report of a
    gallery page leaves the agreement of the two as it is. *)
Lemma reports_match_log env b e st :
  is_badge_report e = false -> is_winner_page env e = false ->
  reports_match env b st -> reports_match env b (log e st).
Proof.
  intros H1 H2 Hst. unfold reports_match.
  destruct (badge_flags_log env e st) as (-> & ->).
  now rewrite H1, H2, !orb_false_r.
Qed.

Lemma reports_match_schedule env b c requires :
  invariant (reports_match env b) (schedule_candidate c requires).
Proof.
  intros st Hst. unfold schedule_candidate. case_bool_decide; [exact Hst|].
  cbn [fst]. unfold reports_match, badge_reported, badge_tagged in *.
  cbn [trace]. rewrite !existsb_app. cbn. now rewrite !orb_false_r.
Qed.

Lemma reports_match_collect_task env n name b position t :
  invariant (reports_match env b) (collect_task env n name position t).
Proof.
  unfold collect_task.
  apply invariant_bind; [apply invariant_update; intros st Hst; exact Hst|].
  intros _. apply invariant_bind.
  { unfold scrape_candidate.
    apply invariant_bind;
      [apply invariant_fetched; intros; now apply reports_match_log|].
    intros html. apply invariant_bind; [apply invariant_lift|]. intros project.
    destruct (requires_prize_confirmation t && no_prizes project);
      [apply invariant_ret|].
    apply invariant_bind; [|intros; apply invariant_ret].
    destruct (requires_prize_confirmation t); [|apply invariant_ret].
    apply invariant_update. intros. now apply reports_match_log. }
  intros [[sid project]|]; [|apply invariant_ret].
  apply invariant_bind; [apply invariant_update; intros st Hst; exact Hst|].
  intros _. apply invariant_bind; [apply invariant_read|]. intros index.
  apply invariant_bind; [apply invariant_read|]. intros total.
  apply invariant_update. intros. now apply reports_match_log.
Qed.

(** The loop over the badge-tagged entries of a page reports a badge as
    soon as the page has one entry. *)
Lemma reports_match_winner_entries env b entries :
  hoare (reports_match env b) (schedule_winner_entries entries)
    (fun st _ =>
       reports_match env (b || match entries with [] => false | _ => true end) st).
Proof.
  revert b. induction entries as [|entry entries IH]; intros b st Hst.
  - cbn. now rewrite orb_false_r.
  - cbn [schedule_winner_entries]. rewrite bind_update.
    unfold progress_callback. rewrite bind_update.
    set (report := Progress (winner_project_found (project_title entry)
                     (project_url entry) (software_id entry) None
                     (preview_image_url entry))).
    set (st1 := log report (set_found_gallery_winners true st)).
    assert (H1 : reports_match env true st1).
    { unfold reports_match, st1.
      destruct (badge_flags_log env report (set_found_gallery_winners true st))
        as (-> & _).
      cbn. now rewrite !orb_true_r. }
    pose proof (reports_match_schedule env true entry false st1 H1) as H2.
    unfold mbind, crawl_bind.
    destruct (schedule_candidate entry false st1) as [st2 [[]|e|]] eqn:E;
      cbn [fst snd] in *; rewrite orb_true_r; try exact H2.
    specialize (IH true st2 H2). cbn [orb] in IH. exact IH.
Qed.

(** Over the visit of a gallery page the reports of badges and the pages
    read stay in agreement: the entries of the page are reported first,
    the page after them. *)
Lemma reports_match_visit env n name url :
  invariant (reports_match env false) (visit_gallery_page env n name url).
Proof.
  intros st Hst. unfold visit_gallery_page. rewrite bind_update.
  assert (H0 : reports_match env false (add_visited_page url st)) by exact Hst.
  unfold mbind at 1. unfold crawl_bind at 1, fetched.
  apply (reports_match_log env false
           (Fetch (fetch_text (settings env) (network env) url).1)) in H0;
    [|reflexivity ..].
  pose proof (eq_refl : yields_winner env url = yields_winner env url) as Hpage.
  unfold yields_winner at 2 in Hpage.
  destruct (fetch_text (settings env) (network env) url).2 as [html|e];
    cbn [fst snd]; [|exact H0].
  rewrite bind_update.
  set (parsed := parse_gallery_page url html) in *.
  set (st2 := count_page parsed _).
  assert (H2 : reports_match env false st2) by exact H0.
  destruct (schedule_winner_entries_returns (winner_entries parsed) st2)
    as [st3 E3].
  pose proof (reports_match_winner_entries env false (winner_entries parsed)
                st2 H2) as H3.
  rewrite E3 in H3. cbn [fst orb] in H3. rewrite <- Hpage in H3.
  rewrite (bind_returned _ _ _ _ _ E3), bind_read. unfold progress_callback.
  rewrite bind_update.
  set (st4 := log _ st3).
  assert (H4 : reports_match env false st4).
  { unfold reports_match, st4 in *.
    match goal with
    | |- context [log ?e st3] =>
        destruct (badge_flags_log env e st3) as (-> & ->)
    end.
    cbn [is_badge_report is_winner_page]. now rewrite H3, !orb_false_r. }
  exact (invariant_bind (reports_match env false) _
           (fun _ => mret (next_page_url parsed))
           (drain_keeps env n name (reports_match env false) _ false
              (reports_match_collect_task env n name false))
           (fun _ => invariant_ret (reports_match env false) _) st4 H4).
Qed.

Lemma reports_match_detect env should_run :
  invariant (reports_match env false) (detect_by_fallback should_run).
Proof.
  unfold detect_by_fallback.
  apply invariant_bind; [apply invariant_read|]. intros found.
  destruct (negb found && should_run).
  - apply invariant_bind; [apply invariant_read|]. intros candidates.
    apply invariant_bind;
      [apply invariant_progress; intros; now apply reports_match_log|].
    intros _. apply invariant_schedule_fallback. intros c.
    exact (reports_match_schedule env false c true).
  - destruct (negb found); [|apply invariant_ret].
    apply invariant_progress. intros. now apply reports_match_log.
Qed.

(** However the [try]/[finally] statement ends, a badge was reported
    exactly when a gallery page it read yields a winner. *)
Lemma reports_match_crawl_body env n name pages gallery should_run :
  invariant (reports_match env false)
    (crawl_body env n name pages gallery should_run).
Proof.
  apply crawl_body_keeps_with.
  - intros url st [Hst _]. now apply reports_match_visit.
  - exact (reports_match_detect env should_run).
  - intros. apply reports_match_collect_task.
  - intros st tasks Hst. exact Hst.
Qed.

(** C5. In every crawl, with the gallery pages read being those of the
    [gallery_page_scanned] events and a page yielding a badge-tagged
    winner when the parser reads a winner entry off the HTML it serves:
    a badge is reported exactly when a page read yields a winner; when a
    page read yields a winner, the fallback pass does not run, neither its
    announcement nor a task that requires the prize confirmation; when the
    fallback runs, no page read yields a winner and the landing page says
    the winners are announced; and when the crawl returns, no page read
    yields a winner and the landing page says the winners are not
    announced, [winners_not_announced] was reported and the fallback did
    not run. *)
Theorem fallback_exclusive env pages hackathon_url :
  let run := scrape_hackathon env pages hackathon_url in
  badge_reported run.1 = badge_tagged env run.1 /\
  (badge_tagged env run.1 = true -> fallback_ran run.1 = false) /\
  (fallback_ran run.1 = true ->
     badge_tagged env run.1 = false /\
     winners_likely_announced env hackathon_url = Some true) /\
  (forall r, run.2 = Returned r ->
     badge_tagged env run.1 = false ->
     winners_likely_announced env hackathon_url = Some false ->
     not_announced_reported run.1 = true /\ fallback_ran run.1 = false).
Proof.
  cbv zeta. unfold winners_likely_announced.
  destruct (scrape_hackathon_cases env pages hackathon_url)
    as [(e & Hn & ->) | [(n & effects & e & Hn & Hf & ->)
        | (n & effects & html & st & ending & Hn & Hf & Hb & -> & Hret & _)]];
    cbn [fst snd]; try (repeat split; discriminate).
  rewrite Hn, Hf. cbn [snd].
  match type of Hb with
  | crawl_body _ _ ?name _ ?gallery ?should_run _ = _ =>
      pose proof (crawl_body_decides env n name pages gallery should_run
                    (log (Fetch effects) initial_state)) as Hdec;
      pose proof (reports_match_crawl_body env n name pages gallery should_run
                    (log (Fetch effects) initial_state)) as Hmatch
  end.
  rewrite Hb in Hdec, Hmatch. cbn [fst snd] in Hdec, Hmatch.
  destruct Hdec as [Hsafe Hdone].
  { apply walking_steady. repeat split. }
  assert (Hlink : badge_reported (trace st) = badge_tagged env (trace st)).
  { unfold reports_match in Hmatch. rewrite <- (orb_false_r (badge_tagged env _)).
    apply Hmatch. reflexivity. }
  rewrite <- Hlink.
  split; [reflexivity|]. split; [|split].
  - intros Hbadge. destruct Hsafe as [(_ & ? & _) | [(_ & ? & _) | [H | H]]];
      [assumption | assumption | |]; destruct H as (? & _); congruence.
  - intros Hran. destruct Hsafe as [(_ & ? & _) | [(_ & ? & _) | [H | H]]];
      [congruence | congruence | |].
    + destruct H as (? & -> & _). now split.
    + destruct H as (_ & _ & ? & _). congruence.
  - intros r Hr Hbadge [= Hann]. destruct (Hret r Hr) as (-> & _).
    destruct (Hdone eq_refl) as [(? & _) | [H | H]]; [congruence | |].
    + destruct H as (_ & ? & _). congruence.
    + destruct H as (_ & _ & ? & ?). now split.
Qed.

(** Two runs of C5 on the sample site.  With a landing page that says
    the winners are announced soon and a gallery without badges, the crawl
    returns, reports [winners_not_announced] and schedules nothing; with a
    gallery page that yields two badge-tagged entries, the fallback does
    not run. *)
Lemma fallback_exclusive_witness :
  (not_announced_reported
     (scrape_hackathon sample_site.not_announced_env 5 sample_site.hackathon_url).1
   = true /\
   fallback_ran
     (scrape_hackathon sample_site.not_announced_env 5 sample_site.hackathon_url).1
   = false) /\
  fallback_ran
    (scrape_hackathon sample_site.badges_env 5 sample_site.hackathon_url).1
  = false.
Proof.
  split.
  - destruct (fallback_exclusive sample_site.not_announced_env 5
                sample_site.hackathon_url) as (_ & _ & _ & H).
    eapply H; vm_compute; reflexivity.
  - destruct (fallback_exclusive sample_site.badges_env 5
                sample_site.hackathon_url) as (_ & H & _).
    apply H. vm_compute. reflexivity.
Defined.

(** ** Deep-fetched candidates without an explicit prize *)

(** C6. A deep-fetched candidate whose project page parses to a project
    without prize records: when the candidate was badge-tagged (no prize
    confirmation required) its project is kept, with exactly one prize, the
    generic ["Winner"] attributed to the name and the URL of the target
    hackathon, it is appended to the winners and reported as scraped; when
    the candidate was scheduled by the fallback pass (prize confirmation
    required) collecting it returns without an error, appends nothing to
    the winners and reports nothing. *)
Theorem candidate_without_prizes env n name position t st effects html project :
  fetch_text_with_options (settings env) (network env) (project_url (candidate t))
    (Some (project_max_retries (settings env)))
    (Some (project_retry_backoff_base_seconds (settings env)))
  = (effects, Ok html) ->
  @parse_project_page (page_parser env) (project_url (candidate t)) html n
  = Ok project ->
  prizes project = [] ->
  let run := collect_task env n name position t st in
  let kept :=
    set_prizes project
      [{| prize_hackathon_name := name; prize_hackathon_url := n;
          prize_name := "Winner" |}] in
  let index := Z.of_nat (length (winners st)) + 1 in
  run.2 = Returned tt /\
  pending_scrape_tasks run.1 = delete position (pending_scrape_tasks st) /\
  (requires_prize_confirmation t = false ->
     winners run.1 = winners st ++ [kept] /\
     trace run.1
     = trace st ++
       [Fetch effects;
        Progress (winner_project_scraped index
                    (Z.max (total_candidates_scheduled st) index)
                    (proj_project_title project) (proj_project_url project) 1
                    kept)]) /\
  (requires_prize_confirmation t = true ->
     winners run.1 = winners st /\
     trace run.1 = trace st ++ [Fetch effects]).
Proof.
  intros Hfetch Hparse Hprizes. cbv zeta.
  unfold collect_task, scrape_candidate, mbind, crawl_bind, update, fetched, lift,
    read, progress_callback, parser_of_env.
  cbn [fst snd]. rewrite Hfetch. cbn [fst snd]. rewrite Hparse.
  unfold no_prizes. rewrite Hprizes.
  destruct (requires_prize_confirmation t); cbn.
  - repeat split; try discriminate; intros _; reflexivity.
  - repeat split; try discriminate.
    + rewrite length_app. cbn.
      replace (Z.of_nat (length (winners st) + 1)) with (Z.of_nat (length (winners st)) + 1)
        by lia.
      rewrite <- app_assoc. reflexivity.
Qed.

(** A run of C6: the second task of the fallback pass on the sample site,
    whose page lists no prize, is discarded without a report. *)
Lemma candidate_without_prizes_witness :
  let t := {| candidate := sample_site.non_winner_entry;
              requires_prize_confirmation := true |} in
  let run :=
    collect_task sample_site.fallback_env sample_site.hackathon_url "SampleHack"
      0 t initial_state in
  winners run.1 = [] /\
  trace run.1 = [Fetch [Get sample_site.non_winner_url 1]].
Proof.
  cbv zeta.
  refine (proj2 (proj2 (proj2
    (candidate_without_prizes sample_site.fallback_env sample_site.hackathon_url
       "SampleHack" 0
       {| candidate := sample_site.non_winner_entry;
          requires_prize_confirmation := true |}
       initial_state [Get sample_site.non_winner_url 1] "project: no prize"
       _ _ _ _))) eq_refl); reflexivity.
Defined.

End crawl_whole.

(* ===================================================================== *)
(** * A denied project page fails the crawl and the job *)
(* ===================================================================== *)

Section denied_fetch.
Import config http_client parser url_utils service observations crawl_properties.

Lemma served_not_denied net url : served net url -> ~ denied net url.
Proof.
  intros (r & Hr & Hlt) (r' & Hr' & Hd). rewrite Hr in Hr'.
  injection Hr' as <-. lia.
Qed.

(** A denied URL fails the fetch on the first attempt, whatever the retry
    budget of at least one attempt: one request, no sleep, a
    [BlockedAppError]. *)
Lemma fetch_denied settings net url max_retries backoff :
  1 <= default (config.max_retries settings) max_retries ->
  denied net url ->
  exists r,
    net url [] 1 = Responded r /\
    (status_code r = 403 \/ status_code r = 429) /\
    _fetch_with_retries settings net url [] max_retries backoff
    = ([Get url 1],
       Raise (AppErr BlockedAppError
                ("Devpost denied access while fetching " +:+ url
                 +:+ " (status " +:+ str_of_int (status_code r) +:+ ")"))).
Proof.
  intros Hge (r & Hr & Hd). exists r. split; [exact Hr|]. split; [exact Hd|].
  unfold _fetch_with_retries.
  destruct (Z.to_nat (default (config.max_retries settings) max_retries))
    as [|remaining] eqn:E; [lia|].
  cbn [retry_loop]. rewrite Hr. unfold attempt_result.
  destruct Hd as [-> | ->]; reflexivity.
Qed.

(** A served URL is fetched with one request. *)
Lemma fetch_served settings net url max_retries backoff :
  1 <= default (config.max_retries settings) max_retries ->
  served net url ->
  exists r,
    _fetch_with_retries settings net url [] max_retries backoff
    = ([Get url 1], Ok r).
Proof.
  intros Hge (r & Hr & Hlt). exists r. unfold _fetch_with_retries.
  destruct (Z.to_nat (default (config.max_retries settings) max_retries))
    as [|remaining] eqn:E; [lia|].
  cbn [retry_loop]. rewrite Hr. unfold attempt_result.
  rewrite !bool_decide_eq_false_2 by lia. cbn [orb].
  replace (status_code r <? 600) with true by lia.
  replace (500 <=? status_code r) with false by lia.
  replace (400 <=? status_code r) with false by lia.
  reflexivity.
Qed.

(** A served URL is fetched with one request, and the fetch returns the
    first answer. *)
Lemma fetch_served_response settings net url max_retries backoff r :
  1 <= default (config.max_retries settings) max_retries ->
  net url [] 1 = Responded r -> status_code r < 400 ->
  _fetch_with_retries settings net url [] max_retries backoff
  = ([Get url 1], Ok r).
Proof.
  intros Hge Hr Hlt. unfold _fetch_with_retries.
  destruct (Z.to_nat (default (config.max_retries settings) max_retries))
    as [|remaining] eqn:E; [lia|].
  cbn [retry_loop]. rewrite Hr. unfold attempt_result.
  rewrite !bool_decide_eq_false_2 by lia. cbn [orb].
  replace (status_code r <? 600) with true by lia.
  replace (500 <=? status_code r) with false by lia.
  replace (400 <=? status_code r) with false by lia.
  reflexivity.
Qed.

End denied_fetch.

Section denied_crawl.
Import config http_client parser url_utils service observations crawl_properties.

Lemma guarded_bind {A B} K1 K2 K3 (m : Crawl A) (k : A -> Crawl B) :
  guarded K1 K2 m -> (forall a, guarded K2 K3 (k a)) -> guarded K1 K3 (m ≫= k).
Proof.
  intros Hm Hk. apply (hoare_bind K1 m k (blocked_or K2)); auto.
Qed.

Lemma guarded_ret {A} K (a : A) : guarded K K (mret a).
Proof. intros st Hst. exact Hst. Qed.

Lemma guarded_read {A} K (f : CrawlState -> A) : guarded K K (read f).
Proof. intros st Hst. exact Hst. Qed.

Lemma guarded_unfinished {A} K : guarded K K (@unfinished A).
Proof. intros st Hst. exact I. Qed.

Lemma guarded_update K K' (f : CrawlState -> CrawlState) :
  (forall st, K st -> K' (f st)) -> guarded K K' (update f).
Proof. intros Hf st Hst. apply Hf, Hst. Qed.

Lemma guarded_weaken {A} (K1 K1' K2 K2' : CrawlState -> Prop) (m : Crawl A) :
  guarded K1 K2 m -> (forall st, K1' st -> K1 st) -> (forall st, K2 st -> K2' st) ->
  guarded K1' K2' m.
Proof.
  intros Hm H1 H2 st Hst. specialize (Hm st (H1 st Hst)).
  unfold blocked_or in *. destruct (m st).2; auto.
Qed.

Context (env : CrawlEnv) (normalized_hackathon_url hackathon_name : string).

(** The settings are valid, every URL of the site is served or denied on
    the first request, and every project page that is served parses. *)
Context (Hretries : 1 <= max_retries (settings env))
        (Hproject_retries : 1 <= project_max_retries (settings env))
        (Hnet : forall url, served (network env) url \/ denied (network env) url)
        (Hparse : served_pages_parse env normalized_hackathon_url).

Abbreviation denied_kept := (denied_kept env).
Abbreviation denied_kept_with := (denied_kept_with env).

Lemma guarded_fetch_text K url :
  calm K -> guarded K K (fetched (fetch_text (settings env) (network env) url)).
Proof.
  intros HK st Hst. unfold fetched, fetch_text.
  destruct (Hnet url) as [Hs | Hd].
  - destruct (fetch_served (settings env) (network env) url None None Hretries Hs)
      as (r & ->). cbn. now apply calm_fetch.
  - destruct (fetch_denied (settings env) (network env) url None None Hretries Hd)
      as (r & _ & _ & ->). cbn. eexists. reflexivity.
Qed.

Lemma guarded_scrape_candidate K c requires :
  calm K ->
  guarded K K (scrape_candidate env normalized_hackathon_url hackathon_name c requires).
Proof.
  intros HK st Hst.
  destruct (scrape_candidate env normalized_hackathon_url hackathon_name c
              requires st) as [st' ending] eqn:E.
  cbn [fst snd]. unfold scrape_candidate in E.
  unfold mbind at 1 in E. unfold crawl_bind at 1, fetched, fetch_text_with_options in E.
  destruct (Hnet (project_url c)) as [(r & Hr & Hlt) | Hd].
  - rewrite (fetch_served_response (settings env) (network env) (project_url c)
               (Some (project_max_retries (settings env)))
               (Some (project_retry_backoff_base_seconds (settings env))) r
               Hproject_retries Hr Hlt) in E.
    cbn [fst snd mbind result_bind] in E.
    destruct (Hparse (project_url c) r Hr Hlt) as (project & Hp).
    unfold crawl_bind at 1, lift, parser_of_env in E. rewrite Hp in E.
    unfold mbind at 1 in E. unfold crawl_bind at 1 in E. cbn beta iota in E.
    refine (hoare_at K _ (blocked_or K) _ _ _ _ (calm_fetch K HK st _ Hst) E).
    destruct (requires && no_prizes project); [apply guarded_ret|].
    apply (guarded_bind K K K); [|intros; apply guarded_ret].
    destruct requires; [|apply guarded_ret].
    apply guarded_update. intros. now apply calm_progress.
  - destruct (fetch_denied (settings env) (network env) (project_url c)
                (Some (project_max_retries (settings env)))
                (Some (project_retry_backoff_base_seconds (settings env)))
                Hproject_retries Hd) as (r & _ & _ & Hf).
    rewrite Hf in E. cbn in E. injection E as <- <-. cbn. eexists. reflexivity.
Qed.

Lemma created_tasks_log e st :
  created_tasks (trace (log e st))
  = created_tasks (trace st) ++ match e with CreateTask t => [t] | _ => [] end.
Proof.
  unfold created_tasks, log. cbn [trace]. rewrite omap_app. now destruct e.
Qed.

Lemma denied_kept_calm : calm denied_kept.
Proof.
  split; intros st; intros; intros t Ht; try (apply H; exact Ht).
  - rewrite created_tasks_log, app_nil_r in Ht. now apply H.
  - rewrite created_tasks_log, app_nil_r in Ht. now apply H.
Qed.

Lemma denied_kept_with_calm pending : calm (denied_kept_with pending).
Proof.
  split; intros st ? [Hk Hp]; (split; [now apply denied_kept_calm | exact Hp]).
Qed.

Lemma denied_kept_schedule c requires :
  guarded denied_kept denied_kept (schedule_candidate c requires).
Proof.
  intros st Hst. unfold schedule_candidate. case_bool_decide; [exact Hst|].
  cbn. intros t Ht. unfold created_tasks in Ht. cbn [trace] in Ht.
  rewrite omap_app in Ht. cbn in Ht. cbn [pending_scrape_tasks].
  apply elem_of_app in Ht as [Ht | Ht]; intros Hd.
  - apply elem_of_app. left. now apply Hst.
  - apply elem_of_app. now right.
Qed.

Lemma elem_of_delete_other {A} (l : list A) position x y :
  l !! position = Some x -> y ∈ l -> y <> x -> y ∈ delete position l.
Proof.
  intros Hx Hy Hne. rewrite (delete_Permutation l position x Hx) in Hy.
  apply elem_of_cons in Hy as [-> | Hy]; [congruence | exact Hy].
Qed.

(** Collecting a pending task raises a [BlockedAppError] when its page is
    denied, and otherwise takes it off the pending tasks. *)
Lemma collect_task_guarded position t st :
  denied_kept st -> pending_scrape_tasks st !! position = Some t ->
  blocked_or (denied_kept_with (delete position (pending_scrape_tasks st)))
    (collect_task env normalized_hackathon_url hackathon_name position t st).1
    (collect_task env normalized_hackathon_url hackathon_name position t st).2.
Proof.
  intros Hst Ht.
  set (st1 := set_pending_scrape_tasks (delete position (pending_scrape_tasks st)) st).
  destruct (Hnet (project_url (candidate t))) as [Hs | Hd].
  - set (K := denied_kept_with (delete position (pending_scrape_tasks st))).
    assert (HK : calm K) by apply denied_kept_with_calm.
    pose (rest :=
      (candidate_result ←
         scrape_candidate env normalized_hackathon_url hackathon_name
           (candidate t) (requires_prize_confirmation t);
       match candidate_result with
       | None => mret tt
       | Some (_, project) =>
           update (fun st => set_winners (winners st ++ [project]) st);;
           winner_index ← read (fun st => Z.of_nat (length (winners st)));
           total ← read total_candidates_scheduled;
           progress_callback
             (winner_project_scraped winner_index (Z.max total winner_index)
                (proj_project_title project) (proj_project_url project)
                (Z.of_nat (length (prizes project))) project)
       end) : Crawl unit).
    assert (Hrest : guarded K K rest).
    { apply (guarded_bind K K K); [now apply guarded_scrape_candidate|].
      intros [[sid project]|]; [|apply guarded_ret].
      apply (guarded_bind K K K);
        [apply guarded_update; intros; now apply calm_winners|]. intros _.
      apply (guarded_bind K K K); [apply guarded_read|]. intros i.
      apply (guarded_bind K K K); [apply guarded_read|]. intros total.
      apply guarded_update. intros. now apply calm_progress. }
    change (collect_task env normalized_hackathon_url hackathon_name position t st)
      with (rest st1).
    apply (Hrest st1). split; [|reflexivity]. intros t' Ht' Hd'. cbn.
    apply (elem_of_delete_other _ position t); [exact Ht | now apply Hst|].
    intros ->. now apply (served_not_denied _ _ Hs).
  - destruct (fetch_denied (settings env) (network env) (project_url (candidate t))
                (Some (project_max_retries (settings env)))
                (Some (project_retry_backoff_base_seconds (settings env)))
                Hproject_retries Hd) as (r & _ & _ & Hf).
    unfold collect_task, scrape_candidate, mbind, crawl_bind, update, fetched,
      fetch_text_with_options.
    cbn [fst snd]. rewrite Hf. cbn. eexists. reflexivity.
Qed.

Lemma collect_done_guarded done :
  guarded denied_kept denied_kept
    (collect_done env normalized_hackathon_url hackathon_name done).
Proof.
  induction done as [|position done IH]; [apply guarded_ret|].
  intros st Hst. cbn [collect_done]. rewrite bind_read.
  destruct (pending_scrape_tasks st !! position) as [t|] eqn:Et; [|now apply IH].
  pose proof (collect_task_guarded position t st Hst Et) as Hc.
  destruct (collect_task env normalized_hackathon_url hackathon_name position t st)
    as [st1 [[]|e|]] eqn:Ec; cbn [fst snd] in Hc.
  - rewrite (bind_returned _ _ _ _ _ Ec). apply IH, Hc.
  - rewrite (bind_raised _ _ _ _ _ Ec). exact Hc.
  - rewrite (bind_unfinished _ _ _ _ Ec). exact I.
Qed.

Lemma collect_pending_guarded n :
  guarded (fun st => denied_kept st /\ (length (pending_scrape_tasks st) <= n)%nat)
    (fun st => denied_kept st /\ pending_scrape_tasks st = [])
    (collect_pending env normalized_hackathon_url hackathon_name n).
Proof.
  induction n as [|n IH]; intros st [Hst Hlen].
  - cbn. split; [exact Hst|]. destruct (pending_scrape_tasks st); [reflexivity|].
    cbn in Hlen. lia.
  - cbn [collect_pending]. rewrite bind_read.
    destruct (pending_scrape_tasks st) as [|t pending] eqn:Ep; [now split|].
    assert (Et : pending_scrape_tasks st !! 0%nat = Some t) by now rewrite Ep.
    pose proof (collect_task_guarded 0 t st Hst Et) as Hc.
    destruct (collect_task env normalized_hackathon_url hackathon_name 0 t st)
      as [st1 [[]|e|]] eqn:Ec; cbn [fst snd] in Hc.
    + rewrite (bind_returned _ _ _ _ _ Ec). apply IH.
      destruct Hc as [Hk Hp]. split; [exact Hk|].
      rewrite Hp, Ep. cbn in *. lia.
    + rewrite (bind_raised _ _ _ _ _ Ec). exact Hc.
    + rewrite (bind_unfinished _ _ _ _ Ec). exact I.
Qed.

Lemma drain_guarded done :
  guarded denied_kept denied_kept
    (drain_completed_scrapes env normalized_hackathon_url hackathon_name done false).
Proof.
  unfold drain_completed_scrapes.
  apply (guarded_bind denied_kept denied_kept denied_kept);
    [apply collect_done_guarded | intros _; apply guarded_ret].
Qed.

Lemma final_drain_guarded done :
  guarded denied_kept
    (fun st => denied_kept st /\ pending_scrape_tasks st = [])
    (drain_completed_scrapes env normalized_hackathon_url hackathon_name done true).
Proof.
  unfold drain_completed_scrapes.
  apply (guarded_bind denied_kept denied_kept); [apply collect_done_guarded|].
  intros _ st Hst. rewrite bind_read.
  apply collect_pending_guarded. split; [exact Hst | lia].
Qed.

Lemma schedule_winner_entries_guarded entries :
  guarded denied_kept denied_kept (schedule_winner_entries entries).
Proof.
  induction entries as [|entry entries IH]; [apply guarded_ret|].
  cbn [schedule_winner_entries].
  apply (guarded_bind denied_kept denied_kept);
    [apply guarded_update; intros; now apply denied_kept_calm|]. intros _.
  apply (guarded_bind denied_kept denied_kept);
    [apply guarded_update; intros; now apply denied_kept_calm|]. intros _.
  apply (guarded_bind denied_kept denied_kept);
    [apply denied_kept_schedule | intros _; exact IH].
Qed.

Lemma visit_gallery_page_guarded page_url :
  guarded denied_kept denied_kept
    (visit_gallery_page env normalized_hackathon_url hackathon_name page_url).
Proof.
  unfold visit_gallery_page.
  apply (guarded_bind denied_kept denied_kept);
    [apply guarded_update; intros; now apply denied_kept_calm|]. intros _.
  apply (guarded_bind denied_kept denied_kept);
    [apply guarded_fetch_text, denied_kept_calm|]. intros html.
  apply (guarded_bind denied_kept denied_kept);
    [apply guarded_update; intros; now apply denied_kept_calm|]. intros _.
  apply (guarded_bind denied_kept denied_kept);
    [apply schedule_winner_entries_guarded|]. intros _.
  apply (guarded_bind denied_kept denied_kept); [apply guarded_read|].
  intros page_number.
  apply (guarded_bind denied_kept denied_kept);
    [apply guarded_update; intros; now apply denied_kept_calm|]. intros _.
  apply (guarded_bind denied_kept denied_kept); [apply drain_guarded|].
  intros _. apply guarded_ret.
Qed.

Lemma walk_gallery_guarded pages page_url :
  guarded denied_kept denied_kept
    (walk_gallery env normalized_hackathon_url hackathon_name pages page_url).
Proof.
  revert page_url.
  induction pages as [|pages IH]; intros page_url; cbn [walk_gallery];
    (destruct (truthy page_url) as [url|]; [|apply guarded_ret]);
    (apply (guarded_bind denied_kept denied_kept); [apply guarded_read|];
     intros visited; case_bool_decide; [apply guarded_ret|]).
  - apply guarded_unfinished.
  - apply (guarded_bind denied_kept denied_kept);
      [apply visit_gallery_page_guarded | intros next; apply IH].
Qed.

Lemma detect_by_fallback_guarded should_run :
  guarded denied_kept denied_kept (detect_by_fallback should_run).
Proof.
  unfold detect_by_fallback.
  apply (guarded_bind denied_kept denied_kept); [apply guarded_read|]. intros found.
  destruct (negb found && should_run).
  - apply (guarded_bind denied_kept denied_kept); [apply guarded_read|].
    intros candidates.
    apply (guarded_bind denied_kept denied_kept);
      [apply guarded_update; intros; now apply denied_kept_calm|]. intros _.
    induction (unique_candidates ∅ candidates) as [|c cs IH]; [apply guarded_ret|].
    cbn [schedule_fallback].
    apply (guarded_bind denied_kept denied_kept);
      [apply denied_kept_schedule | intros _; exact IH].
  - destruct (negb found); [|apply guarded_ret].
    apply guarded_update; intros; now apply denied_kept_calm.
Qed.

(** When the [try]/[finally] statement returns, no task of a denied page
    was created; when it raises, it raises a [BlockedAppError]. *)
Lemma crawl_body_guarded pages gallery should_run :
  guarded denied_kept
    (fun st => forall t, t ∈ created_tasks (trace st) ->
                         ~ denied (network env) (project_url (candidate t)))
    (crawl_body env normalized_hackathon_url hackathon_name pages gallery should_run).
Proof.
  intros st Hst. unfold crawl_body.
  assert (Hall : guarded denied_kept
            (fun st => denied_kept st /\ pending_scrape_tasks st = [])
            (walk_gallery env normalized_hackathon_url hackathon_name pages
               (Some gallery);;
             detect_by_fallback should_run;;
             drain_completed_scrapes env normalized_hackathon_url hackathon_name
               (done_at_end (schedule env)) true)).
  { apply (guarded_bind denied_kept denied_kept); [apply walk_gallery_guarded|].
    intros _. apply (guarded_bind denied_kept denied_kept);
      [apply detect_by_fallback_guarded|]. intros _. apply final_drain_guarded. }
  specialize (Hall st Hst).
  destruct ((walk_gallery env normalized_hackathon_url hackathon_name pages
               (Some gallery);; _) st) as [st' [[]|e|]];
    cbn [fst snd] in *; [|exact Hall | exact I].
  destruct Hall as [Hk Hp]. intros t Ht Hd.
  specialize (Hk t Ht Hd). rewrite Hp in Hk. inversion Hk.
Qed.

End denied_crawl.

(* ===================================================================== *)
(** * A crawl that ends does not depend on the pages it is given time for *)
(* ===================================================================== *)

Section enough_pages.
Import config http_client parser url_utils service observations crawl_properties.

Context (env : CrawlEnv) (normalized_hackathon_url hackathon_name : string).

Lemma bind_ending {A B} (m : Crawl A) (k : A -> Crawl B) st :
  ((m ≫= k) st).2 <> Unfinished ->
  (exists st' a, m st = (st', Returned a) /\ (k a st').2 <> Unfinished) \/
  (exists st' e, m st = (st', Raised e)).
Proof.
  unfold mbind, crawl_bind. destruct (m st) as [st' [a|e|]]; cbn [snd].
  - intros H. left. now exists st', a.
  - intros _. right. now exists st', e.
  - intros H. now destruct H.
Qed.

(** Two continuations that agree where the first piece returns give the
    same whole. *)
Lemma bind_agree {A B} (m : Crawl A) (k k' : A -> Crawl B) st :
  (forall st' a, m st = (st', Returned a) -> k a st' = k' a st') ->
  (m ≫= k) st = (m ≫= k') st.
Proof.
  intros H. unfold mbind, crawl_bind.
  destruct (m st) as [st' [a|e|]]; [now apply H | reflexivity | reflexivity].
Qed.

Lemma walk_gallery_one_more pages page_url st :
  (walk_gallery env normalized_hackathon_url hackathon_name pages page_url st).2
  <> Unfinished ->
  walk_gallery env normalized_hackathon_url hackathon_name (S pages) page_url st
  = walk_gallery env normalized_hackathon_url hackathon_name pages page_url st.
Proof.
  revert page_url st. induction pages as [|pages IH]; intros page_url st Hend.
  - cbn [walk_gallery] in *. destruct (truthy page_url) as [url|]; [|reflexivity].
    rewrite !bind_read in *. case_bool_decide; [reflexivity|].
    now destruct Hend.
  - change (walk_gallery env normalized_hackathon_url hackathon_name
              (S (S pages)) page_url st)
      with (match truthy page_url with
            | None => mret tt
            | Some url =>
                visited ← read visited_pages;
                if bool_decide (url ∈ visited) then mret tt
                else
                  next ← visit_gallery_page env normalized_hackathon_url
                           hackathon_name url;
                  walk_gallery env normalized_hackathon_url hackathon_name
                    (S pages) next
            end st).
    change (walk_gallery env normalized_hackathon_url hackathon_name
              (S pages) page_url st)
      with (match truthy page_url with
            | None => mret tt
            | Some url =>
                visited ← read visited_pages;
                if bool_decide (url ∈ visited) then mret tt
                else
                  next ← visit_gallery_page env normalized_hackathon_url
                           hackathon_name url;
                  walk_gallery env normalized_hackathon_url hackathon_name
                    pages next
            end st) in Hend |- *.
    destruct (truthy page_url) as [url|]; [|reflexivity].
    rewrite !bind_read in *. case_bool_decide; [reflexivity|].
    apply bind_agree. intros st1 next E1.
    apply bind_ending in Hend as [(st1' & next' & E1' & Hend) | (? & ? & E1')];
      [|congruence].
    rewrite E1 in E1'. injection E1' as <- <-.
    apply IH, Hend.
Qed.

Lemma crawl_body_one_more pages gallery should_run st :
  (crawl_body env normalized_hackathon_url hackathon_name pages gallery
     should_run st).2 <> Unfinished ->
  crawl_body env normalized_hackathon_url hackathon_name (S pages) gallery
    should_run st
  = crawl_body env normalized_hackathon_url hackathon_name pages gallery
      should_run st.
Proof.
  unfold crawl_body. intros Hend.
  assert (Hwalk : (walk_gallery env normalized_hackathon_url hackathon_name pages
                     (Some gallery) st).2 <> Unfinished).
  { intros Hu. apply Hend.
    destruct (walk_gallery env normalized_hackathon_url hackathon_name pages
                (Some gallery) st) as [st' e] eqn:E. cbn [snd] in Hu. subst e.
    now rewrite (bind_unfinished _ _ _ _ E). }
  unfold mbind at 2, crawl_bind at 2.
  unfold mbind at 1, crawl_bind at 1.
  now rewrite (walk_gallery_one_more pages (Some gallery) st Hwalk).
Qed.

End enough_pages.

Section enough_pages_whole.
Import config http_client parser url_utils service observations crawl_properties.

Lemma scrape_hackathon_one_more env pages hackathon_url :
  (scrape_hackathon env pages hackathon_url).2 <> Unfinished ->
  scrape_hackathon env (S pages) hackathon_url
  = scrape_hackathon env pages hackathon_url.
Proof.
  unfold scrape_hackathon. intros Hend.
  match goal with
  | |- (let '(_, _) := ?run1 initial_state in _)
       = (let '(_, _) := ?run0 initial_state in _) =>
      assert (Hrun : run1 initial_state = run0 initial_state);
        [|now rewrite Hrun]
  end.
  match type of Hend with
  | (let '(_, _) := ?run0 initial_state in _).2 <> _ =>
      assert (Hend' : (run0 initial_state).2 <> Unfinished)
        by (destruct (run0 initial_state); exact Hend)
  end.
  clear Hend.
  apply bind_agree. intros st1 n E1.
  apply bind_ending in Hend' as [(st1' & n' & E1' & Hend) | (? & ? & E1')];
    [|congruence].
  rewrite E1 in E1'. injection E1' as <- <-.
  apply bind_agree. intros st2 html E2.
  apply bind_ending in Hend as [(st2' & html' & E2' & Hend) | (? & ? & E2')];
    [|congruence].
  rewrite E2 in E2'. injection E2' as <- <-.
  assert (Hbody : (crawl_body env n (@parse_hackathon_name (page_parser env) html)
                     pages (@resolve_gallery_url (page_parser env) n html)
                     (@winners_are_announced (page_parser env) html) st2).2
                  <> Unfinished).
  { intros Hu. apply Hend.
    destruct (crawl_body env n _ pages _ _ st2) as [st' e] eqn:E.
    cbn [snd] in Hu. subst e. now rewrite (bind_unfinished _ _ _ _ E). }
  unfold mbind at 1, crawl_bind at 1.
  rewrite (crawl_body_one_more env n _ pages _ _ st2 Hbody). reflexivity.
Qed.

(** Once a crawl ends within [pages] gallery pages, it ends the same way
    with the same effects however many more it is given time for. *)
Lemma scrape_hackathon_more_pages env pages pages' hackathon_url :
  (scrape_hackathon env pages hackathon_url).2 <> Unfinished ->
  (pages <= pages')%nat ->
  scrape_hackathon env pages' hackathon_url
  = scrape_hackathon env pages hackathon_url.
Proof.
  intros Hend Hle. induction Hle as [|pages' Hle IH]; [reflexivity|].
  rewrite scrape_hackathon_one_more; [exact IH | now rewrite IH].
Qed.

End enough_pages_whole.

(* ===================================================================== *)
(** * A crawl of a finite gallery ends *)
(* ===================================================================== *)

Section crawl_ends.
Import config http_client parser url_utils service observations crawl_properties.

Lemma settles_bind {A B} K (m : Crawl A) (k : A -> Crawl B) :
  settles K m -> (forall a, settles K (k a)) -> settles K (m ≫= k).
Proof.
  intros Hm Hk.
  apply (hoare_bind K m k (fun st ending => K st /\ ending <> Unfinished)).
  - exact Hm.
  - intros a st [Hst _]. now apply Hk.
  - intros st e [Hst _]. now split.
  - intros st [_ Hcut]. now destruct Hcut.
Qed.

Lemma settles_ret {A} K (a : A) : settles K (mret a).
Proof. intros st Hst. now split. Qed.

Lemma settles_read {A} K (f : CrawlState -> A) : settles K (read f).
Proof. intros st Hst. now split. Qed.

Lemma settles_lift {A} K (r : result A) : settles K (lift r).
Proof. intros st Hst. split; [exact Hst|]. cbn. now destruct r. Qed.

Lemma settles_update K (f : CrawlState -> CrawlState) :
  (forall st, K st -> K (f st)) -> settles K (update f).
Proof. intros Hf st Hst. split; [now apply Hf | discriminate]. Qed.

Lemma settles_fetched K r :
  (forall st, K st -> K (log (Fetch r.1) st)) -> settles K (fetched r).
Proof.
  intros Hf st Hst. split; [now apply Hf|]. cbn. now destruct r.2.
Qed.

Context (env : CrawlEnv) (normalized_hackathon_url hackathon_name : string).
Context (V : gset string).

Lemma settles_schedule_candidate c requires :
  settles (visited_is V) (schedule_candidate c requires).
Proof.
  intros st Hst. unfold schedule_candidate.
  case_bool_decide; (split; [exact Hst | discriminate]).
Qed.

Lemma settles_collect_task position t :
  settles (visited_is V)
    (collect_task env normalized_hackathon_url hackathon_name position t).
Proof.
  unfold collect_task.
  apply settles_bind; [apply settles_update; intros st Hst; exact Hst|].
  intros _. apply settles_bind.
  { unfold scrape_candidate.
    apply settles_bind; [apply settles_fetched; intros st Hst; exact Hst|].
    intros html. apply settles_bind; [apply settles_lift|]. intros project.
    destruct (requires_prize_confirmation t && no_prizes project);
      [apply settles_ret|].
    apply settles_bind; [|intros; apply settles_ret].
    destruct (requires_prize_confirmation t); [|apply settles_ret].
    apply settles_update. intros st Hst. exact Hst. }
  intros [[sid project]|]; [|apply settles_ret].
  apply settles_bind; [apply settles_update; intros st Hst; exact Hst|].
  intros _. apply settles_bind; [apply settles_read|]. intros index.
  apply settles_bind; [apply settles_read|]. intros total.
  apply settles_update. intros st Hst. exact Hst.
Qed.

Lemma settles_drain done wait_for_all :
  settles (visited_is V)
    (drain_completed_scrapes env normalized_hackathon_url hackathon_name
       done wait_for_all).
Proof.
  unfold drain_completed_scrapes. apply settles_bind.
  { induction done as [|position done IH]; [apply settles_ret|].
    cbn [collect_done]. apply settles_bind; [apply settles_read|].
    intros pending. destruct (pending !! position) as [t|]; [|exact IH].
    apply settles_bind; [apply settles_collect_task | intros _; exact IH]. }
  intros _. destruct wait_for_all; [|apply settles_ret].
  apply settles_bind; [apply settles_read|]. intros n.
  induction n as [|n IH]; [apply settles_ret|].
  cbn [collect_pending]. apply settles_bind; [apply settles_read|].
  intros [|t pending]; [apply settles_ret|].
  apply settles_bind; [apply settles_collect_task | intros _; exact IH].
Qed.

Lemma settles_schedule_winner_entries entries :
  settles (visited_is V) (schedule_winner_entries entries).
Proof.
  induction entries as [|entry entries IH]; [apply settles_ret|].
  cbn [schedule_winner_entries].
  apply settles_bind; [apply settles_update; intros st Hst; exact Hst|].
  intros _.
  apply settles_bind; [apply settles_update; intros st Hst; exact Hst|].
  intros _.
  apply settles_bind; [apply settles_schedule_candidate | intros _; exact IH].
Qed.

Lemma settles_detect_by_fallback should_run :
  settles (visited_is V) (detect_by_fallback should_run).
Proof.
  unfold detect_by_fallback.
  apply settles_bind; [apply settles_read|]. intros found.
  destruct (negb found && should_run).
  - apply settles_bind; [apply settles_read|]. intros candidates.
    apply settles_bind; [apply settles_update; intros st Hst; exact Hst|].
    intros _. induction (unique_candidates ∅ candidates) as [|c l IH];
      [apply settles_ret|].
    cbn [schedule_fallback].
    apply settles_bind; [apply settles_schedule_candidate | intros _; exact IH].
  - destruct (negb found); [|apply settles_ret].
    apply settles_update. intros st Hst. exact Hst.
Qed.

End crawl_ends.

Section walk_ends.
Import config http_client parser url_utils service observations crawl_properties.

Context (env : CrawlEnv) (normalized_hackathon_url hackathon_name : string).

(** A piece of the crawl that ends in [mret x] returns nothing but [x]. *)
Lemma bind_returns_only {A B} (m : Crawl A) (k : A -> Crawl B) (x : B) :
  (forall a st st' b, k a st = (st', Returned b) -> b = x) ->
  forall st st' b, (m ≫= k) st = (st', Returned b) -> b = x.
Proof.
  intros Hk st st' b. unfold mbind, crawl_bind.
  destruct (m st) as [st1 [a|e|]]; [apply Hk | discriminate ..].
Qed.

(** The visit of a page marks it as visited, ends, and hands back the
    next-page link of the page as the parser reads it. *)
Lemma visit_gallery_page_ends V url st :
  visited_pages st = V ->
  let run := visit_gallery_page env normalized_hackathon_url hackathon_name url st in
  visited_pages run.1 = {[url]} ∪ V /\
  run.2 <> Unfinished /\
  forall next, run.2 = Returned next ->
    exists html,
      (fetch_text (settings env) (network env) url).2 = Ok html /\
      next = next_page_url (@parse_gallery_page (page_parser env) url html).
Proof.
  intros Hst. cbv zeta.
  destruct (visit_gallery_page env normalized_hackathon_url hackathon_name url st)
    as [st' ending] eqn:E.
  cbn [fst snd]. unfold visit_gallery_page in E. rewrite bind_update in E.
  assert (H1 : visited_is ({[url]} ∪ V) (add_visited_page url st))
    by (unfold visited_is; cbn; now rewrite Hst).
  unfold mbind at 1 in E. unfold crawl_bind, fetched in E.
  destruct (fetch_text (settings env) (network env) url).2 as [html|e] eqn:Ef;
    [|injection E as <- <-; repeat split; [exact H1 | discriminate ..]].
  match type of E with
  | (?m ≫= ?k) ?s = _ =>
      assert (Hrest : settles (visited_is ({[url]} ∪ V)) (m ≫= k));
      [|assert (Hvalue : forall st0 st1 b,
                  (m ≫= k) st0 = (st1, Returned b) ->
                  b = next_page_url (@parse_gallery_page (page_parser env) url html));
        [|pose proof (Hrest s H1) as Hr;
          change (visited_is ({[url]} ∪ V) ((m ≫= k) s).1 /\
                  ((m ≫= k) s).2 <> Unfinished) in Hr;
          assert (E1 : ((m ≫= k) s).1 = st') by exact (f_equal fst E);
          assert (E2 : ((m ≫= k) s).2 = ending) by exact (f_equal snd E);
          rewrite E1, E2 in Hr]]
  end.
  - apply settles_bind; [apply settles_update; intros s Hs; exact Hs|]. intros _.
    apply settles_bind; [apply settles_schedule_winner_entries|]. intros _.
    apply settles_bind; [apply settles_read|]. intros page_number.
    apply settles_bind; [apply settles_update; intros s Hs; exact Hs|]. intros _.
    apply settles_bind; [apply settles_drain|]. intros _. apply settles_ret.
  - repeat (apply bind_returns_only; intros ?).
    intros st0 st1 b [= _ <-]. reflexivity.
  - destruct Hr as [Hv Hcut].
    split; [exact Hv|]. split; [exact Hcut|].
    intros next Hending. rewrite Hending in E. exists html.
    split; [reflexivity | exact (Hvalue _ _ _ E)].
Qed.

Context (U : gset string).
Context (Hnext : forall page_url html next,
           page_url ∈ U ->
           (fetch_text (settings env) (network env) page_url).2 = Ok html ->
           next_page_url (@parse_gallery_page (page_parser env) page_url html)
           = Some next ->
           next ∈ U).

(** With every next-page link in the finite set [U], the walk ends within
    as many pages as [U] has URLs not yet visited. *)
Lemma walk_gallery_ends pages page_url st :
  (forall u, page_url = Some u -> u ∈ U) ->
  (size (U ∖ visited_pages st) <= pages)%nat ->
  (walk_gallery env normalized_hackathon_url hackathon_name
     pages page_url st).2 <> Unfinished.
Proof.
  revert page_url st. induction pages as [|pages IH]; intros page_url st Hin Hsize;
    cbn [walk_gallery];
    (destruct (truthy page_url) as [url|] eqn:Etruthy; [|discriminate]);
    rewrite bind_read; case_bool_decide as Hseen; try discriminate;
    (assert (Hu : url ∈ U);
     [apply Hin; unfold truthy in Etruthy;
      destruct page_url as [[|c s]|]; congruence|]).
  - exfalso.
    assert (Hpos : size (U ∖ visited_pages st) ≠ 0%nat).
    { apply size_non_empty_iff. intros Hempty.
      assert (url ∈ U ∖ visited_pages st) by set_solver. set_solver. }
    lia.
  - destruct (visit_gallery_page_ends (visited_pages st) url st eq_refl)
      as (Hvisited & Hcut & Hvalue).
    unfold mbind, crawl_bind.
    destruct (visit_gallery_page env normalized_hackathon_url hackathon_name url st)
      as [st' [next|e|]]; cbn [fst snd] in *.
    + apply IH.
      * intros u ->. destruct (Hvalue (Some u) eq_refl) as (html & Hf & Hhtml).
        symmetry in Hhtml. exact (Hnext url html u Hu Hf Hhtml).
      * rewrite Hvisited.
        assert (Hlt : (size (U ∖ ({[url]} ∪ visited_pages st))
                       < size (U ∖ visited_pages st))%nat).
        { apply subset_size. set_solver. }
        lia.
    + discriminate.
    + now destruct Hcut.
Qed.

(** The [try]/[finally] statement ends when the walk does. *)
Lemma crawl_body_ends pages gallery_url should_run st :
  gallery_url ∈ U ->
  (size U <= pages)%nat ->
  (crawl_body env normalized_hackathon_url hackathon_name
     pages gallery_url should_run st).2 <> Unfinished.
Proof.
  intros Hin Hsize. unfold crawl_body.
  pose proof (walk_gallery_ends pages (Some gallery_url) st) as Hwalk.
  unfold mbind at 1. unfold crawl_bind at 1.
  destruct (walk_gallery env normalized_hackathon_url hackathon_name pages
              (Some gallery_url) st) as [st1 [[]|e|]] eqn:Ewalk;
    cbn [fst snd] in *.
  - match goal with
    | |- (let '(_, _) := ?m ?s in _).2 <> _ =>
        assert (Hrest : settles (visited_is (visited_pages s)) m);
        [|specialize (Hrest s eq_refl); destruct (m s) as [st2 ending]]
    end.
    + apply settles_bind; [apply settles_detect_by_fallback|]. intros _.
      apply settles_drain.
    + exact (proj2 Hrest).
  - discriminate.
  - exfalso. apply Hwalk; [now intros u [= <-] | | reflexivity].
    apply (Nat.le_trans _ (size U)); [apply subseteq_size; set_solver | exact Hsize].
Qed.

End walk_ends.


(* ===================================================================== *)
(** * Properties of the job orchestrator and of the lookup endpoint *)
(* ===================================================================== *)

Section orchestrator_facts.
Import config http_client parser url_utils service observations db job_orchestrator crawl_properties.

Context (w : World).

Lemma broadcast_database o lookup_id e :
  database (_broadcast w o lookup_id e) = database o.
Proof.
  unfold _broadcast. destruct (negb (_worker_task o)); [reflexivity|].
  destruct (elements _) as [|socket sockets]; [reflexivity|].
  assert (Hsend : forall l o0, database (send_all w l e o0).1 = database o0).
  { induction l as [|s l IH]; intros o0; [reflexivity|]. cbn [send_all].
    specialize (IH (record_send s e o0)).
    destruct (send_all w l e (record_send s e o0)) as [o1 stale]. exact IH. }
  specialize (Hsend (socket :: sockets) o).
  destruct (send_all w (socket :: sockets) e o) as [o1 stale]. cbn [fst] in Hsend.
  destruct stale; [exact Hsend|].
  destruct (_subscribers o1 !! lookup_id); exact Hsend.
Qed.

Lemma publish_event_jobs o lookup_id e :
  lookup_jobs (database (publish_event w o lookup_id e)) = lookup_jobs (database o).
Proof. unfold publish_event. cbn. now rewrite broadcast_database. Qed.

Lemma publish_all_jobs o lookup_id events :
  lookup_jobs (database (publish_all w o lookup_id events))
  = lookup_jobs (database o).
Proof.
  revert o. induction events as [|e events IH]; intros o; [reflexivity|].
  cbn [publish_all]. now rewrite IH, publish_event_jobs.
Qed.

(** An [UPDATE ... WHERE id = ?] that keeps the [id] changes the row that
    [get_lookup_job] finds. *)
Lemma find_update_job lookup_id (f : LookupJob -> LookupJob) jobs :
  (forall job, id (f job) = id job) ->
  List.find (fun job => String.eqb (id job) lookup_id)
    ((fun job => if String.eqb (id job) lookup_id then f job else job) <$> jobs)
  = f <$> List.find (fun job => String.eqb (id job) lookup_id) jobs.
Proof.
  intros Hid. induction jobs as [|job jobs IH]; [reflexivity|].
  cbn. destruct (String.eqb (id job) lookup_id) eqn:E.
  - cbn. now rewrite Hid, E.
  - cbn. rewrite E. exact IH.
Qed.

Lemma get_lookup_job_jobs d d' lookup_id :
  lookup_jobs d = lookup_jobs d' -> get_lookup_job d lookup_id = get_lookup_job d' lookup_id.
Proof. unfold get_lookup_job. now intros ->. Qed.

(** The row of a lookup after the failure handler of [_process_lookup]. *)
Lemma fail_lookup_job o lookup_id code message job :
  get_lookup_job (database o) lookup_id = Some job ->
  exists job',
    get_lookup_job (database (fail_lookup w o lookup_id code message)) lookup_id
    = Some job' /\
    status job' = Failed /\ error_code job' = Some code /\
    error_message job' = Some message /\
    hackathon_url job' = hackathon_url job.
Proof.
  intros Hjob. unfold fail_lookup.
  eexists. split.
  - erewrite get_lookup_job_jobs by apply publish_event_jobs.
    unfold get_lookup_job, tick, set_database, set_lookup_failed, update_job,
      set_lookup_jobs. cbn [database lookup_jobs].
    rewrite find_update_job by reflexivity.
    unfold get_lookup_job in Hjob. rewrite Hjob. reflexivity.
  - repeat split.
Qed.

(** A crawl that raises an [AppError] within the time limit leaves the job
    failed, with the code and the message of the error. *)
Lemma process_lookup_app_error o lookup_id job effects cls message :
  get_lookup_job (database o) lookup_id = Some job ->
  deadline w lookup_id = None ->
  scraper w (hackathon_url job) = (effects, Raised (AppErr cls message)) ->
  exists job',
    get_lookup_job (database (_process_lookup w o lookup_id)) lookup_id = Some job' /\
    status job' = Failed /\ error_code job' = Some (code cls) /\
    error_message job' = Some message.
Proof.
  intros Hjob Hdeadline Hscraper. unfold _process_lookup. rewrite Hjob.
  unfold wait_for. rewrite Hdeadline, Hscraper. cbn [fst snd].
  set (o1 := publish_all w _ lookup_id (progress_events effects)).
  assert (H1 : exists job1, get_lookup_job (database o1) lookup_id = Some job1).
  { subst o1. eexists.
    erewrite get_lookup_job_jobs by apply publish_all_jobs.
    erewrite get_lookup_job_jobs by apply publish_event_jobs.
    unfold get_lookup_job, tick, set_database, set_lookup_started, update_job,
      set_lookup_jobs. cbn [database lookup_jobs].
    rewrite find_update_job by reflexivity.
    unfold get_lookup_job in Hjob. rewrite Hjob. reflexivity. }
  destruct H1 as [job1 H1].
  destruct (fail_lookup_job o1 lookup_id (code cls) message job1 H1)
    as (job' & Hget & Hs & Hc & Hm & _).
  exists job'. auto.
Qed.

End orchestrator_facts.

Section denied_job.
Import config http_client parser url_utils service observations db job_orchestrator crawl_properties.

Lemma elem_of_created_tasks t effects :
  t ∈ created_tasks effects <-> CreateTask t ∈ effects.
Proof.
  unfold created_tasks. rewrite list_elem_of_omap. split.
  - intros (x & Hx & Hsome). destruct x; try discriminate.
    now injection Hsome as ->.
  - intros Hin. now exists (CreateTask t).
Qed.

(** On a site whose only failures are denials, a crawl that scheduled the
    deep fetch of a denied page and ends, ends with a [BlockedAppError]. *)
Lemma denied_project_fails_crawl env pages hackathon_url t :
  1 <= max_retries (settings env) ->
  1 <= project_max_retries (settings env) ->
  (forall url, served (network env) url \/ denied (network env) url) ->
  (forall n, normalize_hackathon_url hackathon_url = Ok n ->
             served_pages_parse env n) ->
  CreateTask t ∈ (scrape_hackathon env pages hackathon_url).1 ->
  denied (network env) (project_url (candidate t)) ->
  (scrape_hackathon env pages hackathon_url).2 <> Unfinished ->
  exists message,
    (scrape_hackathon env pages hackathon_url).2
    = Raised (AppErr BlockedAppError message).
Proof.
  intros Hretries Hproject Hnet Hparse Hcreated Hdenied Hend.
  destruct (scrape_hackathon_cases env pages hackathon_url)
    as [(e & _ & Hrun) | [(n & effects & e & _ & _ & Hrun)
        | (n & effects & html & st & ending & Hn & _ & Hbody & Htrace & _
           & Hraised & Hcut & _)]].
  - rewrite Hrun in Hcreated. inversion Hcreated.
  - rewrite Hrun in Hcreated. cbn in Hcreated.
    apply list_elem_of_singleton in Hcreated. discriminate.
  - match type of Hbody with
    | crawl_body _ _ ?name _ ?gallery ?should_run _ = _ =>
        pose proof (crawl_body_guarded env n name Hretries Hproject Hnet
                      (Hparse n Hn)
                      pages gallery should_run
                      (log (Fetch effects) initial_state)) as Hg
    end.
    rewrite Hbody in Hg. cbn [fst snd] in Hg.
    assert (H0 : denied_kept env (log (Fetch effects) initial_state)).
    { intros t' Ht'. inversion Ht'. }
    specialize (Hg H0). destruct ending as [[]|e|]; cbn in Hg.
    + exfalso. apply (Hg t); [|exact Hdenied].
      apply elem_of_created_tasks. now rewrite <- Htrace.
    + destruct Hg as [message ->]. exists message. now apply Hraised.
    + now destruct Hend; apply Hcut.
Qed.

(** A crawl of a gallery that lies within a set of no more than [pages]
    URLs does not run out of the gallery pages it is given time for. *)
Lemma finite_gallery_ends env (U : gset string) pages hackathon_url :
  gallery_within env hackathon_url U ->
  (size U <= pages)%nat ->
  (scrape_hackathon env pages hackathon_url).2 <> Unfinished.
Proof.
  intros [Hgallery Hnext] Hsize.
  destruct (scrape_hackathon_cases env pages hackathon_url)
    as [(e & _ & ->) | [(n & effects & e & _ & _ & ->)
        | (n & effects & html & st & ending & Hn & Hf & Hbody & _ & _
           & Hraised & _ & Hreturned)]]; try discriminate.
  match type of Hbody with
  | crawl_body _ _ ?name _ ?gallery ?should_run ?s = _ =>
      pose proof (crawl_body_ends env n name U Hnext pages gallery should_run s)
        as Hb
  end.
  rewrite Hbody in Hb. cbn [snd] in Hb.
  destruct ending as [[]|e|].
  - destruct (Hreturned eq_refl) as [[r ->] | [_ ->]]; discriminate.
  - rewrite (Hraised e eq_refl). discriminate.
  - exfalso. apply Hb; [|exact Hsize|reflexivity].
    apply (Hgallery n html Hn). now rewrite Hf.
Qed.



End denied_job.

(* ===================================================================== *)
(** * The worker loop on a lookup id without a job row *)
(* ===================================================================== *)

Section missing_job.
Import config service db job_orchestrator.

Context (w : World).

Lemma process_lookup_missing o lookup_id :
  get_lookup_job (database o) lookup_id = None ->
  _process_lookup w o lookup_id = o.
Proof. intros Hjob. unfold _process_lookup. now rewrite Hjob. Qed.

(** C10. A lookup id taken from the worker queue with no row in
    [lookup_jobs] is processed as a no-op: [_process_lookup] hands back
    the orchestrator it was given, so the job table, the stored progress
    events, the stored results, the subscribers, the clock and the
    [send_json] calls are those before the turn, the id has left the
    queue, and the worker loop goes on with the rest of the queue. *)
Theorem missing_job_is_skipped o lookup_id q turns :
  _queue o = Some (lookup_id :: q) ->
  get_lookup_job (database o) lookup_id = None ->
  _process_lookup w (set_queue (Some q) o) lookup_id = set_queue (Some q) o /\
  worker_turn w o = Some (set_queue (Some q) o) /\
  database (set_queue (Some q) o) = database o /\
  sent (set_queue (Some q) o) = sent o /\
  ticks (set_queue (Some q) o) = ticks o /\
  _subscribers (set_queue (Some q) o) = _subscribers o /\
  _worker_loop w (S turns) o = _worker_loop w turns (set_queue (Some q) o).
Proof.
  intros Hqueue Hjob.
  assert (Hskip : _process_lookup w (set_queue (Some q) o) lookup_id
                  = set_queue (Some q) o)
    by now apply process_lookup_missing.
  assert (Hturn : worker_turn w o = Some (set_queue (Some q) o)).
  { unfold worker_turn. now rewrite Hqueue, Hskip. }
  repeat split; try assumption.
  cbn [_worker_loop]. now rewrite Hturn.
Qed.

End missing_job.

Section missing_job_sample.
Import config service db job_orchestrator.

(** The sample worker with the queue ["ghost"; "lookup-1"] and only the
    job of ["lookup-1"] stored skips ["ghost"] and then processes
    ["lookup-1"]. *)
Lemma missing_job_is_skipped_witness :
  worker_turn (sample_site.world_of sample_site.badges_env)
    (sample_site.orchestrator_of [sample_site.queued_job] ["ghost"; "lookup-1"])
  = Some (sample_site.orchestrator_of [sample_site.queued_job] ["lookup-1"]) /\
  _worker_loop (sample_site.world_of sample_site.badges_env) 2
    (sample_site.orchestrator_of [sample_site.queued_job] ["ghost"; "lookup-1"])
  = _worker_loop (sample_site.world_of sample_site.badges_env) 1
      (sample_site.orchestrator_of [sample_site.queued_job] ["lookup-1"]).
Proof.
  destruct (missing_job_is_skipped
              (sample_site.world_of sample_site.badges_env)
              (sample_site.orchestrator_of [sample_site.queued_job]
                 ["ghost"; "lookup-1"])
              "ghost" ["lookup-1"] 1 eq_refl eq_refl)
    as (_ & Hturn & _ & _ & _ & _ & Hloop).
  split; [exact Hturn | exact Hloop].
Defined.

End missing_job_sample.

(* ===================================================================== *)
(** * The lookup endpoint on a target with an active job *)
(* ===================================================================== *)

Section active_lookup.
Import config url_utils service db job_orchestrator main.

Context (settings : Settings) (w : World).

Lemma earliest_created_elem rows row :
  earliest_created rows = Some row -> row ∈ rows.
Proof.
  revert row. induction rows as [|r rows IH]; intros row; cbn; [discriminate|].
  destruct (earliest_created rows) as [r'|].
  - destruct (String.ltb (created_at r') (created_at r)); intros [= <-].
    + right. now apply IH.
    + left.
  - intros [= <-]. left.
Qed.

Lemma earliest_created_cons r rows :
  exists row, earliest_created (r :: rows) = Some row.
Proof.
  cbn. destruct (earliest_created rows) as [r'|]; [|eauto].
  destruct (String.ltb (created_at r') (created_at r)); eauto.
Qed.

Lemma active_lookup_found d url job :
  job ∈ lookup_jobs d -> hackathon_url job = url -> is_active job = true ->
  exists active,
    get_latest_active_lookup_for_url d url = Some active /\
    active ∈ lookup_jobs d /\ hackathon_url active = url /\
    is_active active = true.
Proof.
  intros Hin Hurl Hactive. unfold get_latest_active_lookup_for_url.
  set (keep := fun job : LookupJob =>
                 String.eqb (hackathon_url job) url && is_active job = true).
  assert (Hkept : job ∈ filter keep (lookup_jobs d)).
  { apply list_elem_of_filter. split; [|exact Hin].
    unfold keep. rewrite Hurl, String.eqb_refl, Hactive. reflexivity. }
  destruct (filter keep (lookup_jobs d)) as [|r rows] eqn:Hrows.
  { now apply elem_of_nil in Hkept. }
  destruct (earliest_created_cons r rows) as [active Hearliest].
  exists active. split; [exact Hearliest|].
  apply earliest_created_elem in Hearliest. rewrite <- Hrows in Hearliest.
  apply list_elem_of_filter in Hearliest as [Hkeep Hin'].
  unfold keep in Hkeep. apply andb_prop in Hkeep as [Heq Hact].
  apply String.eqb_eq in Heq. auto.
Qed.

Lemma rate_limit_keeps_jobs o o1 ip :
  enforce_lookup_rate_limit settings w o ip = Ok o1 ->
  lookup_jobs (database o1) = lookup_jobs (database o) /\
  lookup_progress_events (database o1) = lookup_progress_events (database o) /\
  lookup_results (database o1) = lookup_results (database o) /\
  _queue o1 = _queue o /\ sent o1 = sent o.
Proof.
  unfold enforce_lookup_rate_limit.
  destruct (negb (rate_limit_enabled settings)); [now intros [= <-]|].
  destruct (_ <=? _); [discriminate|].
  destruct (_ <=? _); [discriminate|].
  intros [= <-]. now cbn.
Qed.

Lemma active_lookup_same_jobs d d' url :
  lookup_jobs d' = lookup_jobs d ->
  get_latest_active_lookup_for_url d' url = get_latest_active_lookup_for_url d url.
Proof. intros H. unfold get_latest_active_lookup_for_url. now rewrite H. Qed.

(** What [create_lookup] does once the request is accepted and an active
    job is found. *)
Lemma create_lookup_active o o1 request normalized active q :
  valid_payload request = true ->
  enforce_lookup_rate_limit settings w o (client_ip request) = Ok o1 ->
  normalize_hackathon_url (payload_hackathon_url request) = Ok normalized ->
  get_latest_active_lookup_for_url (database o) normalized = Some active ->
  _queue o = Some q ->
  create_lookup settings w o request
  = (if bool_decide (status active = Queued)
     then set_queue (Some (q ++ [id active])) o1 else o1,
     Ok {| lookup_id := id active; response_status := status active |}).
Proof.
  intros Hvalid Hrate Hnormal Hactive Hqueue.
  destruct (rate_limit_keeps_jobs o o1 _ Hrate) as (Hjobs & _ & _ & Hq & _).
  unfold create_lookup.
  rewrite Hvalid, Hrate, Hnormal. cbn [negb].
  rewrite (active_lookup_same_jobs (database o) (database o1) normalized Hjobs),
    Hactive.
  case_bool_decide; [|reflexivity].
  unfold enqueue_lookup. now rewrite Hq, Hqueue.
Qed.

(** C9. When the job table holds an active (queued or started) job of the
    normalised target of an accepted submission, [create_lookup] answers
    with the id and status of such a job (the one
    [get_latest_active_lookup_for_url] selects), leaves the job table, the
    stored progress events, the stored results and the [send_json] calls
    as they were, appends the id to the worker queue exactly when the job
    is queued, and answers a further accepted submission of the same
    target with the same id. *)
Theorem active_lookup_is_reused o o1 request normalized job q :
  valid_payload request = true ->
  enforce_lookup_rate_limit settings w o (client_ip request) = Ok o1 ->
  normalize_hackathon_url (payload_hackathon_url request) = Ok normalized ->
  job ∈ lookup_jobs (database o) ->
  hackathon_url job = normalized ->
  is_active job = true ->
  _queue o = Some q ->
  exists active,
    active ∈ lookup_jobs (database o) /\
    hackathon_url active = normalized /\
    is_active active = true /\
    (create_lookup settings w o request).2
    = Ok {| lookup_id := id active; response_status := status active |} /\
    lookup_jobs (database (create_lookup settings w o request).1)
    = lookup_jobs (database o) /\
    lookup_progress_events (database (create_lookup settings w o request).1)
    = lookup_progress_events (database o) /\
    lookup_results (database (create_lookup settings w o request).1)
    = lookup_results (database o) /\
    sent (create_lookup settings w o request).1 = sent o /\
    _queue (create_lookup settings w o request).1
    = Some (if bool_decide (status active = Queued)
            then q ++ [id active] else q) /\
    forall request' o2,
      valid_payload request' = true ->
      enforce_lookup_rate_limit settings w
        (create_lookup settings w o request).1 (client_ip request') = Ok o2 ->
      normalize_hackathon_url (payload_hackathon_url request') = Ok normalized ->
      (create_lookup settings w (create_lookup settings w o request).1 request').2
      = Ok {| lookup_id := id active; response_status := status active |}.
Proof.
  intros Hvalid Hrate Hnormal Hin Hurl Hactive Hqueue.
  destruct (active_lookup_found (database o) normalized job Hin Hurl Hactive)
    as (active & Hfound & Hin' & Hurl' & Hactive').
  destruct (rate_limit_keeps_jobs o o1 _ Hrate)
    as (Hjobs & Hevents & Hresults & Hq & Hsent).
  exists active.
  rewrite (create_lookup_active o o1 request normalized active q
             Hvalid Hrate Hnormal Hfound Hqueue).
  cbn [fst snd].
  set (o' := if bool_decide (status active = Queued)
             then set_queue (Some (q ++ [id active])) o1 else o1).
  assert (Hdb : database o' = database o1)
    by (unfold o'; now case_bool_decide).
  assert (Hsent' : sent o' = sent o1)
    by (unfold o'; now case_bool_decide).
  assert (Hq' : _queue o' = Some (if bool_decide (status active = Queued)
                                  then q ++ [id active] else q)).
  { unfold o'. case_bool_decide; [reflexivity|]. now rewrite Hq. }
  rewrite Hdb, Hsent'.
  repeat split; try assumption; try congruence.
  intros request' o2 Hvalid' Hrate' Hnormal'.
  rewrite (create_lookup_active o' o2 request' normalized active _
             Hvalid' Hrate' Hnormal'
             ltac:(rewrite <- Hfound; apply active_lookup_same_jobs; congruence)
             Hq').
  reflexivity.
Qed.

End active_lookup.

Section active_lookup_sample.
Import config url_utils service db job_orchestrator main.

(** Scenario E on the sample store: the job ["lookup-1"] is started, and
    two submissions of spellings of its target both get ["lookup-1"]. *)
Lemma active_lookup_is_reused_witness :
  (create_lookup default_settings (sample_site.world_of sample_site.badges_env)
     (sample_site.orchestrator_of [sample_site.started_job] [])
     sample_site.sample_request).2
  = Ok {| lookup_id := "lookup-1"; response_status := Started |} /\
  (create_lookup default_settings (sample_site.world_of sample_site.badges_env)
     (create_lookup default_settings (sample_site.world_of sample_site.badges_env)
        (sample_site.orchestrator_of [sample_site.started_job] [])
        sample_site.sample_request).1
     {| payload_hackathon_url := "https://samplehack.devpost.com/";
        client_ip := "198.51.100.9" |}).2
  = Ok {| lookup_id := "lookup-1"; response_status := Started |}.
Proof.
  destruct (active_lookup_is_reused default_settings
              (sample_site.world_of sample_site.badges_env)
              (sample_site.orchestrator_of [sample_site.started_job] [])
              (sample_site.orchestrator_of [sample_site.started_job] [])
              sample_site.sample_request sample_site.hackathon_url
              sample_site.started_job [])
    as (active & Hin & _ & _ & Hfirst & _ & _ & _ & _ & _ & Hsecond).
  - reflexivity.
  - reflexivity.
  - vm_compute. reflexivity.
  - apply list_elem_of_here.
  - reflexivity.
  - reflexivity.
  - reflexivity.
  - apply list_elem_of_singleton in Hin. subst active.
    split; [exact Hfirst|].
    apply (Hsecond _ (create_lookup default_settings
                        (sample_site.world_of sample_site.badges_env)
                        (sample_site.orchestrator_of [sample_site.started_job] [])
                        sample_site.sample_request).1).
    + reflexivity.
    + reflexivity.
    + vm_compute. reflexivity.
Defined.

End active_lookup_sample.

(* ===================================================================== *)
(** * Further properties of the fetch client *)
(* ===================================================================== *)

Section fetch_client_more.
Import config http_client fetch_properties fetch_measures.

Implicit Types (get : Z -> AttemptOutcome) (url : string) (attempt retry_count : Z).

(** The loop is left at the first attempt whose [try] block does not end
    in a caught error. *)
Lemma retry_loop_stops get url retry_count b remaining attempt last_error k n r :
  in_budget retry_count remaining attempt ->
  attempt <= k <= retry_count ->
  (forall a, attempt <= a < k ->
     exists e, attempt_result url (get a) = Caught e) ->
  leaves_loop (attempt_result url (get k)) = Some r ->
  Z.of_nat n = k - attempt + 1 ->
  retry_loop get url retry_count b remaining attempt last_error
  = (attempts_from url b n attempt, r).
Proof.
  unfold in_budget. revert attempt last_error n.
  induction remaining as [|remaining IH]; intros attempt last_error n Hinv Hk Hall Hr Hn;
    [lia|].
  cbn [retry_loop].
  destruct (Z.eq_dec attempt k) as [->|Hne].
  - assert (n = 1%nat) as -> by lia.
    destruct (attempt_result url (get k)); cbn in Hr; inversion Hr; reflexivity.
  - destruct (Hall attempt) as [e He]; [lia|]. rewrite He.
    rewrite bool_decide_eq_false_2 by lia.
    destruct n as [|[|n]]; [lia | lia |].
    rewrite (IH (attempt + 1) (Some e) (S n)); try lia; try assumption.
    + reflexivity.
    + intros a Ha. apply Hall. lia.
Qed.

(** X1. A fetch returns the first response whose status is below 400:
    when the attempts before attempt [k] of the budget fail with errors
    that are retried, and attempt [k] gets such a response, the fetch
    returns that response after exactly [k] requests and the [k - 1]
    back-off sleeps between them, and issues no later request. *)
Theorem fetch_returns_first_answer (settings : Settings) (net : Network) url params
    (max_retries : option Z) (retry_backoff_base_seconds : option Q)
    (k : Z) (response : Response) :
  let retry_count := default (config.max_retries settings) max_retries in
  let backoff_base :=
    default (config.retry_backoff_base_seconds settings)
            retry_backoff_base_seconds in
  1 <= k <= retry_count ->
  (forall a, 1 <= a < k ->
     exists e, attempt_result url (net url params a) = Caught e) ->
  net url params k = Responded response ->
  status_code response < 400 ->
  _fetch_with_retries settings net url params max_retries
    retry_backoff_base_seconds
  = (attempts_from url backoff_base (Z.to_nat k) 1, Ok response) /\
  requests (attempts_from url backoff_base (Z.to_nat k) 1) = seqZ 1 k.
Proof.
  intros retry_count backoff_base Hk Hall Hget Hstatus.
  split.
  - unfold _fetch_with_retries. fold retry_count. fold backoff_base.
    apply (retry_loop_stops _ _ _ _ _ _ _ k); try assumption.
    + unfold in_budget. lia.
    + rewrite Hget. unfold attempt_result.
      rewrite !bool_decide_eq_false_2 by lia. cbn [orb].
      replace (500 <=? status_code response) with false by lia.
      replace (400 <=? status_code response) with false by lia.
      reflexivity.
    + lia.
  - rewrite requests_attempts_from. f_equal. lia.
Qed.

(** A run of X1: the first request times out, the second is answered. *)
Lemma fetch_returns_first_answer_witness :
  _fetch_with_retries default_settings
    (fun _ _ a =>
       if a =? 1 then TimeoutException "read timeout"
       else Responded {| status_code := 200; text := "ok"; json_payload := None |})
    "https://devpost.com/software/x" [] None None
  = ([Get "https://devpost.com/software/x" 1; Sleep (backoff_delay (6 # 10) 1);
      Get "https://devpost.com/software/x" 2],
     Ok {| status_code := 200; text := "ok"; json_payload := None |}).
Proof.
  refine (proj1 (fetch_returns_first_answer default_settings _ _ [] None None 2
                   {| status_code := 200; text := "ok"; json_payload := None |}
                   _ _ _ _)).
  - cbn. lia.
  - intros a Ha. assert (a = 1) as -> by lia. eexists. reflexivity.
  - reflexivity.
  - cbn. lia.
Defined.

(** X2. A denial stops the retries wherever it comes: when the attempts
    before attempt [k] of the budget fail with errors that are retried and
    attempt [k] is answered 403 or 429, the fetch raises [BlockedAppError]
    after exactly [k] requests, whatever is left of the budget. *)
Theorem fetch_denial_stops_retries (settings : Settings) (net : Network) url params
    (max_retries : option Z) (retry_backoff_base_seconds : option Q)
    (k : Z) (response : Response) :
  let retry_count := default (config.max_retries settings) max_retries in
  let backoff_base :=
    default (config.retry_backoff_base_seconds settings)
            retry_backoff_base_seconds in
  1 <= k <= retry_count ->
  (forall a, 1 <= a < k ->
     exists e, attempt_result url (net url params a) = Caught e) ->
  net url params k = Responded response ->
  status_code response = 403 \/ status_code response = 429 ->
  _fetch_with_retries settings net url params max_retries
    retry_backoff_base_seconds
  = (attempts_from url backoff_base (Z.to_nat k) 1,
     Raise (AppErr BlockedAppError
              ("Devpost denied access while fetching " +:+ url
               +:+ " (status " +:+ str_of_int (status_code response) +:+ ")"))) /\
  requests (attempts_from url backoff_base (Z.to_nat k) 1) = seqZ 1 k.
Proof.
  intros retry_count backoff_base Hk Hall Hget Hstatus.
  split.
  - unfold _fetch_with_retries. fold retry_count. fold backoff_base.
    apply (retry_loop_stops _ _ _ _ _ _ _ k); try assumption.
    + unfold in_budget. lia.
    + rewrite Hget. unfold attempt_result.
      destruct Hstatus as [-> | ->]; reflexivity.
    + lia.
  - rewrite requests_attempts_from. f_equal. lia.
Qed.

(** A run of X2: a 503, then a 429 with one attempt of the budget left. *)
Lemma fetch_denial_stops_retries_witness :
  _fetch_with_retries default_settings
    (fun _ _ a =>
       Responded {| status_code := if a =? 1 then 503 else 429;
                    text := ""; json_payload := None |})
    "https://devpost.com/software/x" [] None None
  = ([Get "https://devpost.com/software/x" 1; Sleep (backoff_delay (6 # 10) 1);
      Get "https://devpost.com/software/x" 2],
     Raise (AppErr BlockedAppError
              "Devpost denied access while fetching https://devpost.com/software/x (status 429)")).
Proof.
  refine (proj1 (fetch_denial_stops_retries default_settings _ _ [] None None 2
                   {| status_code := 429; text := ""; json_payload := None |}
                   _ _ _ _)).
  - cbn. lia.
  - intros a Ha. assert (a = 1) as -> by lia. eexists. reflexivity.
  - reflexivity.
  - now right.
Defined.

(** X3. A fetch touches the network exactly when its budget is positive:
    with a budget of at least one attempt the first request is always
    issued, and with a budget below one no request is issued, nothing is
    slept, and the fetch raises the [NetworkAppError] without a cause. *)
Theorem fetch_budget_decides_first_request (settings : Settings) (net : Network)
    url params (max_retries : option Z) (retry_backoff_base_seconds : option Q) :
  let retry_count := default (config.max_retries settings) max_retries in
  let run :=
    _fetch_with_retries settings net url params max_retries
      retry_backoff_base_seconds in
  (1 <= retry_count -> exists effects, run.1 = Get url 1 :: effects) /\
  (retry_count < 1 ->
   run = ([], Raise (AppErr NetworkAppError
                       ("Network error while fetching " +:+ url)))).
Proof.
  intros retry_count run. subst run. unfold _fetch_with_retries.
  fold retry_count. split.
  - intros Hge.
    destruct (retry_loop_effects (net url params) url retry_count
                (default (config.retry_backoff_base_seconds settings)
                   retry_backoff_base_seconds)
                (Z.to_nat retry_count) 1 None) as (n & _ & Hpos & ->).
    + unfold in_budget. lia.
    + destruct n as [|[|n]]; [exfalso; apply Hpos; lia || reflexivity | |];
        eexists; reflexivity.
  - intros Hlt. replace (Z.to_nat retry_count) with O by lia. reflexivity.
Qed.

(** A run of X3: the per-call budget 0 overrides the settings. *)
Lemma fetch_budget_decides_first_request_witness :
  _fetch_with_retries default_settings
    (fun _ _ _ => Responded {| status_code := 200; text := "ok";
                               json_payload := None |})
    "https://devpost.com/software/x" [] (Some 0) None
  = ([], Raise (AppErr NetworkAppError
                  "Network error while fetching https://devpost.com/software/x")).
Proof.
  apply (proj2 (fetch_budget_decides_first_request default_settings _
                  "https://devpost.com/software/x" [] (Some 0) None)).
  cbn. lia.
Defined.

Lemma total_sleep_attempts_from url b n attempt :
  1 <= attempt ->
  (total_sleep (attempts_from url b (S n) attempt)
   == b * inject_Z (2 ^ (attempt - 1) * (2 ^ Z.of_nat n - 1)))%Q.
Proof.
  revert attempt. induction n as [|n IH]; intros attempt Hattempt.
  - cbn. rewrite Z.mul_0_r. unfold inject_Z. ring.
  - rewrite attempts_from_cons. unfold total_sleep in *.
    cbn [sleeps omap list_omap fold_right].
    fold (sleeps (attempts_from url b (S n) (attempt + 1))).
    rewrite IH by lia. unfold backoff_delay.
    rewrite <- Qmult_plus_distr_r, <- inject_Z_plus.
    apply Qmult_comp; [reflexivity|].
    replace (attempt + 1 - 1) with (Z.succ (attempt - 1)) by lia.
    rewrite Z.pow_succ_r by lia.
    rewrite Nat2Z.inj_succ, Z.pow_succ_r by lia.
    replace (2 ^ (attempt - 1) + 2 * 2 ^ (attempt - 1) * (2 ^ Z.of_nat n - 1))
      with (2 ^ (attempt - 1) * (2 * 2 ^ Z.of_nat n - 1)) by ring.
    reflexivity.
Qed.

(** X4. A fetch that uses up its budget has slept, in all,
    [backoff_base * (2^(max_retries - 1) - 1)] seconds: when every attempt
    of a budget of at least one fails with an error that is retried, that
    is the sum of its back-off sleeps. *)
Theorem fetch_total_backoff (settings : Settings) (net : Network) url params
    (max_retries : option Z) (retry_backoff_base_seconds : option Q) :
  let retry_count := default (config.max_retries settings) max_retries in
  let backoff_base :=
    default (config.retry_backoff_base_seconds settings)
            retry_backoff_base_seconds in
  1 <= retry_count ->
  (forall a, 1 <= a <= retry_count ->
     exists e, attempt_result url (net url params a) = Caught e) ->
  (total_sleep
     (_fetch_with_retries settings net url params max_retries
        retry_backoff_base_seconds).1
   == backoff_base * (inject_Z (2 ^ (retry_count - 1)) - 1))%Q.
Proof.
  intros retry_count backoff_base Hge Hall.
  unfold _fetch_with_retries. fold retry_count. fold backoff_base.
  set (e := fun a =>
         match attempt_result url (net url params a) with
         | Caught e => e
         | _ => LastTimeout EmptyString
         end).
  rewrite (retry_loop_exhausted (net url params) url retry_count backoff_base e);
    [| unfold in_budget; lia | lia |].
  - cbn [fst].
    destruct (Z.to_nat retry_count) as [|n] eqn:En; [lia|].
    rewrite total_sleep_attempts_from by lia.
    apply Qmult_comp; [reflexivity|].
    replace (retry_count - 1) with (Z.of_nat n) by lia.
    rewrite Z.pow_0_r, Z.mul_1_l.
    unfold Qeq, Qminus, Qplus, Qopp, inject_Z. cbn [Qnum Qden]. lia.
  - intros a Ha. destruct (Hall a Ha) as [e' He']. subst e. cbn beta.
    now rewrite He'.
Qed.

(** A run of X4: the default budget of three attempts at 0.6 s sleeps
    0.6 s and 1.2 s. *)
Lemma fetch_total_backoff_witness :
  (total_sleep
     (_fetch_with_retries default_settings
        (fun _ _ _ => TimeoutException "read timeout")
        "https://devpost.com/software/x" [] None None).1
   == 18 # 10)%Q.
Proof.
  rewrite (fetch_total_backoff default_settings
             (fun _ _ _ => TimeoutException "read timeout")
             "https://devpost.com/software/x" [] None None).
  - reflexivity.
  - cbn. lia.
  - intros a _. eexists. reflexivity.
Defined.

End fetch_client_more.

(* ===================================================================== *)
(** * Further properties of the URL normaliser *)
(* ===================================================================== *)

Section url_normalisation_more.
Import pystr urllib_parse url_utils url_properties url_utils_more.

#[local] Arguments String.append : simpl nomatch.

Lemma rstrip_by_all q s : all_chars q s = true -> rstrip_by q s = "".
Proof.
  induction s as [|c s IH]; [reflexivity|]. cbn [all_chars rstrip_by].
  intros [Hc Hs]%andb_true_iff. now rewrite (IH Hs), Hc.
Qed.

(** X5. A raw URL made of white space only, the empty one included, is
    rejected with the [ValidationAppError] that asks for a URL. *)
Theorem normalize_blank raw :
  all_chars isspace raw = true ->
  normalize_hackathon_url raw
  = Raise (AppErr ValidationAppError "Hackathon URL is required").
Proof.
  intros Hblank. unfold normalize_hackathon_url, strip.
  rewrite (rstrip_by_all isspace raw Hblank). reflexivity.
Qed.

(** A run of X5: blanks, a tab and a line feed. *)
Lemma normalize_blank_witness :
  normalize_hackathon_url (String " " (String (ascii_of_nat 9)
                             (String (ascii_of_nat 10) " ")))
  = Raise (AppErr ValidationAppError "Hackathon URL is required").
Proof. apply normalize_blank. reflexivity. Defined.

Lemma span_until_spec q s :
  s = (span_until q s).1 +:+ (span_until q s).2 /\
  all_chars (fun c => negb (q c)) (span_until q s).1 = true /\
  match (span_until q s).2 with "" => true | String c _ => q c end = true.
Proof.
  induction s as [|c s (IH1 & IH2 & IH3)]; [now cbn|].
  cbn [span_until]. destruct (q c) eqn:Hc.
  - cbn. now rewrite Hc.
  - destruct (span_until q s) as [a b]. cbn in *. rewrite Hc.
    repeat split; try assumption. now f_equal.
Qed.

Lemma split_once_some c s a b :
  split_once c s = Some (a, b) ->
  s = a +:+ String c b /\ all_chars (fun x => negb (is_char c x)) a = true.
Proof.
  unfold split_once. destruct (span_until_spec (is_char c) s) as (H1 & H2 & H3).
  destruct (span_until (is_char c) s) as [a' [|x b']]; [discriminate|].
  cbn in *. intros [= <- <-]. unfold is_char in H3.
  apply Ascii.eqb_eq in H3. subst x. now split.
Qed.

Lemma split_once_none c s :
  split_once c s = None -> all_chars (fun x => negb (is_char c x)) s = true.
Proof.
  unfold split_once. destruct (span_until_spec (is_char c) s) as (H1 & H2 & H3).
  destruct (span_until (is_char c) s) as [a' [|x b']]; [|discriminate].
  cbn in *. intros _. rewrite H1. now rewrite app_empty_r.
Qed.

Lemma startswith_app s pre :
  startswith s pre = true -> exists rest, s = pre +:+ rest.
Proof.
  revert s. induction pre as [|a pre IH]; intros s; [exists s; reflexivity|].
  destruct s as [|b s]; cbn [startswith]; [discriminate|].
  intros [Hab Hs]%andb_true_iff. apply Ascii.eqb_eq in Hab. subst b.
  destruct (IH s Hs) as [rest ->]. now exists rest.
Qed.

(** The candidate that reaches [urlparse] carries one of the two schemes. *)
Lemma candidate_web_scheme candidate :
  exists s rest,
    web_scheme s /\
    (if negb (startswith candidate "http://" || startswith candidate "https://")
     then "https://" +:+ candidate else candidate)
    = s +:+ "://" +:+ rest.
Proof.
  destruct (startswith candidate "http://") eqn:E1.
  - destruct (startswith_app _ _ E1) as [rest ->].
    exists "http", rest. split; [now left | reflexivity].
  - destruct (startswith candidate "https://") eqn:E2.
    + destruct (startswith_app _ _ E2) as [rest ->].
      exists "https", rest. split; [now right | reflexivity].
    + exists "https", candidate. split; [now right | reflexivity].
Qed.

(** [urlsplit] on a URL with one of the two schemes, whatever follows. *)
Lemma urlsplit_web s rest :
  web_scheme s ->
  urlsplit (s +:+ "://" +:+ rest)
  = let '(netloc, url) :=
      span_until is_netloc_delim (remove_chars is_unsafe_url_byte rest) in
    if (contains (is_char "[") netloc && negb (contains (is_char "]") netloc))
       || (contains (is_char "]") netloc && negb (contains (is_char "[") netloc))
    then Raise (ValueError "Invalid IPv6 URL")
    else
      let '(url, fragment) :=
        match split_once "#" url with
        | Some (u, f) => (u, f)
        | None => (url, "")
        end in
      let '(url, query) :=
        match split_once "?" url with
        | Some (u, q) => (u, q)
        | None => (url, "")
        end in
      Ok (s, netloc, url, query, fragment).
Proof.
  intros [-> | ->]; unfold urlsplit; simpl;
    destruct (span_until is_netloc_delim (remove_chars is_unsafe_url_byte rest))
      as [netloc url]; destruct (_ || _); reflexivity.
Qed.

Lemma rsplit_slash_spec s : s = (rsplit_slash s).1 +:+ (rsplit_slash s).2.
Proof.
  induction s as [|c s IH]; [reflexivity|]. cbn [rsplit_slash].
  destruct (contains (is_char "/") s).
  - destruct (rsplit_slash s) as [dir seg]. cbn in *. now f_equal.
  - destruct (is_char "/" c); reflexivity.
Qed.

(** What [_splitparams] keeps of a path is a prefix of it. *)
Lemma splitparams_prefix p : exists z, p = (_splitparams p).1 +:+ z.
Proof.
  unfold _splitparams. pose proof (rsplit_slash_spec p) as Hp.
  destruct (rsplit_slash p) as [dir seg]. cbn [fst snd] in Hp.
  destruct (split_once ";" seg) as [[before after]|] eqn:E.
  - apply split_once_some in E as [-> _]. cbn [fst].
    exists (String ";" after). now rewrite app_assoc_s.
  - exists "". now rewrite app_empty_r.
Qed.

Lemma all_chars_rstrip_by q p s :
  all_chars q s = true -> all_chars q (rstrip_by p s) = true.
Proof.
  induction s as [|c s IH]; [reflexivity|]. cbn [all_chars rstrip_by].
  intros [Hc Hs]%andb_true_iff. specialize (IH Hs).
  destruct (rstrip_by p s) as [|c' r].
  - destruct (p c); cbn; [reflexivity | now rewrite Hc].
  - cbn [all_chars] in *. now rewrite Hc, IH.
Qed.

Lemma rstrip_by_idem q s : rstrip_by q (rstrip_by q s) = rstrip_by q s.
Proof.
  induction s as [|c s IH]; [reflexivity|]. cbn [rstrip_by].
  destruct (rstrip_by q s) as [|c' r] eqn:E.
  - destruct (q c) eqn:Hc; cbn [rstrip_by]; [reflexivity | now rewrite Hc].
  - cbn [rstrip_by]. cbn [rstrip_by] in IH. now rewrite IH.
Qed.

Lemma all_chars_not_contains q s :
  all_chars (fun c => negb (q c)) s = true <-> contains q s = false.
Proof.
  induction s as [|c s IH]; [now cbn|]. cbn [all_chars contains].
  rewrite andb_true_iff, orb_false_iff, negb_true_iff. tauto.
Qed.

(** A prefix, free of [?] and [#], of a text that is empty or starts with
    one of [/], [?] and [#], is empty or starts with a slash. *)
Lemma prefix_starts_with_slash r p z :
  r = p +:+ z ->
  match r with "" => true | String c _ => is_netloc_delim c end = true ->
  contains (is_char "?") p = false -> contains (is_char "#") p = false ->
  p = "" \/ startswith p "/" = true.
Proof.
  intros -> Hhead Hq Hf. destruct p as [|c p]; [now left | right].
  cbn in Hhead, Hq, Hf. apply orb_false_iff in Hq as [Hq _].
  apply orb_false_iff in Hf as [Hf _].
  unfold is_netloc_delim in Hhead. rewrite Hq, Hf, !orb_false_r in Hhead.
  unfold is_char in Hhead. apply Ascii.eqb_eq in Hhead. now subst c.
Qed.

(** The path that [urlparse] hands to the normaliser, for a URL with one of
    the two schemes: the host has none of [/], [?] and [#], and the path
    is a prefix, free of [?] and [#], of what follows the host. *)
Lemma urlparse_web s rest parsed :
  web_scheme s ->
  urlparse (s +:+ "://" +:+ rest) = Ok parsed ->
  scheme parsed = s /\
  contains is_netloc_delim (netloc parsed) = false /\
  contains (is_char "?") (path parsed) = false /\
  contains (is_char "#") (path parsed) = false /\
  (path parsed = "" \/ startswith (path parsed) "/" = true).
Proof.
  intros Hs. unfold urlparse. rewrite (urlsplit_web s rest Hs).
  destruct (span_until_spec is_netloc_delim
              (remove_chars is_unsafe_url_byte rest)) as (_ & Hhost & Hhead).
  destruct (span_until is_netloc_delim (remove_chars is_unsafe_url_byte rest))
    as [host r]. cbn [fst snd] in Hhost, Hhead.
  destruct (_ || _); [discriminate|].
  assert (Hu : exists u f z,
             match split_once "#" r with
             | Some (u, f) => (u, f)
             | None => (r, "")
             end = (u, f) /\ r = u +:+ z /\ contains (is_char "#") u = false).
  { destruct (split_once "#" r) as [[u f]|] eqn:E.
    - apply split_once_some in E as [-> Hu]. exists u, f, (String "#" f).
      repeat split. now apply all_chars_not_contains.
    - apply split_once_none in E. exists r, "", "".
      repeat split; [now rewrite app_empty_r | now apply all_chars_not_contains]. }
  destruct Hu as (u & f & z & -> & -> & Hf).
  assert (Hp : exists p q z',
             match split_once "?" u with
             | Some (p, q) => (p, q)
             | None => (u, "")
             end = (p, q) /\ u = p +:+ z' /\ contains (is_char "?") p = false).
  { destruct (split_once "?" u) as [[p q]|] eqn:E.
    - apply split_once_some in E as [-> Hp]. exists p, q, (String "?" q).
      repeat split. now apply all_chars_not_contains.
    - apply split_once_none in E. exists u, "", "".
      repeat split; [now rewrite app_empty_r | now apply all_chars_not_contains]. }
  destruct Hp as (p & q & z' & -> & -> & Hq).
  assert (Hf' : contains (is_char "#") p = false).
  { apply all_chars_not_contains in Hf. rewrite all_chars_app in Hf.
    apply andb_true_iff in Hf as [Hf _]. now apply all_chars_not_contains. }
  cbn [mbind result_bind].
  destruct (splitparams_prefix p) as [z'' Hprefix].
  assert (Hpath : forall path z0, p = path +:+ z0 ->
            contains (is_char "?") path = false /\
            contains (is_char "#") path = false /\
            (path = "" \/ startswith path "/" = true)).
  { intros path z0 ->.
    apply all_chars_not_contains in Hq, Hf'. rewrite all_chars_app in Hq, Hf'.
    apply andb_true_iff in Hq as [Hq _]. apply andb_true_iff in Hf' as [Hf' _].
    apply all_chars_not_contains in Hq, Hf'. repeat split; try assumption.
    apply (prefix_starts_with_slash (((path +:+ z0) +:+ z') +:+ z) path
             (z0 +:+ z' +:+ z)); try assumption.
    now rewrite !app_assoc_s. }
  destruct (bool_decide (s ∈ uses_params) && contains (is_char ";") p).
  - destruct (_splitparams p) as [path params] eqn:E. cbn [fst] in Hprefix.
    intros [= <-]. cbn. split; [reflexivity|].
    split; [now apply all_chars_not_contains|]. exact (Hpath path z'' Hprefix).
  - intros [= <-]. cbn. split; [reflexivity|].
    split; [now apply all_chars_not_contains|].
    apply (Hpath p ""). now rewrite app_empty_r.
Qed.

(** X6. Every URL the normaliser returns has the shape
    [scheme://host/path]: the scheme is [http] or [https], the host is not
    empty, has none of [/], [?] and [#] and ends, case ignored, in
    [devpost.com], and the path is empty or starts with a slash, carries
    no query and no fragment, and has no trailing slash. *)
Theorem normalize_shape raw s :
  normalize_hackathon_url raw = Ok s ->
  exists sch host path,
    s = sch +:+ "://" +:+ host +:+ path /\
    web_scheme sch /\
    nonempty host = true /\
    endswith (lower host) "devpost.com" = true /\
    contains is_netloc_delim host = false /\
    (path = "" \/ startswith path "/" = true) /\
    contains (is_char "?") path = false /\
    contains (is_char "#") path = false /\
    rstrip_by (is_char "/") path = path.
Proof.
  unfold normalize_hackathon_url.
  destruct (negb (nonempty (strip raw))); [discriminate|].
  destruct (candidate_web_scheme (strip raw)) as (sch & rest & Hsch & ->).
  destruct (urlparse (sch +:+ "://" +:+ rest)) as [parsed|e] eqn:Eparse;
    [|discriminate].
  destruct (urlparse_web sch rest parsed Hsch Eparse)
    as (Hscheme & Hhost & Hq & Hf & Hstart).
  cbn [mbind result_bind].
  destruct (nonempty (netloc parsed)) eqn:Enet; [|discriminate]. cbn [negb].
  destruct (endswith (lower (netloc parsed)) "devpost.com") eqn:Edev;
    [|discriminate]. cbn [negb].
  rewrite cleaned_path_rstrip. intros [= <-].
  exists sch, (netloc parsed), (rstrip_by (is_char "/") (path parsed)).
  split.
  - unfold urlunparse, urlunsplit.
    cbn [params path urllib_parse.scheme netloc query fragment nonempty String.eqb negb].
    rewrite Hscheme. fold (nonempty (netloc parsed)). rewrite Enet. cbn [orb].
    fold (nonempty (rstrip_by (is_char "/") (path parsed))).
    rewrite (rstrip_slash_start (path parsed) Hstart).
    assert (Hne : nonempty sch = true) by (destruct Hsch as [-> | ->]; reflexivity).
    rewrite Hne. reflexivity.
  - repeat split; try assumption.
    + pose proof (rstrip_slash_start (path parsed) Hstart) as H.
      destruct (rstrip_by (is_char "/") (path parsed)) as [|c p]; [now left|].
      right. cbn [nonempty String.eqb negb andb] in H.
      now apply negb_false_iff in H.
    + apply all_chars_not_contains, all_chars_rstrip_by.
      now apply all_chars_not_contains.
    + apply all_chars_not_contains, all_chars_rstrip_by.
      now apply all_chars_not_contains.
    + apply rstrip_by_idem.
Qed.

(** A run of X6: a spelling with a query, upper case in the host and
    trailing slashes. *)
Lemma normalize_shape_witness :
  exists sch host path,
    "https://SampleHack.Devpost.com/a/b" = sch +:+ "://" +:+ host +:+ path /\
    web_scheme sch /\
    nonempty host = true /\
    endswith (lower host) "devpost.com" = true /\
    contains is_netloc_delim host = false /\
    (path = "" \/ startswith path "/" = true) /\
    contains (is_char "?") path = false /\
    contains (is_char "#") path = false /\
    rstrip_by (is_char "/") path = path.
Proof.
  apply (normalize_shape "  SampleHack.Devpost.com/a/b//?tab=1#top ").
  vm_compute. reflexivity.
Defined.

Lemma startswith_refl s : startswith s s = true.
Proof.
  induction s as [|c s IH]; [reflexivity|]. cbn [startswith].
  now rewrite Ascii.eqb_refl, IH.
Qed.

(** X7. [same_hackathon] on two URLs that parse: a URL names the same
    hackathon as itself; URLs whose hosts differ, case ignored, never do;
    and a target whose path is empty or made of slashes only names the
    same hackathon as every URL of its host. *)
Theorem same_hackathon_host_and_root target challenge pt pc :
  urlparse target = Ok pt ->
  urlparse challenge = Ok pc ->
  same_hackathon target target = Ok true /\
  (lower (netloc pt) <> lower (netloc pc) ->
   same_hackathon target challenge = Ok false) /\
  (lower (netloc pt) = lower (netloc pc) ->
   all_chars (is_char "/") (path pt) = true ->
   same_hackathon target challenge = Ok true).
Proof.
  intros Ht Hc. unfold same_hackathon. rewrite Ht, Hc. cbn [mbind result_bind].
  repeat split.
  - rewrite String.eqb_refl. cbn [negb].
    destruct (_ || _); [reflexivity|]. now rewrite startswith_refl.
  - intros Hne. apply String.eqb_neq in Hne. now rewrite Hne.
  - intros Heq Hroot. rewrite Heq, String.eqb_refl. cbn [negb].
    now rewrite (rstrip_by_all _ _ Hroot).
Qed.

(** A run of X7: the root of a hackathon and one of its project pages,
    the host in another case. *)
Lemma same_hackathon_host_and_root_witness :
  same_hackathon "https://samplehack.devpost.com/"
    "https://SampleHack.devpost.com/software/x" = Ok true.
Proof.
  eapply (same_hackathon_host_and_root "https://samplehack.devpost.com/"
            "https://SampleHack.devpost.com/software/x").
  - vm_compute. reflexivity.
  - vm_compute. reflexivity.
  - vm_compute. reflexivity.
  - vm_compute. reflexivity.
Defined.

End url_normalisation_more.

(* ===================================================================== *)
(** * Properties of the job store *)
(* ===================================================================== *)

Section job_store.
Import config service db store_properties.

Lemma find_snoc {A} (f : A -> bool) (l : list A) (x : A) :
  List.find f (l ++ [x])
  = match List.find f l with
    | Some y => Some y
    | None => if f x then Some x else None
    end.
Proof.
  induction l as [|a l IH]; [reflexivity|]. cbn. now destruct (f a).
Qed.

(** X8. A job created under an id that is not in [lookup_jobs] is handed
    back by [get_lookup_job] as a queued row with the given URL and time
    and no other field set; the rows of the other ids are as before, and a
    second creation under the same id is refused with the integrity error
    of the primary key. *)
Theorem create_lookup_job_round_trip d lookup_id url now url' now' :
  get_lookup_job d lookup_id = None ->
  exists d',
    create_lookup_job d lookup_id url now = Ok d' /\
    get_lookup_job d' lookup_id
    = Some {| id := lookup_id; hackathon_url := url; status := Queued;
              created_at := now; started_at := None; finished_at := None;
              error_code := None; error_message := None |} /\
    (forall other, other <> lookup_id ->
       get_lookup_job d' other = get_lookup_job d other) /\
    job_ids d' = job_ids d ++ [lookup_id] /\
    create_lookup_job d' lookup_id url' now'
    = Raise (IntegrityError "UNIQUE constraint failed: lookup_jobs.id").
Proof.
  intros Hfree. unfold create_lookup_job at 1. rewrite Hfree.
  eexists. split; [reflexivity|].
  assert (Hget : get_lookup_job
            (set_lookup_jobs
               (lookup_jobs d ++
                [{| id := lookup_id; hackathon_url := url; status := Queued;
                    created_at := now; started_at := None; finished_at := None;
                    error_code := None; error_message := None |}]) d) lookup_id
          = Some {| id := lookup_id; hackathon_url := url; status := Queued;
                    created_at := now; started_at := None; finished_at := None;
                    error_code := None; error_message := None |}).
  { unfold get_lookup_job in *. cbn [set_lookup_jobs lookup_jobs].
    rewrite find_snoc, Hfree. cbn [id]. now rewrite String.eqb_refl. }
  repeat split.
  - exact Hget.
  - intros other Hother. unfold get_lookup_job. cbn [set_lookup_jobs lookup_jobs].
    rewrite find_snoc. destruct (List.find _ (lookup_jobs d)); [reflexivity|].
    cbn [id]. apply String.eqb_neq in Hother. rewrite String.eqb_sym in Hother.
    now rewrite Hother.
  - unfold job_ids. cbn [set_lookup_jobs lookup_jobs]. now rewrite fmap_app.
  - unfold create_lookup_job. now rewrite Hget.
Qed.

(** A run of X8 on the sample store, under a new id. *)
Lemma create_lookup_job_round_trip_witness :
  exists d',
    create_lookup_job (sample_site.store_of [sample_site.queued_job])
      "lookup-2" "https://other.devpost.com" "2026-01-02T00:00:00.000000Z"
    = Ok d' /\
    job_ids d' = ["lookup-1"; "lookup-2"].
Proof.
  destruct (create_lookup_job_round_trip
              (sample_site.store_of [sample_site.queued_job])
              "lookup-2" "https://other.devpost.com" "2026-01-02T00:00:00.000000Z"
              "https://other.devpost.com" "2026-01-03T00:00:00.000000Z" eq_refl)
    as (d' & Hcreate & _ & _ & Hids & _).
  exists d'. split; [exact Hcreate | exact Hids].
Defined.

Lemma find_replace_result lookup_id row (rows : list ResultRow) :
  result_lookup_job_id row = lookup_id ->
  existsb (fun x => String.eqb (result_lookup_job_id x) lookup_id) rows = true ->
  List.find (fun x => String.eqb (result_lookup_job_id x) lookup_id)
    ((fun x => if String.eqb (result_lookup_job_id x) lookup_id then row else x)
       <$> rows)
  = Some row.
Proof.
  intros Hrow. induction rows as [|x rows IH]; [discriminate|].
  cbn. destruct (String.eqb (result_lookup_job_id x) lookup_id) eqn:E.
  - intros _. cbn. now rewrite Hrow, String.eqb_refl.
  - cbn. rewrite E. exact IH.
Qed.

Lemma find_replace_other lookup_id other row (rows : list ResultRow) :
  result_lookup_job_id row = lookup_id -> other <> lookup_id ->
  List.find (fun x => String.eqb (result_lookup_job_id x) other)
    ((fun x => if String.eqb (result_lookup_job_id x) lookup_id then row else x)
       <$> rows)
  = List.find (fun x => String.eqb (result_lookup_job_id x) other) rows.
Proof.
  intros Hrow Hother. induction rows as [|x rows IH]; [reflexivity|].
  cbn. destruct (String.eqb (result_lookup_job_id x) lookup_id) eqn:E.
  - apply String.eqb_eq in E. rewrite Hrow, E.
    apply String.eqb_neq in Hother. rewrite String.eqb_sym in Hother.
    now rewrite Hother.
  - destruct (String.eqb (result_lookup_job_id x) other); [reflexivity | exact IH].
Qed.

Lemma replace_result_ids lookup_id row (rows : list ResultRow) :
  result_lookup_job_id row = lookup_id ->
  result_lookup_job_id <$>
    ((fun x => if String.eqb (result_lookup_job_id x) lookup_id then row else x)
       <$> rows)
  = result_lookup_job_id <$> rows.
Proof.
  intros Hrow. induction rows as [|x rows IH]; [reflexivity|].
  cbn. rewrite IH. f_equal.
  destruct (String.eqb (result_lookup_job_id x) lookup_id) eqn:E; [|reflexivity].
  apply String.eqb_eq in E. congruence.
Qed.

Lemma existsb_result_ids lookup_id (rows : list ResultRow) :
  existsb (fun x => String.eqb (result_lookup_job_id x) lookup_id) rows = false ->
  lookup_id ∉ result_lookup_job_id <$> rows.
Proof.
  induction rows as [|x rows IH]; cbn; [intros _; apply not_elem_of_nil|].
  intros [Hx Hrows]%orb_false_iff. apply not_elem_of_cons. split; [|auto].
  apply String.eqb_neq in Hx. congruence.
Qed.

(** X9. [save_lookup_result] is an upsert: the result it stores is the one
    [get_lookup_result] hands back, the results of the other lookups are
    as before, a lookup that had a result keeps one row and a lookup that
    had none gets one, so that the keys of [lookup_results] stay pairwise
    distinct, and the job table is not touched. *)
Theorem save_lookup_result_upsert d lookup_id r now :
  let d' := save_lookup_result d lookup_id r now in
  get_lookup_result d' lookup_id = Some r /\
  (forall other, other <> lookup_id ->
     get_lookup_result d' other = get_lookup_result d other) /\
  result_ids d'
  = (if bool_decide (lookup_id ∈ result_ids d) then result_ids d
     else result_ids d ++ [lookup_id]) /\
  (NoDup (result_ids d) -> NoDup (result_ids d')) /\
  lookup_jobs d' = lookup_jobs d.
Proof.
  cbv zeta. unfold get_lookup_result, result_ids, save_lookup_result.
  cbn [lookup_results lookup_jobs].
  set (row := {| result_lookup_job_id := lookup_id; result_json := r;
                 result_created_at := now |}).
  destruct (existsb _ (lookup_results d)) eqn:E.
  - assert (Hin : lookup_id ∈ result_lookup_job_id <$> lookup_results d).
    { apply existsb_exists in E as (x & Hx & Heq). apply String.eqb_eq in Heq.
      apply list_elem_of_fmap. exists x. split; [congruence|].
      now apply list_elem_of_In. }
    rewrite (bool_decide_eq_true_2 _ Hin).
    rewrite (find_replace_result lookup_id row) by (reflexivity || assumption).
    rewrite (replace_result_ids lookup_id row) by reflexivity.
    repeat split; try assumption; [|auto].
    intros other Hother. now rewrite (find_replace_other lookup_id other row).
  - pose proof (existsb_result_ids _ _ E) as Hnot.
    rewrite (bool_decide_eq_false_2 _ Hnot).
    assert (Hnone : List.find
              (fun x => String.eqb (result_lookup_job_id x) lookup_id)
              (lookup_results d) = None).
    { destruct (List.find _ (lookup_results d)) as [x|] eqn:F; [|reflexivity].
      apply List.find_some in F as [Hx Heq].
      assert (existsb (fun x => String.eqb (result_lookup_job_id x) lookup_id)
                (lookup_results d) = true)
        by (apply existsb_exists; eauto).
      congruence. }
    rewrite !find_snoc, Hnone. cbn [result_lookup_job_id row].
    rewrite String.eqb_refl, fmap_app. cbn [fmap list_fmap].
    repeat split.
    + intros other Hother. rewrite ?find_snoc.
      destruct (List.find (fun x => String.eqb (result_lookup_job_id x) other)
                  (lookup_results d)); [reflexivity|].
      cbn [result_lookup_job_id row].
      apply String.eqb_neq in Hother. rewrite String.eqb_sym in Hother.
      now rewrite Hother.
    + intros Hnd. apply NoDup_app. repeat split; [assumption | | apply NoDup_singleton].
      intros x Hx Hx'. apply list_elem_of_singleton in Hx'. now subst x.
Qed.

(** A run of X9: a first result of a lookup is stored, a second one
    replaces it. *)
Lemma save_lookup_result_upsert_witness :
  let d1 := save_lookup_result (sample_site.store_of [sample_site.queued_job])
              "lookup-1" sample_site.sample_result "2026-01-01T00:00:03.000000Z" in
  NoDup (result_ids
           (save_lookup_result d1 "lookup-1" sample_site.sample_result
              "2026-01-01T00:00:04.000000Z")) /\
  result_ids (save_lookup_result d1 "lookup-1" sample_site.sample_result
                "2026-01-01T00:00:04.000000Z") = ["lookup-1"].
Proof.
  cbv zeta.
  destruct (save_lookup_result_upsert
              (save_lookup_result (sample_site.store_of [sample_site.queued_job])
                 "lookup-1" sample_site.sample_result "2026-01-01T00:00:03.000000Z")
              "lookup-1" sample_site.sample_result "2026-01-01T00:00:04.000000Z")
    as (_ & _ & Hids & Hnd & _).
  split; [|exact Hids].
  apply Hnd. vm_compute. apply NoDup_singleton.
Defined.

Lemma ltb_asym a b : String.ltb a b = true -> String.ltb b a = false.
Proof.
  unfold String.ltb. rewrite (String.compare_antisym a b).
  now destruct (String.compare b a).
Qed.

Lemma ltb_le_trans a b c :
  String.ltb a b = true -> String.ltb c b = false -> String.ltb a c = true.
Proof.
  unfold String.ltb. intros Hab Hcb.
  destruct (String.compare a b) eqn:Eab; try discriminate.
  apply OrderedTypeEx.String_as_OT.cmp_lt in Eab.
  rewrite (String.compare_antisym c b) in Hcb.
  destruct (String.compare b c) eqn:Ebc; try discriminate.
  - apply String.compare_eq_iff in Ebc. subst c.
    apply OrderedTypeEx.String_as_OT.cmp_lt in Eab.
    unfold OrderedTypeEx.String_as_OT.cmp in Eab. now rewrite Eab.
  - apply OrderedTypeEx.String_as_OT.cmp_lt in Ebc.
    pose proof (OrderedTypeEx.String_as_OT.lt_trans _ _ _ Eab Ebc) as Hac.
    apply OrderedTypeEx.String_as_OT.cmp_lt in Hac.
    unfold OrderedTypeEx.String_as_OT.cmp in Hac. now rewrite Hac.
Qed.

Lemma earliest_created_least rows row :
  earliest_created rows = Some row ->
  forall other, other ∈ rows -> ~ created_before other row.
Proof.
  unfold created_before. revert row.
  induction rows as [|r rows IH]; intros row; cbn [earliest_created];
    [discriminate|].
  destruct (earliest_created rows) as [r'|] eqn:E.
  - destruct (String.ltb (created_at r') (created_at r)) eqn:Hlt; intros [= <-].
    + intros other [-> | Hin]%elem_of_cons.
      * rewrite (ltb_asym _ _ Hlt). discriminate.
      * now apply IH.
    + intros other [-> | Hin]%elem_of_cons Hother.
      * unfold String.ltb in Hother, Hlt.
        destruct (String.compare (created_at r) (created_at r)) eqn:Err;
          try discriminate.
        pose proof (String.compare_antisym (created_at r) (created_at r)) as Ha.
        rewrite Err in Ha. discriminate.
      * apply (IH r' eq_refl other Hin). eapply ltb_le_trans; eassumption.
  - intros [= <-]. destruct rows as [|r0 rows]; [|cbn in E;
      destruct (earliest_created rows) as [x|];
      [destruct (String.ltb (created_at x) (created_at r0))|]; discriminate].
    intros other ->%list_elem_of_singleton Hother.
    unfold String.ltb in Hother.
    destruct (String.compare (created_at r) (created_at r)) eqn:Err;
      try discriminate.
    pose proof (String.compare_antisym (created_at r) (created_at r)) as Ha.
    rewrite Err in Ha. discriminate.
Qed.

(** X10. [get_latest_active_lookup_for_url] hands back the oldest active
    job of a URL: a row of [lookup_jobs] with that URL whose status is
    queued or started, such that no active row of the URL was created
    strictly before it; and it hands back nothing exactly when the URL
    has no active row. *)
Theorem latest_active_is_oldest d url :
  match get_latest_active_lookup_for_url d url with
  | Some job =>
      job ∈ lookup_jobs d /\ active_for url job /\
      forall other, other ∈ lookup_jobs d -> active_for url other ->
                    ~ created_before other job
  | None => forall other, other ∈ lookup_jobs d -> ~ active_for url other
  end.
Proof.
  unfold get_latest_active_lookup_for_url.
  set (keep := fun job : LookupJob =>
                 String.eqb (hackathon_url job) url && is_active job = true).
  assert (Hkeep : forall job, job ∈ filter keep (lookup_jobs d) <->
                              active_for url job /\ job ∈ lookup_jobs d).
  { intros job. rewrite list_elem_of_filter. unfold keep, active_for.
    rewrite andb_true_iff, String.eqb_eq. tauto. }
  destruct (earliest_created (filter keep (lookup_jobs d))) as [job|] eqn:E.
  - pose proof (earliest_created_elem _ _ E) as Hin. apply Hkeep in Hin as [Ha Hin].
    repeat split; try assumption; try apply Ha.
    intros other Hother Hactive.
    apply (earliest_created_least _ _ E). apply Hkeep. now split.
  - intros other Hother Hactive.
    assert (Hin : other ∈ filter keep (lookup_jobs d)) by (apply Hkeep; now split).
    destruct (filter keep (lookup_jobs d)) as [|r rows];
      [now apply elem_of_nil in Hin|].
    destruct (earliest_created_cons r rows) as [row Hrow]. congruence.
Qed.

(** A run of X10: of a started and a later queued job of one URL, the
    started one is handed back. *)
Lemma latest_active_is_oldest_witness :
  get_latest_active_lookup_for_url
    (sample_site.store_of
       [{| id := "lookup-9"; hackathon_url := sample_site.hackathon_url;
           status := Queued; created_at := "2026-01-01T00:00:05.000000Z";
           started_at := None; finished_at := None;
           error_code := None; error_message := None |};
        sample_site.started_job])
    sample_site.hackathon_url
  = Some sample_site.started_job.
Proof.
  pose proof (latest_active_is_oldest
                (sample_site.store_of
                   [{| id := "lookup-9"; hackathon_url := sample_site.hackathon_url;
                       status := Queued; created_at := "2026-01-01T00:00:05.000000Z";
                       started_at := None; finished_at := None;
                       error_code := None; error_message := None |};
                    sample_site.started_job])
                sample_site.hackathon_url) as H.
  destruct (get_latest_active_lookup_for_url _ _) as [job|] eqn:E.
  - destruct H as (Hin & _ & Hleast).
    apply elem_of_cons in Hin as [-> | ->%list_elem_of_singleton]; [|reflexivity].
    exfalso. apply (Hleast sample_site.started_job).
    + right. left.
    + split; reflexivity.
    + reflexivity.
  - exfalso. apply (H sample_site.started_job); [right; left | split; reflexivity].
Defined.

End job_store.

(* ===================================================================== *)
(** * Further properties of the job orchestrator *)
(* ===================================================================== *)

Section orchestrator_more.
Import config service db job_orchestrator store_properties orchestrator_properties.

Context (w : World).

Lemma send_all_spec sockets e o :
  database (send_all w sockets e o).1 = database o /\
  _queue (send_all w sockets e o).1 = _queue o /\
  _worker_task (send_all w sockets e o).1 = _worker_task o /\
  _subscribers (send_all w sockets e o).1 = _subscribers o /\
  ticks (send_all w sockets e o).1 = ticks o /\
  sent (send_all w sockets e o).1 = sent o ++ sends_to sockets e /\
  (send_all w sockets e o).2 = filter (fun s => send_fails w s = true) sockets.
Proof.
  revert o. induction sockets as [|s sockets IH]; intros o.
  - cbn. now rewrite app_nil_r.
  - cbn [send_all]. specialize (IH (record_send s e o)).
    destruct (send_all w sockets e (record_send s e o)) as [o1 stale].
    cbn [fst snd] in *. destruct IH as (-> & -> & -> & -> & -> & -> & ->).
    cbn [record_send database _queue _worker_task _subscribers ticks sent].
    repeat split.
    + rewrite <- app_assoc. reflexivity.
    + rewrite filter_cons. destruct (send_fails w s); reflexivity.
Qed.

(** X11. While the worker runs, [_broadcast] hands the event to every
    subscriber of the lookup once, in the order of the set; afterwards
    the subscribers of the lookup are those whose [send_json] did not
    fail, and the subscribers of the other lookups, the database and the
    queue are as before. *)
Theorem broadcast_drops_stale_sockets o lookup_id e :
  _worker_task o = true ->
  sent (_broadcast w o lookup_id e)
  = sent o ++ sends_to (elements (subscribers_of o lookup_id)) e /\
  (forall s, s ∈ subscribers_of (_broadcast w o lookup_id e) lookup_id <->
             s ∈ subscribers_of o lookup_id /\ send_fails w s = false) /\
  (forall other, other <> lookup_id ->
     _subscribers (_broadcast w o lookup_id e) !! other = _subscribers o !! other) /\
  database (_broadcast w o lookup_id e) = database o /\
  _queue (_broadcast w o lookup_id e) = _queue o.
Proof.
  intros Hstarted. unfold _broadcast, subscribers_of. rewrite Hstarted. cbn [negb].
  set (S := default ∅ (_subscribers o !! lookup_id)).
  destruct (elements S) as [|s0 sockets] eqn:Esockets.
  - apply elements_empty_inv in Esockets. apply leibniz_equiv in Esockets.
    rewrite app_nil_r. fold S. rewrite Esockets.
    split; [reflexivity|]. split; [|repeat split].
    intros s. split; [intros Hs | intros [Hs _]]; now apply not_elem_of_empty in Hs.
  - rewrite <- Esockets.
    destruct (send_all_spec (elements S) e o)
      as (Hdb & Hq & Hw & Hsubs & Ht & Hsent & Hstale).
    destruct (send_all w (elements S) e o) as [o1 stale]. cbn [fst snd] in *.
    assert (Hfails : forall s, s ∈ stale <-> s ∈ S /\ send_fails w s = true).
    { intros s. rewrite Hstale, list_elem_of_filter, elem_of_elements. tauto. }
    destruct stale as [|s1 stale].
    + rewrite Hsubs. fold S.
      split; [exact Hsent|]. split; [|repeat split; assumption].
      intros s. split; [intros Hs | now intros [Hs _]]. split; [exact Hs|].
      destruct (send_fails w s) eqn:Ef; [|reflexivity].
      exfalso. apply (not_elem_of_nil s). apply Hfails. now split.
    + rewrite Hsubs. destruct (_subscribers o !! lookup_id) as [current|] eqn:Ecur.
      * cbn [set_subscribers database _queue sent _subscribers].
        rewrite lookup_insert_eq. subst S. cbn [from_option Datatypes.id] in *.
        split; [exact Hsent|]. split; [|split; [|split; assumption]].
        -- intros s. split.
           ++ intros [Hs Hn]%elem_of_difference. split; [exact Hs|].
              destruct (send_fails w s) eqn:Ef; [|reflexivity].
              exfalso. apply Hn, elem_of_list_to_set, Hfails. now split.
           ++ intros [Hs Hok]. apply elem_of_difference. split; [exact Hs|].
              intros Hin%elem_of_list_to_set%Hfails. destruct Hin. congruence.
        -- intros other Hother. now rewrite lookup_insert_ne.
      * subst S. cbn [from_option] in Esockets. rewrite elements_empty in Esockets.
        discriminate.
Qed.

End orchestrator_more.

Section orchestrator_more_samples.
Import config service db job_orchestrator store_properties orchestrator_properties.

(** A run of X11: socket 2 is closed, socket 1 is not. *)
Lemma broadcast_drops_stale_sockets_witness :
  let o' := _broadcast (sample_site.flaky_world sample_site.badges_env)
              sample_site.listening "lookup-1"
              (started "lookup-1", "2026-01-01T00:00:01.000000Z") in
  1%nat ∈ subscribers_of o' "lookup-1" /\ 2%nat ∉ subscribers_of o' "lookup-1".
Proof.
  cbv zeta.
  destruct (broadcast_drops_stale_sockets
              (sample_site.flaky_world sample_site.badges_env)
              sample_site.listening "lookup-1"
              (started "lookup-1", "2026-01-01T00:00:01.000000Z") eq_refl)
    as (_ & Hsubs & _).
  split.
  - apply Hsubs. split; [|reflexivity].
    unfold subscribers_of, sample_site.listening. cbn [_subscribers].
    rewrite lookup_singleton_eq. cbn. set_solver.
  - intros [_ Hfails]%Hsubs. discriminate.
Defined.

End orchestrator_more_samples.

(* ===================================================================== *)
(** * Subscriptions and published events *)
(* ===================================================================== *)

Section subscriptions.
Import config service db job_orchestrator store_properties orchestrator_properties.

Context (w : World).

(** X12. While the worker runs, [subscribe] adds the socket to the
    subscribers of the lookup and keeps the others; [unsubscribe] of that
    socket removes it again; when the socket is new and the lookup has no
    empty subscriber set on record, the two together give back the
    subscriber table they started from; and [unsubscribe] never leaves an
    empty subscriber set behind for the lookup. *)
Theorem unsubscribe_undoes_subscribe o lookup_id websocket :
  _worker_task o = true ->
  (exists o1,
     subscribe o lookup_id websocket = Ok o1 /\
     (forall s, s ∈ subscribers_of o1 lookup_id <->
                s = websocket \/ s ∈ subscribers_of o lookup_id) /\
     (websocket ∉ subscribers_of (unsubscribe o1 lookup_id websocket) lookup_id) /\
     (websocket ∉ subscribers_of o lookup_id ->
      _subscribers o !! lookup_id <> Some ∅ ->
      _subscribers (unsubscribe o1 lookup_id websocket) = _subscribers o)) /\
  _subscribers (unsubscribe o lookup_id websocket) !! lookup_id <> Some ∅.
Proof.
  intros Hstarted. split.
  - unfold subscribe. rewrite Hstarted. cbn [negb]. eexists. split; [reflexivity|].
    unfold subscribers_of, unsubscribe.
    cbn [set_subscribers _subscribers _worker_task]. rewrite Hstarted. cbn [negb].
    rewrite !lookup_insert_eq. cbn [from_option Datatypes.id].
    set (S := default ∅ (_subscribers o !! lookup_id)).
    split; [intros s; set_solver|].
    case_bool_decide as Hempty; cbn [set_subscribers _subscribers].
    + split.
      * rewrite lookup_delete_eq. cbn. apply not_elem_of_empty.
      * intros Hnew Hrecord. rewrite delete_insert_eq.
        apply delete_id. destruct (_subscribers o !! lookup_id) as [S0|] eqn:E;
          [|reflexivity].
        exfalso. apply Hrecord. f_equal. subst S. cbn in *.
        apply leibniz_equiv. set_solver.
    + split.
      * rewrite lookup_insert_eq. cbn. set_solver.
      * intros Hnew Hrecord. rewrite insert_insert_eq.
        destruct (_subscribers o !! lookup_id) as [S0|] eqn:E.
        -- apply insert_id. rewrite E. f_equal. subst S. cbn in *.
           apply leibniz_equiv. set_solver.
        -- exfalso. apply Hempty. subst S. cbn. apply leibniz_equiv. set_solver.
  - unfold unsubscribe. rewrite Hstarted. cbn [negb].
    destruct (_subscribers o !! lookup_id) as [S0|] eqn:E; [|now rewrite E].
    case_bool_decide as Hempty; cbn [set_subscribers _subscribers].
    + now rewrite lookup_delete_eq.
    + rewrite lookup_insert_eq. congruence.
Qed.

Lemma broadcast_sent o lookup_id e :
  sent (_broadcast w o lookup_id e)
  = sent o ++ (if _worker_task o
               then sends_to (elements (subscribers_of o lookup_id)) e else []).
Proof.
  unfold _broadcast, subscribers_of.
  destruct (_worker_task o); cbn [negb]; [|now rewrite app_nil_r].
  destruct (elements (default ∅ (_subscribers o !! lookup_id))) as [|s l] eqn:E;
    [now rewrite app_nil_r|].
  destruct (send_all_spec w (s :: l) e o) as (_ & _ & _ & _ & _ & Hsent & _).
  destruct (send_all w (s :: l) e o) as [o1 stale]. cbn [fst] in Hsent.
  destruct stale; [exact Hsent|].
  destruct (_subscribers o1 !! lookup_id); exact Hsent.
Qed.

Lemma broadcast_ticks o lookup_id e : ticks (_broadcast w o lookup_id e) = ticks o.
Proof.
  unfold _broadcast. destruct (negb (_worker_task o)); [reflexivity|].
  destruct (elements _) as [|s l]; [reflexivity|].
  destruct (send_all_spec w (s :: l) e o) as (_ & _ & _ & _ & Ht & _).
  destruct (send_all w (s :: l) e o) as [o1 stale]. cbn [fst] in Ht.
  destruct stale; [exact Ht|].
  destruct (_subscribers o1 !! lookup_id); exact Ht.
Qed.

Lemma broadcast_queue o lookup_id e :
  _queue (_broadcast w o lookup_id e) = _queue o /\
  _worker_task (_broadcast w o lookup_id e) = _worker_task o.
Proof.
  unfold _broadcast. destruct (negb (_worker_task o)); [now split|].
  destruct (elements _) as [|s l]; [now split|].
  destruct (send_all_spec w (s :: l) e o) as (_ & Hq & Hw & _).
  destruct (send_all w (s :: l) e o) as [o1 stale]. cbn [fst] in Hq, Hw.
  destruct stale; [now split|].
  destruct (_subscribers o1 !! lookup_id); now split.
Qed.

Lemma list_progress_events_snoc d lookup_id other e now :
  list_progress_events (insert_progress_event d lookup_id e now).1 other
  = list_progress_events d other
    ++ (if String.eqb lookup_id other then [(e, now)] else []).
Proof.
  unfold list_progress_events, insert_progress_event.
  cbn [fst lookup_progress_events].
  rewrite filter_app, fmap_app. f_equal.
  rewrite filter_cons, filter_nil. cbn [lookup_job_id].
  destruct (String.eqb lookup_id other) eqn:E.
  - rewrite decide_True by reflexivity. reflexivity.
  - rewrite decide_False by discriminate. reflexivity.
Qed.

(** X13. [publish_event] stores the event, stamped with the time of the
    call, at the end of the history of its lookup and only there, and then
    hands the stamped event to every subscriber of the lookup; when the
    worker is not running it is stored all the same and sent to nobody.
    The job table and the results are not touched. *)
Theorem publish_event_stores_then_sends o lookup_id e :
  let o' := publish_event w o lookup_id e in
  let stamped := (e, utcnow_iso w o) in
  list_progress_events (database o') lookup_id
  = list_progress_events (database o) lookup_id ++ [stamped] /\
  (forall other, other <> lookup_id ->
     list_progress_events (database o') other
     = list_progress_events (database o) other) /\
  sent o'
  = sent o ++ (if _worker_task o
               then sends_to (elements (subscribers_of o lookup_id)) stamped
               else []) /\
  lookup_jobs (database o') = lookup_jobs (database o) /\
  lookup_results (database o') = lookup_results (database o).
Proof.
  cbv zeta. unfold publish_event.
  pose proof (list_progress_events_snoc (database o) lookup_id) as Hsnoc.
  destruct (insert_progress_event (database o) lookup_id e (utcnow_iso w o))
    as [d ev] eqn:E.
  assert (Hd : d = (insert_progress_event (database o) lookup_id e
                      (utcnow_iso w o)).1) by now rewrite E.
  assert (Hev : ev = (e, utcnow_iso w o)) by (now inversion E).
  rewrite broadcast_database, broadcast_sent. cbn [tick set_database database sent
    _worker_task]. subst d ev.
  split; [|split; [|split; [|split]]].
  - rewrite Hsnoc, String.eqb_refl. reflexivity.
  - intros other Hother. rewrite Hsnoc.
    apply String.eqb_neq in Hother. rewrite String.eqb_sym in Hother.
    rewrite Hother. apply app_nil_r.
  - reflexivity.
  - reflexivity.
  - reflexivity.
Qed.

End subscriptions.

Section subscriptions_samples.
Import config service db job_orchestrator store_properties orchestrator_properties.

(** A run of X12: socket 3 subscribes to the lookup of the sample
    listeners and leaves again. *)
Lemma unsubscribe_undoes_subscribe_witness :
  exists o1,
    subscribe sample_site.listening "lookup-1" 3 = Ok o1 /\
    _subscribers (unsubscribe o1 "lookup-1" 3)
    = _subscribers sample_site.listening.
Proof.
  destruct (unsubscribe_undoes_subscribe sample_site.listening "lookup-1" 3 eq_refl)
    as [(o1 & Hsub & _ & _ & Hback) _].
  exists o1. split; [exact Hsub|]. apply Hback.
  - unfold subscribers_of, sample_site.listening. cbn [_subscribers].
    rewrite lookup_singleton_eq. cbn. set_solver.
  - unfold sample_site.listening. cbn [_subscribers].
    rewrite lookup_singleton_eq. intros [= H]; set_solver.
Defined.

(** A run of X13: the [started] event of the sample lookup goes to the
    two sockets that listen to it. *)
Lemma publish_event_stores_then_sends_witness :
  let o' := publish_event (sample_site.world_of sample_site.badges_env)
              sample_site.listening "lookup-1" (started "lookup-1") in
  list_progress_events (database o') "ghost"
  = list_progress_events (database sample_site.listening) "ghost" /\
  length (sent o') = 2%nat.
Proof.
  cbv zeta.
  destruct (publish_event_stores_then_sends
              (sample_site.world_of sample_site.badges_env)
              sample_site.listening "lookup-1" (started "lookup-1"))
    as (_ & Hother & Hsent & _).
  split.
  - apply Hother. discriminate.
  - rewrite Hsent. vm_compute. reflexivity.
Defined.

End subscriptions_samples.

(* ===================================================================== *)
(** * What processing a lookup leaves in the store *)
(* ===================================================================== *)

Section process_lookup.
Import config service db job_orchestrator store_properties orchestrator_properties.

Context (w : World).

Lemma update_job_other lookup_id other (f : LookupJob -> LookupJob) d :
  (forall job, id (f job) = id job) -> other <> lookup_id ->
  get_lookup_job (update_job lookup_id f d) other = get_lookup_job d other.
Proof.
  intros Hid Hother. unfold get_lookup_job, update_job.
  cbn [set_lookup_jobs lookup_jobs].
  induction (lookup_jobs d) as [|job jobs IH]; [reflexivity|].
  cbn. destruct (String.eqb (id job) lookup_id) eqn:E.
  - rewrite Hid. apply String.eqb_eq in E. rewrite E.
    apply String.eqb_neq in Hother. rewrite String.eqb_sym in Hother.
    now rewrite Hother.
  - destruct (String.eqb (id job) other); [reflexivity | exact IH].
Qed.

Lemma update_job_same lookup_id (f : LookupJob -> LookupJob) d :
  (forall job, id (f job) = id job) ->
  get_lookup_job (update_job lookup_id f d) lookup_id
  = f <$> get_lookup_job d lookup_id.
Proof.
  intros Hid. unfold get_lookup_job, update_job. cbn [set_lookup_jobs lookup_jobs].
  now apply find_update_job.
Qed.

Lemma update_job_ids lookup_id (f : LookupJob -> LookupJob) d :
  (forall job, id (f job) = id job) ->
  job_ids (update_job lookup_id f d) = job_ids d.
Proof.
  intros Hid. unfold job_ids, update_job. cbn [set_lookup_jobs lookup_jobs].
  induction (lookup_jobs d) as [|job jobs IH]; [reflexivity|].
  cbn. rewrite IH. f_equal. destruct (String.eqb (id job) lookup_id); auto.
Qed.

(** What [publish_event] and [publish_all] leave alone. *)
Lemma publish_event_frame o lookup_id e :
  lookup_jobs (database (publish_event w o lookup_id e)) = lookup_jobs (database o) /\
  lookup_results (database (publish_event w o lookup_id e))
  = lookup_results (database o) /\
  _queue (publish_event w o lookup_id e) = _queue o /\
  _worker_task (publish_event w o lookup_id e) = _worker_task o.
Proof.
  unfold publish_event. cbn.
  rewrite broadcast_database.
  destruct (broadcast_queue w
              (tick (set_database
                       {| lookup_jobs := lookup_jobs (database o);
                          lookup_progress_events :=
                            lookup_progress_events (database o) ++
                            [{| lookup_job_id := lookup_id; event := e;
                                event_created_at := utcnow_iso w o |}];
                          lookup_results := lookup_results (database o);
                          rate_limit_events := rate_limit_events (database o) |} o))
              lookup_id (e, utcnow_iso w o)) as [-> ->].
  now cbn.
Qed.

Lemma publish_all_frame o lookup_id events :
  lookup_jobs (database (publish_all w o lookup_id events))
  = lookup_jobs (database o) /\
  lookup_results (database (publish_all w o lookup_id events))
  = lookup_results (database o) /\
  _queue (publish_all w o lookup_id events) = _queue o /\
  _worker_task (publish_all w o lookup_id events) = _worker_task o.
Proof.
  revert o. induction events as [|e events IH]; intros o; [now cbn|].
  cbn [publish_all].
  destruct (IH (publish_event w o lookup_id e)) as (-> & -> & -> & ->).
  apply publish_event_frame.
Qed.

Lemma stored_events_publish_event o lookup_id other e :
  stored_events (database (publish_event w o lookup_id e)) other
  = stored_events (database o) other
    ++ (if String.eqb lookup_id other then [e] else []).
Proof.
  unfold stored_events, publish_event.
  pose proof (list_progress_events_snoc (database o) lookup_id other e
                (utcnow_iso w o)) as Hsnoc.
  destruct (insert_progress_event (database o) lookup_id e (utcnow_iso w o))
    as [d ev]. cbn [fst] in Hsnoc.
  rewrite broadcast_database. cbn [tick set_database database].
  rewrite Hsnoc, fmap_app. f_equal.
  now destruct (String.eqb lookup_id other).
Qed.

Lemma stored_events_publish_all o lookup_id other events :
  stored_events (database (publish_all w o lookup_id events)) other
  = stored_events (database o) other
    ++ (if String.eqb lookup_id other then events else []).
Proof.
  revert o. induction events as [|e events IH]; intros o.
  - cbn. destruct (String.eqb lookup_id other); now rewrite app_nil_r.
  - cbn [publish_all]. rewrite IH, stored_events_publish_event, <- app_assoc.
    f_equal. now destruct (String.eqb lookup_id other).
Qed.

Lemma process_lookup_cases o lookup_id job :
  get_lookup_job (database o) lookup_id = Some job ->
  _process_lookup w o lookup_id
  = let run := wait_for w lookup_id (scraper w (hackathon_url job)) in
    let o3 := after_crawl w o lookup_id run.1 in
    match run.2 with
    | Some (Returned r) => complete_lookup w o3 lookup_id r
    | None | Some Unfinished =>
        fail_lookup w o3 lookup_id "timeout_error" "Lookup timed out"
    | Some (Raised (AppErr cls message)) =>
        fail_lookup w o3 lookup_id (code cls) message
    | Some (Raised error) =>
        fail_lookup w o3 lookup_id (code ParseAppError)
          ("Unexpected scraping failure: " +:+ str_of_exn error)
    end.
Proof.
  intros Hjob. unfold _process_lookup. rewrite Hjob. cbv zeta.
  now destruct (wait_for w lookup_id (scraper w (hackathon_url job)))
    as [events outcome].
Qed.

Lemma after_crawl_facts o lookup_id job events :
  get_lookup_job (database o) lookup_id = Some job ->
  get_lookup_job (database (after_crawl w o lookup_id events)) lookup_id
  = Some (started_row job (utcnow_iso w o)) /\
  (forall other, other <> lookup_id ->
     get_lookup_job (database (after_crawl w o lookup_id events)) other
     = get_lookup_job (database o) other) /\
  job_ids (database (after_crawl w o lookup_id events)) = job_ids (database o) /\
  (forall other,
     stored_events (database (after_crawl w o lookup_id events)) other
     = stored_events (database o) other
       ++ (if String.eqb lookup_id other then started lookup_id :: events else [])) /\
  lookup_results (database (after_crawl w o lookup_id events))
  = lookup_results (database o) /\
  _queue (after_crawl w o lookup_id events) = _queue o /\
  _worker_task (after_crawl w o lookup_id events) = _worker_task o.
Proof.
  intros Hjob. unfold after_crawl. cbv zeta.
  set (o1 := tick (set_database
                     (set_lookup_started (database o) lookup_id (utcnow_iso w o)) o)).
  destruct (publish_all_frame (publish_event w o1 lookup_id (started lookup_id))
              lookup_id events) as (Hj & Hr & Hq & Hw).
  destruct (publish_event_frame o1 lookup_id (started lookup_id))
    as (Hj' & Hr' & Hq' & Hw').
  assert (Hjobs : lookup_jobs (database (publish_all w
                     (publish_event w o1 lookup_id (started lookup_id))
                     lookup_id events)) = lookup_jobs (database o1))
    by congruence.
  split; [|split; [|split; [|split; [|split; [|split]]]]].
  - rewrite (get_lookup_job_jobs _ _ _ Hjobs). subst o1.
    cbn [tick set_database database]. unfold set_lookup_started.
    rewrite update_job_same by reflexivity. now rewrite Hjob.
  - intros other Hother. rewrite (get_lookup_job_jobs _ _ _ Hjobs). subst o1.
    cbn [tick set_database database]. unfold set_lookup_started.
    now rewrite update_job_other.
  - unfold job_ids. rewrite Hjobs. subst o1. cbn [tick set_database database].
    apply (update_job_ids lookup_id). reflexivity.
  - intros other. rewrite stored_events_publish_all, stored_events_publish_event.
    rewrite <- app_assoc. f_equal.
    now destruct (String.eqb lookup_id other).
  - now rewrite Hr, Hr'.
  - now rewrite Hq, Hq'.
  - now rewrite Hw, Hw'.
Qed.

Lemma fail_lookup_facts o lookup_id code message :
  get_lookup_job (database (fail_lookup w o lookup_id code message)) lookup_id
  = (fun job => failed_row job code message (utcnow_iso w o))
      <$> get_lookup_job (database o) lookup_id /\
  (forall other, other <> lookup_id ->
     get_lookup_job (database (fail_lookup w o lookup_id code message)) other
     = get_lookup_job (database o) other) /\
  job_ids (database (fail_lookup w o lookup_id code message))
  = job_ids (database o) /\
  (forall other,
     stored_events (database (fail_lookup w o lookup_id code message)) other
     = stored_events (database o) other
       ++ (if String.eqb lookup_id other then [failed code message] else [])) /\
  lookup_results (database (fail_lookup w o lookup_id code message))
  = lookup_results (database o) /\
  _queue (fail_lookup w o lookup_id code message) = _queue o /\
  _worker_task (fail_lookup w o lookup_id code message) = _worker_task o.
Proof.
  unfold fail_lookup. cbv zeta.
  set (o1 := tick (set_database
                     (set_lookup_failed (database o) lookup_id code message
                        (utcnow_iso w o)) o)).
  destruct (publish_event_frame o1 lookup_id (failed code message))
    as (Hj & Hr & Hq & Hw).
  split; [|split; [|split; [|split; [|split; [|split]]]]].
  - rewrite (get_lookup_job_jobs _ _ _ Hj). subst o1.
    cbn [tick set_database database]. unfold set_lookup_failed.
    now rewrite update_job_same.
  - intros other Hother. rewrite (get_lookup_job_jobs _ _ _ Hj). subst o1.
    cbn [tick set_database database]. unfold set_lookup_failed.
    now rewrite update_job_other.
  - unfold job_ids. rewrite Hj. subst o1. cbn [tick set_database database].
    apply (update_job_ids lookup_id). reflexivity.
  - intros other. now rewrite stored_events_publish_event.
  - now rewrite Hr.
  - now rewrite Hq.
  - now rewrite Hw.
Qed.

Lemma save_lookup_result_frame d lookup_id r now :
  get_lookup_result (save_lookup_result d lookup_id r now) lookup_id = Some r /\
  (forall other, other <> lookup_id ->
     get_lookup_result (save_lookup_result d lookup_id r now) other
     = get_lookup_result d other) /\
  lookup_jobs (save_lookup_result d lookup_id r now) = lookup_jobs d.
Proof.
  unfold get_lookup_result, save_lookup_result. cbn [lookup_results lookup_jobs].
  set (row := {| result_lookup_job_id := lookup_id; result_json := r;
                 result_created_at := now |}).
  destruct (existsb _ (lookup_results d)) eqn:E.
  - rewrite (find_replace_result lookup_id row) by (reflexivity || assumption).
    repeat split. intros other Hother.
    now rewrite (find_replace_other lookup_id other row).
  - assert (Hnone : List.find
              (fun x => String.eqb (result_lookup_job_id x) lookup_id)
              (lookup_results d) = None).
    { destruct (List.find _ (lookup_results d)) as [x|] eqn:F; [|reflexivity].
      apply List.find_some in F as [Hx Heq].
      assert (existsb (fun x => String.eqb (result_lookup_job_id x) lookup_id)
                (lookup_results d) = true)
        by (apply existsb_exists; eauto).
      congruence. }
    rewrite find_snoc, Hnone. cbn [result_lookup_job_id row].
    rewrite String.eqb_refl. repeat split.
    intros other Hother. rewrite find_snoc.
    destruct (List.find (fun x => String.eqb (result_lookup_job_id x) other)
                (lookup_results d)); [reflexivity|].
    cbn [result_lookup_job_id row].
    apply String.eqb_neq in Hother. rewrite String.eqb_sym in Hother.
    now rewrite Hother.
Qed.

Lemma complete_lookup_facts o lookup_id r :
  (exists now,
     get_lookup_job (database (complete_lookup w o lookup_id r)) lookup_id
     = (fun job => completed_row job now) <$> get_lookup_job (database o) lookup_id) /\
  (forall other, other <> lookup_id ->
     get_lookup_job (database (complete_lookup w o lookup_id r)) other
     = get_lookup_job (database o) other) /\
  job_ids (database (complete_lookup w o lookup_id r)) = job_ids (database o) /\
  (forall other,
     stored_events (database (complete_lookup w o lookup_id r)) other
     = stored_events (database o) other
       ++ (if String.eqb lookup_id other
           then [completed lookup_id (Z.of_nat (length (result_winners r)))]
           else [])) /\
  get_lookup_result (database (complete_lookup w o lookup_id r)) lookup_id = Some r /\
  (forall other, other <> lookup_id ->
     get_lookup_result (database (complete_lookup w o lookup_id r)) other
     = get_lookup_result (database o) other) /\
  _queue (complete_lookup w o lookup_id r) = _queue o /\
  _worker_task (complete_lookup w o lookup_id r) = _worker_task o.
Proof.
  unfold complete_lookup. cbv zeta.
  set (o1 := tick (set_database
                     (save_lookup_result (database o) lookup_id r (utcnow_iso w o)) o)).
  set (o2 := tick (set_database
                     (set_lookup_completed (database o1) lookup_id (utcnow_iso w o1))
                     o1)).
  destruct (publish_event_frame o2 lookup_id
              (completed lookup_id (Z.of_nat (length (result_winners r)))))
    as (Hj & Hr & Hq & Hw).
  destruct (save_lookup_result_frame (database o) lookup_id r (utcnow_iso w o))
    as (Hget & Hothers & Hjobs).
  split; [|split; [|split; [|split; [|split; [|split; [|split]]]]]].
  - exists (utcnow_iso w o1). rewrite (get_lookup_job_jobs _ _ _ Hj). subst o2.
    cbn [tick set_database database]. unfold set_lookup_completed.
    rewrite update_job_same by reflexivity. reflexivity.
  - intros other Hother. rewrite (get_lookup_job_jobs _ _ _ Hj). subst o2.
    cbn [tick set_database database]. unfold set_lookup_completed.
    rewrite update_job_other by (reflexivity || assumption). reflexivity.
  - unfold job_ids. rewrite Hj. subst o2. cbn [tick set_database database].
    apply (update_job_ids lookup_id
             (fun job => completed_row job (utcnow_iso w o1)) (database o1)).
    reflexivity.
  - intros other. now rewrite stored_events_publish_event.
  - unfold get_lookup_result in *. rewrite Hr. exact Hget.
  - intros other Hother. unfold get_lookup_result in *. rewrite Hr.
    now apply Hothers.
  - now rewrite Hq.
  - now rewrite Hw.
Qed.

(** The row of a processed lookup, by how the crawl ended. *)
Lemma process_lookup_row o lookup_id job :
  get_lookup_job (database o) lookup_id = Some job ->
  exists now,
    get_lookup_job (database (_process_lookup w o lookup_id)) lookup_id
    = Some
        match (wait_for w lookup_id (scraper w (hackathon_url job))).2 with
        | Some (Returned r) => completed_row (started_row job (utcnow_iso w o)) now
        | None | Some Unfinished =>
            failed_row (started_row job (utcnow_iso w o))
              "timeout_error" "Lookup timed out" now
        | Some (Raised (AppErr cls message)) =>
            failed_row (started_row job (utcnow_iso w o)) (code cls) message now
        | Some (Raised error) =>
            failed_row (started_row job (utcnow_iso w o)) (code ParseAppError)
              ("Unexpected scraping failure: " +:+ str_of_exn error) now
        end.
Proof.
  intros Hjob. rewrite (process_lookup_cases o lookup_id job Hjob). cbv zeta.
  destruct (after_crawl_facts o lookup_id job
              (wait_for w lookup_id (scraper w (hackathon_url job))).1 Hjob)
    as (Hrow & _).
  destruct (wait_for w lookup_id (scraper w (hackathon_url job))).2
    as [[r|e|]|].
  - destruct (complete_lookup_facts
                (after_crawl w o lookup_id
                   (wait_for w lookup_id (scraper w (hackathon_url job))).1)
                lookup_id r) as ([now Hget] & _).
    exists now. now rewrite Hget, Hrow.
  - eexists.
    destruct e;
      match goal with
      | |- get_lookup_job (database (fail_lookup _ ?o3 _ ?c ?m)) _ = _ =>
          destruct (fail_lookup_facts o3 lookup_id c m) as (Hget & _);
          rewrite Hget, Hrow; reflexivity
      end.
  - eexists.
    match goal with
    | |- get_lookup_job (database (fail_lookup _ ?o3 _ ?c ?m)) _ = _ =>
        destruct (fail_lookup_facts o3 lookup_id c m) as (Hget & _);
        rewrite Hget, Hrow; reflexivity
    end.
  - eexists.
    match goal with
    | |- get_lookup_job (database (fail_lookup _ ?o3 _ ?c ?m)) _ = _ =>
        destruct (fail_lookup_facts o3 lookup_id c m) as (Hget & _);
        rewrite Hget, Hrow; reflexivity
    end.
Qed.

(** Everything [_process_lookup] does to the store and the queue. *)
Lemma process_lookup_facts o lookup_id job :
  get_lookup_job (database o) lookup_id = Some job ->
  (forall other, other <> lookup_id ->
     get_lookup_job (database (_process_lookup w o lookup_id)) other
     = get_lookup_job (database o) other) /\
  job_ids (database (_process_lookup w o lookup_id)) = job_ids (database o) /\
  (exists last,
     (forall other,
        stored_events (database (_process_lookup w o lookup_id)) other
        = stored_events (database o) other
          ++ (if String.eqb lookup_id other
              then started lookup_id
                   :: (wait_for w lookup_id (scraper w (hackathon_url job))).1
                   ++ [last]
              else [])) /\
     ((forall r,
         (wait_for w lookup_id (scraper w (hackathon_url job))).2
         = Some (Returned r) ->
         last = completed lookup_id (Z.of_nat (length (result_winners r))) /\
         get_lookup_result (database (_process_lookup w o lookup_id)) lookup_id
         = Some r) /\
      ((forall r,
          (wait_for w lookup_id (scraper w (hackathon_url job))).2
          <> Some (Returned r)) ->
       (exists code message now,
          last = failed code message /\
          get_lookup_job (database (_process_lookup w o lookup_id)) lookup_id
          = Some (failed_row (started_row job (utcnow_iso w o)) code message now)) /\
       get_lookup_result (database (_process_lookup w o lookup_id)) lookup_id
       = get_lookup_result (database o) lookup_id))) /\
  (forall other, other <> lookup_id ->
     get_lookup_result (database (_process_lookup w o lookup_id)) other
     = get_lookup_result (database o) other) /\
  _queue (_process_lookup w o lookup_id) = _queue o /\
  _worker_task (_process_lookup w o lookup_id) = _worker_task o.
Proof.
  intros Hjob. rewrite (process_lookup_cases o lookup_id job Hjob). cbv zeta.
  destruct (after_crawl_facts o lookup_id job
              (wait_for w lookup_id (scraper w (hackathon_url job))).1 Hjob)
    as (Hrow & Hothers & Hids & Hevents & Hresults & Hq & Hw).
  set (o3 := after_crawl w o lookup_id
               (wait_for w lookup_id (scraper w (hackathon_url job))).1) in *.
  assert (Hfail : forall code message,
    (forall other, other <> lookup_id ->
       get_lookup_job (database (fail_lookup w o3 lookup_id code message)) other
       = get_lookup_job (database o) other) /\
    job_ids (database (fail_lookup w o3 lookup_id code message))
    = job_ids (database o) /\
    (forall other,
       stored_events (database (fail_lookup w o3 lookup_id code message)) other
       = stored_events (database o) other
         ++ (if String.eqb lookup_id other
             then started lookup_id
                  :: (wait_for w lookup_id (scraper w (hackathon_url job))).1
                  ++ [failed code message]
             else [])) /\
    get_lookup_job (database (fail_lookup w o3 lookup_id code message)) lookup_id
    = Some (failed_row (started_row job (utcnow_iso w o)) code message
              (utcnow_iso w o3)) /\
    (forall other,
       get_lookup_result (database (fail_lookup w o3 lookup_id code message)) other
       = get_lookup_result (database o) other) /\
    _queue (fail_lookup w o3 lookup_id code message) = _queue o /\
    _worker_task (fail_lookup w o3 lookup_id code message) = _worker_task o).
  { intros code message.
    destruct (fail_lookup_facts o3 lookup_id code message)
      as (Hget & Hothers' & Hids' & Hevents' & Hresults' & Hq' & Hw').
    split; [|split; [|split; [|split; [|split; [|split]]]]].
    - intros other Hother. now rewrite Hothers', Hothers.
    - now rewrite Hids'.
    - intros other. rewrite Hevents', Hevents, <- app_assoc. f_equal.
      destruct (String.eqb lookup_id other); reflexivity.
    - now rewrite Hget, Hrow.
    - intros other. unfold get_lookup_result. now rewrite Hresults', Hresults.
    - now rewrite Hq'.
    - now rewrite Hw'. }
  destruct (wait_for w lookup_id (scraper w (hackathon_url job))).2
    as [[r|e|]|] eqn:Eout.
  - destruct (complete_lookup_facts o3 lookup_id r)
      as (_ & Hothers' & Hids' & Hevents' & Hres' & Hresothers' & Hq' & Hw').
    split; [|split; [|split; [|split; [|split]]]].
    + intros other Hother. now rewrite Hothers', Hothers.
    + now rewrite Hids'.
    + eexists. split; [|split].
      * intros other. rewrite Hevents', Hevents, <- app_assoc. f_equal.
        destruct (String.eqb lookup_id other); reflexivity.
      * intros r' [= <-]. now split.
      * intros Hnot. now destruct (Hnot r).
    + intros other Hother. rewrite Hresothers' by assumption.
      unfold get_lookup_result. now rewrite Hresults.
    + now rewrite Hq'.
    + now rewrite Hw'.
  - destruct e as [cls message| | | |];
      match goal with
      | |- context [fail_lookup w o3 lookup_id ?c ?m] =>
          destruct (Hfail c m) as (H1 & H2 & H3 & H4 & H5 & H6 & H7)
      end;
      (split; [exact H1|]; split; [exact H2|]; split;
       [|split; [intros other _; apply H5|split; assumption]];
       eexists; split; [exact H3|]; split; [discriminate|]; intros _;
       split; [eauto | apply H5]).
  - destruct (Hfail "timeout_error" "Lookup timed out")
      as (H1 & H2 & H3 & H4 & H5 & H6 & H7).
    split; [exact H1|]; split; [exact H2|]; split;
      [|split; [intros other _; apply H5|split; assumption]].
    eexists; split; [exact H3|]; split; [discriminate|]; intros _.
    split; [eauto | apply H5].
  - destruct (Hfail "timeout_error" "Lookup timed out")
      as (H1 & H2 & H3 & H4 & H5 & H6 & H7).
    split; [exact H1|]; split; [exact H2|]; split;
      [|split; [intros other _; apply H5|split; assumption]].
    eexists; split; [exact H3|]; split; [discriminate|]; intros _.
    split; [eauto | apply H5].
Qed.

(** X14. Processing a lookup that has a row always leaves the row in a
    terminal state, with the id, the URL and the creation time it had, the
    start time of the processing and a finish time.  The row is completed
    without an error when the crawl returns within the time limit; failed
    with the code and the message of the [AppError] the crawl raises;
    failed with [parse_error] and the prefixed text of any other
    exception; and failed with [timeout_error] when the time limit cuts
    the crawl. *)
Theorem process_lookup_outcome o lookup_id job :
  get_lookup_job (database o) lookup_id = Some job ->
  exists job',
    get_lookup_job (database (_process_lookup w o lookup_id)) lookup_id = Some job' /\
    terminal (status job') /\
    id job' = id job /\
    hackathon_url job' = hackathon_url job /\
    created_at job' = created_at job /\
    started_at job' = Some (utcnow_iso w o) /\
    finished_at job' <> None /\
    (deadline w lookup_id <> None ->
     status job' = Failed /\ error_code job' = Some "timeout_error" /\
     error_message job' = Some "Lookup timed out") /\
    (deadline w lookup_id = None ->
     forall r, (scraper w (hackathon_url job)).2 = Returned r ->
     status job' = Completed /\ error_code job' = None /\
     error_message job' = None) /\
    (deadline w lookup_id = None ->
     forall cls message,
       (scraper w (hackathon_url job)).2 = Raised (AppErr cls message) ->
       status job' = Failed /\ error_code job' = Some (code cls) /\
       error_message job' = Some message) /\
    (deadline w lookup_id = None ->
     forall error,
       (scraper w (hackathon_url job)).2 = Raised error ->
       (forall cls message, error <> AppErr cls message) ->
       status job' = Failed /\ error_code job' = Some "parse_error" /\
       error_message job'
       = Some ("Unexpected scraping failure: " +:+ str_of_exn error)).
Proof.
  intros Hjob. destruct (process_lookup_row o lookup_id job Hjob) as [now Hrow].
  eexists. split; [exact Hrow|]. clear Hrow. unfold wait_for, terminal.
  destruct (deadline w lookup_id) as [n|]; cbn [snd].
  all: try destruct (scraper w (hackathon_url job)).2 as [r|[cls message| | | |]|];
    cbn [snd]; repeat split; intros; try discriminate; try congruence; auto;
    repeat match goal with
           | H : Raised _ = Raised _ |- _ => injection H as H; subst
           end;
    try reflexivity;
    try (exfalso;
         match goal with
         | H : forall cls message, _ <> _ |- _ => eapply H; reflexivity
         end).
Qed.

(** X15. The history of a processed lookup gains [started], then the
    progress events of the crawl in their order (the first [n] of them
    when the time limit cuts the crawl after [n]), then one last event:
    [completed] with the number of winners when the crawl returns in time,
    and then the result is stored for the lookup; [failed] with the code
    and the message of the row otherwise, and then the stored result of
    the lookup is what it was. *)
Theorem process_lookup_history o lookup_id job :
  get_lookup_job (database o) lookup_id = Some job ->
  exists last,
    stored_events (database (_process_lookup w o lookup_id)) lookup_id
    = stored_events (database o) lookup_id
      ++ started lookup_id
         :: match deadline w lookup_id with
            | Some n => take n (progress_events (scraper w (hackathon_url job)).1)
            | None => progress_events (scraper w (hackathon_url job)).1
            end
         ++ [last] /\
    (forall r,
       deadline w lookup_id = None ->
       (scraper w (hackathon_url job)).2 = Returned r ->
       last = completed lookup_id (Z.of_nat (length (result_winners r))) /\
       get_lookup_result (database (_process_lookup w o lookup_id)) lookup_id
       = Some r) /\
    (deadline w lookup_id <> None
     \/ (forall r, (scraper w (hackathon_url job)).2 <> Returned r) ->
     exists code message job',
       last = failed code message /\
       get_lookup_job (database (_process_lookup w o lookup_id)) lookup_id
       = Some job' /\
       error_code job' = Some code /\ error_message job' = Some message /\
       get_lookup_result (database (_process_lookup w o lookup_id)) lookup_id
       = get_lookup_result (database o) lookup_id).
Proof.
  intros Hjob.
  destruct (process_lookup_facts o lookup_id job Hjob)
    as (_ & _ & (last & Hevents & Hreturned & Hfailed) & _).
  exists last. specialize (Hevents lookup_id). rewrite String.eqb_refl in Hevents.
  assert (Hrun : (wait_for w lookup_id (scraper w (hackathon_url job))).1
                 = match deadline w lookup_id with
                   | Some n => take n (progress_events (scraper w (hackathon_url job)).1)
                   | None => progress_events (scraper w (hackathon_url job)).1
                   end).
  { unfold wait_for. destruct (deadline w lookup_id); [reflexivity|].
    now destruct (scraper w (hackathon_url job)).2. }
  rewrite Hrun in Hevents. split; [exact Hevents|]. split.
  - intros r Hdeadline Hr. apply Hreturned. unfold wait_for.
    now rewrite Hdeadline, Hr.
  - intros Hcut.
    destruct Hfailed as [(code & message & now & -> & Hrow) Hresult].
    + intros r. unfold wait_for.
      destruct (deadline w lookup_id) as [n|]; [discriminate|].
      destruct Hcut as [Hcut | Hcut]; [congruence|].
      destruct (scraper w (hackathon_url job)).2 as [r'|e|] eqn:E;
        cbn [snd]; try discriminate.
      intros [= <-]. now apply (Hcut r').
    + exists code, message. eexists. split; [reflexivity|].
      split; [exact Hrow|]. repeat split. exact Hresult.
Qed.

(** X16. Processing a lookup touches that lookup only: the rows, the
    histories and the results of the other lookups are as before, no row
    is added to or removed from the job table, and the queue is not
    touched. *)
Theorem process_lookup_touches_one_lookup o lookup_id other :
  other <> lookup_id ->
  get_lookup_job (database (_process_lookup w o lookup_id)) other
  = get_lookup_job (database o) other /\
  stored_events (database (_process_lookup w o lookup_id)) other
  = stored_events (database o) other /\
  get_lookup_result (database (_process_lookup w o lookup_id)) other
  = get_lookup_result (database o) other /\
  job_ids (database (_process_lookup w o lookup_id)) = job_ids (database o) /\
  _queue (_process_lookup w o lookup_id) = _queue o.
Proof.
  intros Hother.
  destruct (get_lookup_job (database o) lookup_id) as [job|] eqn:Hjob.
  - destruct (process_lookup_facts o lookup_id job Hjob)
      as (Hrows & Hids & (last & Hevents & _) & Hresults & Hq & _).
    split; [now apply Hrows|]. split.
    + rewrite Hevents. apply String.eqb_neq in Hother.
      rewrite String.eqb_sym in Hother. rewrite Hother. apply app_nil_r.
    + split; [now apply Hresults|]. now split.
  - unfold _process_lookup. rewrite Hjob. repeat split.
Qed.

End process_lookup.

(* ===================================================================== *)
(** * The worker loop on a queue of lookups *)
(* ===================================================================== *)

Section worker_loop.
Import config service db job_orchestrator store_properties orchestrator_properties.

Context (w : World).

Lemma job_ids_get d lookup_id :
  lookup_id ∈ job_ids d <-> exists job, get_lookup_job d lookup_id = Some job.
Proof.
  unfold job_ids, get_lookup_job. split.
  - intros (job & -> & Hin)%list_elem_of_fmap.
    destruct (List.find (fun x => String.eqb (id x) (id job)) (lookup_jobs d))
      as [found|] eqn:E; [eauto|].
    apply list_elem_of_In in Hin.
    pose proof (List.find_none _ _ E job Hin) as Hno.
    cbn beta in Hno. now rewrite String.eqb_refl in Hno.
  - intros [job Hfind]. apply List.find_some in Hfind as [Hin Heq].
    apply String.eqb_eq in Heq. apply list_elem_of_fmap. exists job.
    split; [now symmetry|]. now apply list_elem_of_In.
Qed.

Lemma process_lookup_keeps_queue o lookup_id :
  _queue (_process_lookup w o lookup_id) = _queue o /\
  job_ids (database (_process_lookup w o lookup_id)) = job_ids (database o).
Proof.
  destruct (get_lookup_job (database o) lookup_id) as [job|] eqn:Hjob.
  - destruct (process_lookup_facts w o lookup_id job Hjob)
      as (_ & Hids & _ & _ & Hq & _). now split.
  - unfold _process_lookup. now rewrite Hjob.
Qed.

Lemma process_lookup_keeps_others o lookup_id other :
  other <> lookup_id ->
  get_lookup_job (database (_process_lookup w o lookup_id)) other
  = get_lookup_job (database o) other.
Proof.
  intros Hother.
  destruct (get_lookup_job (database o) lookup_id) as [job|] eqn:Hjob.
  - destruct (process_lookup_facts w o lookup_id job Hjob) as (Hrows & _).
    now apply Hrows.
  - unfold _process_lookup. now rewrite Hjob.
Qed.

Lemma process_lookup_terminal o lookup_id job :
  get_lookup_job (database o) lookup_id = Some job ->
  exists job',
    get_lookup_job (database (_process_lookup w o lookup_id)) lookup_id = Some job' /\
    terminal (status job').
Proof.
  intros Hjob. destruct (process_lookup_row w o lookup_id job Hjob) as [now Hrow].
  eexists. split; [exact Hrow|]. unfold terminal.
  destruct (wait_for w lookup_id (scraper w (hackathon_url job))).2
    as [[r|[]|]|]; cbn; auto.
Qed.

(** X17. Given as many turns as the queue holds ids, the worker loop
    empties the queue; afterwards every queued id that has a row is in a
    terminal state, the rows of the ids that were not queued are as
    before, and no row was added or removed. *)
Theorem worker_loop_drains_queue q o turns :
  _queue o = Some q ->
  (length q <= turns)%nat ->
  _queue (_worker_loop w turns o) = Some [] /\
  job_ids (database (_worker_loop w turns o)) = job_ids (database o) /\
  (forall lookup_id, lookup_id ∈ q -> lookup_id ∈ job_ids (database o) ->
     exists job',
       get_lookup_job (database (_worker_loop w turns o)) lookup_id = Some job' /\
       terminal (status job')) /\
  (forall lookup_id, lookup_id ∉ q ->
     get_lookup_job (database (_worker_loop w turns o)) lookup_id
     = get_lookup_job (database o) lookup_id).
Proof.
  revert o turns. induction q as [|id0 q IH]; intros o turns Hq Hturns.
  - assert (Hidle : _worker_loop w turns o = o).
    { destruct turns; [reflexivity|]. cbn [_worker_loop]. unfold worker_turn.
      now rewrite Hq. }
    rewrite Hidle. repeat split; try assumption.
    intros lookup_id Hin. now apply elem_of_nil in Hin.
  - destruct turns as [|turns]; [cbn in Hturns; lia|].
    cbn [_worker_loop]. unfold worker_turn. rewrite Hq.
    set (o0 := set_queue (Some q) o).
    destruct (process_lookup_keeps_queue o0 id0) as [Hq1 Hids1].
    specialize (IH (_process_lookup w o0 id0) turns).
    destruct IH as (Hempty & Hids & Hdone & Hrest);
      [now rewrite Hq1 | cbn in Hturns; lia |].
    split; [exact Hempty|]. split; [now rewrite Hids, Hids1|]. split.
    + intros lookup_id Hin Hrow.
      destruct (decide (lookup_id ∈ q)) as [Hlater | Hnot].
      * apply Hdone; [exact Hlater|]. now rewrite Hids1.
      * apply elem_of_cons in Hin as [-> | Hin]; [|contradiction].
        rewrite (Hrest id0 Hnot).
        apply job_ids_get in Hrow as [job Hjob].
        now apply (process_lookup_terminal o0 id0 job).
    + intros lookup_id Hnot. apply not_elem_of_cons in Hnot as [Hne Hnot].
      rewrite (Hrest lookup_id Hnot).
      now rewrite process_lookup_keeps_others.
Qed.

End worker_loop.

Section process_lookup_samples.
Import config service db job_orchestrator store_properties orchestrator_properties.

(** A run of X14 on the sample site with badges: the job of the queued
    lookup is completed. *)
Lemma process_lookup_outcome_witness :
  exists job',
    get_lookup_job
      (database (_process_lookup (sample_site.world_of sample_site.badges_env)
                   (sample_site.orchestrator_of [sample_site.queued_job] [])
                   "lookup-1")) "lookup-1" = Some job' /\
    status job' = Completed /\ error_code job' = None.
Proof.
  destruct (process_lookup_outcome (sample_site.world_of sample_site.badges_env)
              (sample_site.orchestrator_of [sample_site.queued_job] [])
              "lookup-1" sample_site.queued_job eq_refl)
    as (job' & Hget & _ & _ & _ & _ & _ & _ & _ & Hreturned & _).
  exists job'. split; [exact Hget|].
  destruct (scrape_hackathon sample_site.badges_env 5 sample_site.hackathon_url)
    as [effects ending] eqn:Erun.
  destruct ending as [r|e|]; [|vm_compute in Erun; discriminate ..].
  destruct (Hreturned eq_refl r) as (Hs & Hc & _).
  - cbn [sample_site.world_of scraper sample_site.queued_job hackathon_url].
    now rewrite Erun.
  - now split.
Defined.

(** A run of X15 on the sample site that denies its project pages: the
    history ends with the [failed] event of the denial. *)
Lemma process_lookup_history_witness :
  exists code message job',
    get_lookup_job
      (database (_process_lookup (sample_site.world_of sample_site.denied_env)
                   (sample_site.orchestrator_of [sample_site.queued_job] [])
                   "lookup-1")) "lookup-1" = Some job' /\
    error_code job' = Some code /\ error_message job' = Some message /\
    last (stored_events
            (database (_process_lookup (sample_site.world_of sample_site.denied_env)
                         (sample_site.orchestrator_of [sample_site.queued_job] [])
                         "lookup-1")) "lookup-1")
    = Some (failed code message).
Proof.
  destruct (process_lookup_history (sample_site.world_of sample_site.denied_env)
              (sample_site.orchestrator_of [sample_site.queued_job] [])
              "lookup-1" sample_site.queued_job eq_refl)
    as (final & Hevents & _ & Hfailed).
  destruct Hfailed as (code & message & job' & -> & Hget & Hcode & Hmessage & _).
  - right. intros r. vm_compute. discriminate.
  - exists code, message, job'. repeat split; try assumption.
    rewrite Hevents.
    rewrite app_comm_cons, app_assoc. apply last_snoc.
Defined.

(** A run of X16: processing the unknown id ["ghost"] and the sample
    lookup leaves a second job alone. *)
Lemma process_lookup_touches_one_lookup_witness :
  get_lookup_job
    (database (_process_lookup (sample_site.world_of sample_site.badges_env)
                 (sample_site.orchestrator_of
                    [sample_site.queued_job; sample_site.other_job] [])
                 "lookup-1")) "lookup-7"
  = Some sample_site.other_job.
Proof.
  refine (proj1 (process_lookup_touches_one_lookup
                   (sample_site.world_of sample_site.badges_env)
                   (sample_site.orchestrator_of
                      [sample_site.queued_job; sample_site.other_job] [])
                   "lookup-1" "lookup-7" _)).
  discriminate.
Defined.

(** A run of X17: two turns on the queue of an unknown id and the sample
    lookup. *)
Lemma worker_loop_drains_queue_witness :
  _queue (_worker_loop (sample_site.world_of sample_site.badges_env) 2
            (sample_site.orchestrator_of [sample_site.queued_job]
               ["ghost"; "lookup-1"]))
  = Some [] /\
  exists job',
    get_lookup_job
      (database (_worker_loop (sample_site.world_of sample_site.badges_env) 2
                   (sample_site.orchestrator_of [sample_site.queued_job]
                      ["ghost"; "lookup-1"]))) "lookup-1" = Some job' /\
    terminal (status job').
Proof.
  destruct (worker_loop_drains_queue (sample_site.world_of sample_site.badges_env)
              ["ghost"; "lookup-1"]
              (sample_site.orchestrator_of [sample_site.queued_job]
                 ["ghost"; "lookup-1"]) 2 eq_refl)
    as (Hempty & _ & Hdone & _).
  - cbn. lia.
  - split; [exact Hempty|]. apply Hdone.
    + right. left.
    + left.
Defined.

End process_lookup_samples.

(* ===================================================================== *)
(** * Further properties of the lookup endpoints *)
(* ===================================================================== *)

Section endpoints.
Import config url_utils service db job_orchestrator main.
Import store_properties orchestrator_properties.

Context (settings : Settings) (w : World).

Lemma no_active_lookup d url :
  (forall job, job ∈ lookup_jobs d -> ~ active_for url job) ->
  get_latest_active_lookup_for_url d url = None.
Proof.
  intros Hnone. unfold get_latest_active_lookup_for_url.
  destruct (filter _ (lookup_jobs d)) as [|job rows] eqn:E; [reflexivity|].
  assert (Hin : job ∈ filter
            (fun job => String.eqb (hackathon_url job) url && is_active job = true)
            (lookup_jobs d)) by (rewrite E; left).
  apply list_elem_of_filter in Hin as [Hkeep Hin].
  apply andb_true_iff in Hkeep as [Hurl Hactive]. apply String.eqb_eq in Hurl.
  exfalso. apply (Hnone job Hin). now split.
Qed.

Lemma latest_finished_elem rows row :
  latest_finished rows = Some row -> row ∈ rows.
Proof.
  revert row. induction rows as [|r rows IH]; intros row; cbn; [discriminate|].
  destruct (latest_finished rows) as [r'|].
  - destruct (String.ltb _ _); intros [= <-].
    + right. now apply IH.
    + left.
  - intros [= <-]. left.
Qed.

(** What the query of [get_recent_completed_lookup_for_url] selects. *)
Lemma recent_completed_spec d url since job :
  get_recent_completed_lookup_for_url d url since = Some job ->
  job ∈ lookup_jobs d /\ hackathon_url job = url /\ status job = Completed /\
  get_lookup_result d (id job) <> None /\
  exists t, finished_at job = Some t /\ String.leb since t = true.
Proof.
  unfold get_recent_completed_lookup_for_url. intros Hjob.
  apply latest_finished_elem, list_elem_of_filter in Hjob as [Hkeep Hin].
  apply andb_true_iff in Hkeep as [Hkeep Hsince].
  apply andb_true_iff in Hkeep as [Hkeep Hresult].
  apply andb_true_iff in Hkeep as [Hurl Hstatus].
  apply String.eqb_eq in Hurl. apply bool_decide_eq_true in Hstatus.
  split; [exact Hin|]. split; [exact Hurl|]. split; [exact Hstatus|]. split.
  - unfold get_lookup_result. apply existsb_exists in Hresult as (x & Hx & Heq).
    destruct (List.find _ (lookup_results d)) as [found|] eqn:F; [discriminate|].
    pose proof (List.find_none _ _ F x Hx) as Hno. cbn beta in Hno. congruence.
  - destruct (finished_at job) as [t|]; [|discriminate]. now exists t.
Qed.

Lemma no_recent_completed d url since :
  (forall job, job ∈ lookup_jobs d -> hackathon_url job = url ->
               status job <> Completed) ->
  get_recent_completed_lookup_for_url d url since = None.
Proof.
  intros Hnone.
  destruct (get_recent_completed_lookup_for_url d url since) as [job|] eqn:E;
    [|reflexivity].
  apply recent_completed_spec in E as (Hin & Hurl & Hstatus & _).
  now destruct (Hnone job Hin Hurl).
Qed.

Lemma recent_completed_same_jobs d d' url since :
  lookup_jobs d' = lookup_jobs d -> lookup_results d' = lookup_results d ->
  get_recent_completed_lookup_for_url d' url since
  = get_recent_completed_lookup_for_url d url since.
Proof.
  intros Hj Hr. unfold get_recent_completed_lookup_for_url. now rewrite Hj, Hr.
Qed.

(** The statements of [create_lookup] from [uuid4()] on. *)
Lemma new_lookup_steps o new_id normalized q :
  get_lookup_job (database o) new_id = None ->
  _queue o = Some q ->
  exists o',
    match create_lookup_job (database o) new_id normalized (utcnow_iso w o) with
    | Raise e => (o, Raise e)
    | Ok d =>
        let o1 := tick (set_database d o) in
        let o2 := publish_event w o1 new_id (queued new_id normalized) in
        match enqueue_lookup o2 new_id with
        | Ok o' => (o', Ok {| lookup_id := new_id; response_status := Queued |})
        | Raise e => (o2, Raise e)
        end
    end
    = (o', Ok {| lookup_id := new_id; response_status := Queued |}) /\
    get_lookup_job (database o') new_id
    = Some {| id := new_id; hackathon_url := normalized; status := Queued;
              created_at := utcnow_iso w o; started_at := None;
              finished_at := None; error_code := None; error_message := None |} /\
    job_ids (database o') = job_ids (database o) ++ [new_id] /\
    (forall other, other <> new_id ->
       get_lookup_job (database o') other = get_lookup_job (database o) other) /\
    stored_events (database o') new_id
    = stored_events (database o) new_id ++ [queued new_id normalized] /\
    lookup_results (database o') = lookup_results (database o) /\
    _queue o' = Some (q ++ [new_id]).
Proof.
  intros Hfree Hq. unfold create_lookup_job. rewrite Hfree. cbv zeta.
  set (row := {| id := new_id; hackathon_url := normalized; status := Queued;
                 created_at := utcnow_iso w o; started_at := None;
                 finished_at := None; error_code := None; error_message := None |}).
  set (o1 := tick (set_database
                     (set_lookup_jobs (lookup_jobs (database o) ++ [row]) (database o))
                     o)).
  destruct (publish_event_frame w o1 new_id (queued new_id normalized))
    as (Hj & Hr & Hq' & _).
  unfold enqueue_lookup. rewrite Hq'. cbn [o1 tick set_database _queue].
  rewrite Hq. eexists. split; [reflexivity|].
  cbn [set_queue database _queue].
  split; [|split; [|split; [|split; [|split]]]].
  - rewrite (get_lookup_job_jobs _ _ _ Hj). unfold get_lookup_job in *.
    cbn [o1 tick set_database database set_lookup_jobs lookup_jobs].
    rewrite find_snoc, Hfree. cbn [id row]. now rewrite String.eqb_refl.
  - unfold job_ids. rewrite Hj.
    cbn [o1 tick set_database database set_lookup_jobs lookup_jobs].
    now rewrite fmap_app.
  - intros other Hother. rewrite (get_lookup_job_jobs _ _ _ Hj).
    unfold get_lookup_job.
    cbn [o1 tick set_database database set_lookup_jobs lookup_jobs].
    rewrite find_snoc. destruct (List.find _ (lookup_jobs (database o)));
      [reflexivity|].
    cbn [id row]. apply String.eqb_neq in Hother. rewrite String.eqb_sym in Hother.
    now rewrite Hother.
  - now rewrite stored_events_publish_event, String.eqb_refl.
  - now rewrite Hr.
  - reflexivity.
Qed.

(** X18. An accepted submission of a target that has no active job and
    no completed job (its earlier jobs, if any, failed) creates a job: the
    response carries a new id with the status queued, the job table gains
    exactly the queued row of that id with the normalised URL, the history
    of the id gains [queued], and the id is put at the end of the worker
    queue. *)
Theorem create_lookup_fresh o o1 request normalized q :
  valid_payload request = true ->
  enforce_lookup_rate_limit settings w o (client_ip request) = Ok o1 ->
  normalize_hackathon_url (payload_hackathon_url request) = Ok normalized ->
  (forall job, job ∈ lookup_jobs (database o) -> hackathon_url job = normalized ->
               status job = Failed) ->
  (forall t, get_lookup_job (database o) (uuid4_hex w t) = None) ->
  _queue o = Some q ->
  exists new_id now,
    (create_lookup settings w o request).2
    = Ok {| lookup_id := new_id; response_status := Queued |} /\
    get_lookup_job (database (create_lookup settings w o request).1) new_id
    = Some {| id := new_id; hackathon_url := normalized; status := Queued;
              created_at := now; started_at := None; finished_at := None;
              error_code := None; error_message := None |} /\
    job_ids (database (create_lookup settings w o request).1)
    = job_ids (database o) ++ [new_id] /\
    stored_events (database (create_lookup settings w o request).1) new_id
    = stored_events (database o) new_id ++ [queued new_id normalized] /\
    _queue (create_lookup settings w o request).1 = Some (q ++ [new_id]).
Proof.
  intros Hvalid Hrate Hnormal Hfailed Hfresh Hq.
  destruct (rate_limit_keeps_jobs settings w o o1 _ Hrate)
    as (Hjobs & Hevents & Hresults & Hq1 & _).
  unfold create_lookup. rewrite Hvalid, Hrate, Hnormal. cbn [negb].
  rewrite (no_active_lookup (database o1) normalized).
  2:{ intros job Hin [Hurl Hactive]. rewrite Hjobs in Hin.
      pose proof (Hfailed job Hin Hurl) as Hs. unfold is_active in Hactive.
      rewrite Hs in Hactive. discriminate. }
  assert (Hnone : forall since,
            get_recent_completed_lookup_for_url (database o1) normalized since
            = None).
  { intros since. apply no_recent_completed. intros job Hin Hurl.
    rewrite Hjobs in Hin. rewrite (Hfailed job Hin Hurl). discriminate. }
  assert (Hsteps : forall o2,
            database o2 = database o1 -> _queue o2 = _queue o1 ->
            exists o', _ = (o', Ok {| lookup_id := uuid4_hex w (ticks o2);
                                      response_status := Queued |}) /\ _)
    by (intros o2 Hd Hq2;
        apply (new_lookup_steps o2 (uuid4_hex w (ticks o2)) normalized q);
        [rewrite Hd; erewrite get_lookup_job_jobs by exact Hjobs; apply Hfresh
        | now rewrite Hq2, Hq1]).
  assert (Hstored : forall lookup_id,
            stored_events (database o1) lookup_id
            = stored_events (database o) lookup_id)
    by (intros lookup_id; unfold stored_events, list_progress_events;
        now rewrite Hevents).
  destruct (0 <? lookup_result_cache_ttl_seconds settings).
  - rewrite Hnone.
    destruct (Hsteps (tick o1) eq_refl eq_refl)
      as (o' & -> & Hget & Hids & _ & Hhistory & _ & Hqueue).
    exists (uuid4_hex w (ticks (tick o1))), (utcnow_iso w (tick o1)).
    cbn [fst snd]. repeat split; try assumption.
    + rewrite Hids. unfold job_ids. cbn [tick database]. now rewrite Hjobs.
    + rewrite Hhistory. cbn [tick database]. now rewrite Hstored.
  - destruct (Hsteps o1 eq_refl eq_refl)
      as (o' & -> & Hget & Hids & _ & Hhistory & _ & Hqueue).
    exists (uuid4_hex w (ticks o1)), (utcnow_iso w o1).
    cbn [fst snd]. repeat split; try assumption.
    + rewrite Hids. unfold job_ids. now rewrite Hjobs.
    + rewrite Hhistory. now rewrite Hstored.
Qed.

(** X19. With result caching on, an accepted submission of a target that
    has no active job but a recently completed one is answered with that
    job: its status is completed, its URL is the normalised target, its
    result is stored and it finished within the caching time; nothing is
    written to the job table, the histories or the results, and nothing
    is queued. *)
Theorem create_lookup_cached o o1 request normalized cached :
  valid_payload request = true ->
  enforce_lookup_rate_limit settings w o (client_ip request) = Ok o1 ->
  normalize_hackathon_url (payload_hackathon_url request) = Ok normalized ->
  get_latest_active_lookup_for_url (database o) normalized = None ->
  0 < lookup_result_cache_ttl_seconds settings ->
  get_recent_completed_lookup_for_url (database o) normalized
    (clock w (ticks o1) (lookup_result_cache_ttl_seconds settings)) = Some cached ->
  (create_lookup settings w o request).2
  = Ok {| lookup_id := id cached; response_status := Completed |} /\
  cached ∈ lookup_jobs (database o) /\
  hackathon_url cached = normalized /\
  get_lookup_result (database o) (id cached) <> None /\
  (exists t, finished_at cached = Some t /\
     String.leb (clock w (ticks o1) (lookup_result_cache_ttl_seconds settings)) t
     = true) /\
  lookup_jobs (database (create_lookup settings w o request).1)
  = lookup_jobs (database o) /\
  lookup_progress_events (database (create_lookup settings w o request).1)
  = lookup_progress_events (database o) /\
  lookup_results (database (create_lookup settings w o request).1)
  = lookup_results (database o) /\
  _queue (create_lookup settings w o request).1 = _queue o.
Proof.
  intros Hvalid Hrate Hnormal Hnoactive Httl Hcached.
  destruct (rate_limit_keeps_jobs settings w o o1 _ Hrate)
    as (Hjobs & Hevents & Hresults & Hq1 & _).
  destruct (recent_completed_spec _ _ _ _ Hcached)
    as (Hin & Hurl & Hstatus & Hresult & Hsince).
  unfold create_lookup. rewrite Hvalid, Hrate, Hnormal. cbn [negb].
  rewrite (active_lookup_same_jobs (database o) (database o1) normalized Hjobs),
    Hnoactive.
  replace (0 <? lookup_result_cache_ttl_seconds settings) with true by lia.
  rewrite (recent_completed_same_jobs (database o) (database o1) _ _ Hjobs Hresults),
    Hcached.
  cbn [fst snd tick database _queue]. rewrite Hstatus.
  repeat split; assumption.
Qed.

(** X20. An accepted request whose URL the normaliser rejects is answered
    with status 422 and the code [validation_error] with the message of
    the normaliser; no job is created, nothing is published or queued; and
    with the rate limit on, the request has been counted all the same:
    one rate-limit event was recorded for its client before the URL was
    looked at. *)
Theorem create_lookup_invalid_url o o1 request message :
  valid_payload request = true ->
  enforce_lookup_rate_limit settings w o (client_ip request) = Ok o1 ->
  normalize_hackathon_url (payload_hackathon_url request)
  = Raise (AppErr ValidationAppError message) ->
  create_lookup settings w o request
  = (o1, Raise (HTTPException 422 "validation_error" message)) /\
  lookup_jobs (database o1) = lookup_jobs (database o) /\
  lookup_progress_events (database o1) = lookup_progress_events (database o) /\
  _queue o1 = _queue o /\ sent o1 = sent o /\
  (rate_limit_enabled settings = false -> o1 = o) /\
  (rate_limit_enabled settings = true ->
   rate_limit_events (database o1)
   = rate_limit_events (database o)
     ++ [{| ip_hash := hash_ip w (ip_hash_salt settings) (client_ip request);
            endpoint := LOOKUP_ENDPOINT_KEY;
            rate_created_at := clock w (S (ticks o)) 0 |}]).
Proof.
  intros Hvalid Hrate Hnormal.
  destruct (rate_limit_keeps_jobs settings w o o1 _ Hrate)
    as (Hjobs & Hevents & _ & Hq1 & Hsent).
  split.
  { unfold create_lookup. now rewrite Hvalid, Hrate, Hnormal. }
  repeat split; try assumption.
  - intros Hoff. unfold enforce_lookup_rate_limit in Hrate. rewrite Hoff in Hrate.
    now inversion Hrate.
  - intros Hon. unfold enforce_lookup_rate_limit in Hrate. rewrite Hon in Hrate.
    cbn [negb] in Hrate.
    destruct (_ <=? _); [discriminate|]. destruct (_ <=? _); [discriminate|].
    inversion Hrate. reflexivity.
Qed.

(** X21. With the rate limit on, a client that has reached the hourly
    limit is answered 429 with the hourly message, and one below it that
    has reached the daily limit is answered 429 with the daily message;
    in both cases nothing at all is recorded: the orchestrator and its
    database are as before.  A client below both limits passes, and that
    records exactly one event for it. *)
Theorem create_lookup_rate_limited o request :
  valid_payload request = true ->
  rate_limit_enabled settings = true ->
  let hash := hash_ip w (ip_hash_salt settings) (client_ip request) in
  let hourly :=
    count_rate_limit_events (database o) hash LOOKUP_ENDPOINT_KEY
      (clock w (ticks o) 3600) in
  let daily :=
    count_rate_limit_events (database o) hash LOOKUP_ENDPOINT_KEY
      (clock w (ticks o) 86400) in
  (rate_limit_hourly settings <= hourly ->
   create_lookup settings w o request
   = (o, Raise (HTTPException 429 "rate_limit_exceeded"
                  ("Hourly limit exceeded ("
                   +:+ str_of_int (rate_limit_hourly settings)
                   +:+ " lookups/hour)")))) /\
  (hourly < rate_limit_hourly settings -> rate_limit_daily settings <= daily ->
   create_lookup settings w o request
   = (o, Raise (HTTPException 429 "rate_limit_exceeded"
                  ("Daily limit exceeded ("
                   +:+ str_of_int (rate_limit_daily settings)
                   +:+ " lookups/day)")))) /\
  (hourly < rate_limit_hourly settings -> daily < rate_limit_daily settings ->
   exists o1,
     enforce_lookup_rate_limit settings w o (client_ip request) = Ok o1 /\
     rate_limit_events (database o1)
     = rate_limit_events (database o)
       ++ [{| ip_hash := hash; endpoint := LOOKUP_ENDPOINT_KEY;
              rate_created_at := clock w (S (ticks o)) 0 |}]).
Proof.
  intros Hvalid Hon hash hourly daily.
  unfold create_lookup, enforce_lookup_rate_limit.
  rewrite Hvalid, Hon. cbn [negb tick database]. fold hash. fold hourly. fold daily.
  split; [|split].
  - intros Hh. replace (rate_limit_hourly settings <=? hourly) with true by lia.
    reflexivity.
  - intros Hh Hd. replace (rate_limit_hourly settings <=? hourly) with false by lia.
    replace (rate_limit_daily settings <=? daily) with true by lia. reflexivity.
  - intros Hh Hd. replace (rate_limit_hourly settings <=? hourly) with false by lia.
    replace (rate_limit_daily settings <=? daily) with false by lia.
    eexists. split; reflexivity.
Qed.

End endpoints.

Section endpoints_samples.
Import config url_utils service db job_orchestrator main.
Import store_properties orchestrator_properties.

(** A run of X18: the first submission of the sample hackathon to an
    empty store. *)
Lemma create_lookup_fresh_witness :
  (create_lookup default_settings (sample_site.world_of sample_site.badges_env)
     (sample_site.orchestrator_of [] []) sample_site.sample_request).2
  = Ok {| lookup_id := "lookup-2"; response_status := Queued |} /\
  _queue (create_lookup default_settings
            (sample_site.world_of sample_site.badges_env)
            (sample_site.orchestrator_of [] []) sample_site.sample_request).1
  = Some ["lookup-2"].
Proof.
  destruct (create_lookup_fresh default_settings
              (sample_site.world_of sample_site.badges_env)
              (sample_site.orchestrator_of [] [])
              (sample_site.orchestrator_of [] [])
              sample_site.sample_request sample_site.hackathon_url [])
    as (new_id & now & Hresponse & _ & _ & _ & Hqueue).
  - reflexivity.
  - reflexivity.
  - vm_compute. reflexivity.
  - intros job Hin. now apply elem_of_nil in Hin.
  - intros t. reflexivity.
  - reflexivity.
  - assert (new_id = "lookup-2") as ->.
    { assert (Hrun : (create_lookup default_settings
                        (sample_site.world_of sample_site.badges_env)
                        (sample_site.orchestrator_of [] [])
                        sample_site.sample_request).2
                     = Ok {| lookup_id := "lookup-2"; response_status := Queued |})
        by (vm_compute; reflexivity).
      rewrite Hrun in Hresponse. now inversion Hresponse. }
    split; [exact Hresponse | exact Hqueue].
Defined.

(** A run of X19: the sample hackathon was completed a second ago. *)
Lemma create_lookup_cached_witness :
  (create_lookup default_settings (sample_site.world_of sample_site.badges_env)
     sample_site.cached_orchestrator sample_site.sample_request).2
  = Ok {| lookup_id := "lookup-1"; response_status := Completed |}.
Proof.
  refine (proj1 (create_lookup_cached default_settings
                   (sample_site.world_of sample_site.badges_env)
                   sample_site.cached_orchestrator sample_site.cached_orchestrator
                   sample_site.sample_request sample_site.hackathon_url
                   sample_site.completed_job _ _ _ _ _ _)).
  - reflexivity.
  - reflexivity.
  - vm_compute. reflexivity.
  - reflexivity.
  - cbn. lia.
  - vm_compute. reflexivity.
Defined.

(** A run of X20: five blanks pass the length check of the request and
    fail the normaliser. *)
Lemma create_lookup_invalid_url_witness :
  (create_lookup default_settings (sample_site.world_of sample_site.badges_env)
     (sample_site.orchestrator_of [] [])
     {| payload_hackathon_url := "     "; client_ip := "203.0.113.7" |}).2
  = Raise (HTTPException 422 "validation_error" "Hackathon URL is required").
Proof.
  rewrite (proj1 (create_lookup_invalid_url default_settings
                    (sample_site.world_of sample_site.badges_env)
                    (sample_site.orchestrator_of [] [])
                    (sample_site.orchestrator_of [] [])
                    {| payload_hackathon_url := "     ";
                       client_ip := "203.0.113.7" |}
                    "Hackathon URL is required" eq_refl eq_refl eq_refl)).
  reflexivity.
Defined.

(** A run of X21: the sample client has used its one lookup of the hour. *)
Lemma create_lookup_rate_limited_witness :
  create_lookup sample_site.limited_settings
    (sample_site.world_of sample_site.badges_env)
    sample_site.counted_orchestrator sample_site.sample_request
  = (sample_site.counted_orchestrator,
     Raise (HTTPException 429 "rate_limit_exceeded"
              "Hourly limit exceeded (1 lookups/hour)")).
Proof.
  apply (proj1 (create_lookup_rate_limited sample_site.limited_settings
                  (sample_site.world_of sample_site.badges_env)
                  sample_site.counted_orchestrator sample_site.sample_request
                  eq_refl eq_refl)).
  vm_compute. discriminate.
Defined.

End endpoints_samples.

(* ===================================================================== *)
(** * The rate limit over two requests, and reading a lookup back *)
(* ===================================================================== *)

Section rate_window.
Import config url_utils service db job_orchestrator main.
Import store_properties orchestrator_properties.

Context (settings : Settings) (w : World).

Lemma count_after_insert d hash endpoint_key now hash' since :
  count_rate_limit_events (insert_rate_limit_event d hash endpoint_key now)
    hash' endpoint_key since
  = count_rate_limit_events d hash' endpoint_key since
    + (if String.eqb hash hash' && String.leb since now then 1 else 0).
Proof.
  unfold count_rate_limit_events, insert_rate_limit_event.
  cbn [rate_limit_events]. rewrite filter_app, length_app, Nat2Z.inj_add.
  f_equal. rewrite filter_cons, filter_nil.
  cbn [ip_hash endpoint rate_created_at]. rewrite String.eqb_refl, andb_true_r.
  destruct (String.eqb hash hash' && String.leb since now) eqn:E.
  - rewrite decide_True by reflexivity. reflexivity.
  - rewrite decide_False by discriminate. reflexivity.
Qed.

(** X22. The limit counts what it lets through: when a client passes the
    rate limit with one lookup left in the hour that the next check looks
    back on, and the event recorded for it falls into that hour, the next
    request of the same client is answered 429 with the hourly message,
    while the count of every other client is what it was. *)
Theorem rate_limit_closes_after_last_slot o o1 request request' :
  rate_limit_enabled settings = true ->
  enforce_lookup_rate_limit settings w o (client_ip request) = Ok o1 ->
  valid_payload request' = true ->
  client_ip request' = client_ip request ->
  let hash := hash_ip w (ip_hash_salt settings) (client_ip request) in
  count_rate_limit_events (database o) hash LOOKUP_ENDPOINT_KEY
    (clock w (ticks o1) 3600) + 1 = rate_limit_hourly settings ->
  String.leb (clock w (ticks o1) 3600) (clock w (S (ticks o)) 0) = true ->
  create_lookup settings w o1 request'
  = (o1, Raise (HTTPException 429 "rate_limit_exceeded"
                  ("Hourly limit exceeded ("
                   +:+ str_of_int (rate_limit_hourly settings)
                   +:+ " lookups/hour)"))) /\
  (forall hash' since, hash' <> hash ->
     count_rate_limit_events (database o1) hash' LOOKUP_ENDPOINT_KEY since
     = count_rate_limit_events (database o) hash' LOOKUP_ENDPOINT_KEY since).
Proof.
  intros Hon Hrate Hvalid Hip hash Hcount Hwindow.
  assert (Hdb : database o1
                = insert_rate_limit_event (database o) hash LOOKUP_ENDPOINT_KEY
                    (clock w (S (ticks o)) 0)).
  { unfold enforce_lookup_rate_limit in Hrate. rewrite Hon in Hrate.
    cbn [negb] in Hrate.
    destruct (_ <=? _); [discriminate|]. destruct (_ <=? _); [discriminate|].
    inversion Hrate. reflexivity. }
  split.
  - unfold create_lookup, enforce_lookup_rate_limit.
    rewrite Hvalid, Hon, Hip. cbn [negb tick database]. fold hash.
    rewrite Hdb, count_after_insert, String.eqb_refl, Hwindow. cbn [andb].
    replace (rate_limit_hourly settings <=? _) with true by lia. reflexivity.
  - intros hash' since Hother. rewrite Hdb, count_after_insert.
    apply String.eqb_neq in Hother. rewrite String.eqb_sym in Hother.
    rewrite Hother. cbn [andb]. lia.
Qed.

End rate_window.

Section rate_window_samples.
Import config url_utils service db job_orchestrator main.

(** A run of X22: one lookup an hour, two requests of the sample client. *)
Lemma rate_limit_closes_after_last_slot_witness :
  exists o1,
    enforce_lookup_rate_limit sample_site.limited_settings
      (sample_site.world_of sample_site.badges_env)
      (sample_site.orchestrator_of [] []) "203.0.113.7" = Ok o1 /\
    (create_lookup sample_site.limited_settings
       (sample_site.world_of sample_site.badges_env) o1
       sample_site.sample_request).2
    = Raise (HTTPException 429 "rate_limit_exceeded"
               "Hourly limit exceeded (1 lookups/hour)").
Proof.
  destruct (enforce_lookup_rate_limit sample_site.limited_settings
              (sample_site.world_of sample_site.badges_env)
              (sample_site.orchestrator_of [] []) "203.0.113.7")
    as [o1|e] eqn:E; [|vm_compute in E; discriminate].
  exists o1. split; [reflexivity|].
  rewrite (proj1 (rate_limit_closes_after_last_slot sample_site.limited_settings
                    (sample_site.world_of sample_site.badges_env)
                    (sample_site.orchestrator_of [] []) o1
                    sample_site.sample_request sample_site.sample_request
                    eq_refl E eq_refl eq_refl eq_refl eq_refl)).
  reflexivity.
Defined.

End rate_window_samples.

Section read_back.
Import config url_utils urllib_parse service db job_orchestrator main main_more.
Import store_properties orchestrator_properties.

Context (w : World).

Lemma code_nonempty cls : nonempty (code cls) = true.
Proof. now destruct cls. Qed.

Lemma last_after l (x y : ProgressEvent) m : last (l ++ x :: m ++ [y]) = Some y.
Proof. rewrite app_comm_cons, app_assoc. apply last_snoc. Qed.

(** X23. [get_lookup] after a lookup was processed: the response carries
    the id and the URL of the job and a terminal status; a completed job
    is shown without an error and with its result; a failed job is shown
    with the error whose code and message are those of the [failed] event
    that ends its history.  An id without a row is answered 404. *)
Theorem get_lookup_after_processing o lookup_id job :
  get_lookup_job (database o) lookup_id = Some job ->
  (exists response,
     get_lookup (database (_process_lookup w o lookup_id)) lookup_id = Ok response /\
     job_lookup_id response = id job /\
     job_hackathon_url response = hackathon_url job /\
     terminal (job_status response) /\
     (job_status response = Completed ->
      job_error response = None /\ job_result response <> None) /\
     (job_status response = Failed ->
      exists code message,
        job_error response
        = Some {| scrape_error_code := code; scrape_error_message := message |} /\
        last (fst <$> job_progress_events response) = Some (failed code message))) /\
  (forall d other,
     get_lookup_job d other = None ->
     get_lookup d other = Raise (HTTPException 404 "not_found" "Lookup not found")).
Proof.
  intros Hjob. split; [|intros d other Hnone; unfold get_lookup; now rewrite Hnone].
  destruct (process_lookup_row w o lookup_id job Hjob) as [now Hrow].
  destruct (process_lookup_facts w o lookup_id job Hjob)
    as (_ & _ & (final & Hevents & Hreturned & Hfailed) & _).
  specialize (Hevents lookup_id). rewrite String.eqb_refl in Hevents.
  unfold get_lookup. rewrite Hrow. eexists. split; [reflexivity|].
  unfold terminal.
  cbn [job_lookup_id job_hackathon_url job_status job_error job_result
       job_progress_events].
  fold (stored_events (database (_process_lookup w o lookup_id)) lookup_id).
  rewrite Hevents, last_after.
  destruct (wait_for w lookup_id (scraper w (hackathon_url job))).2
    as [[r|e|]|] eqn:Eout.
  - destruct (Hreturned r eq_refl) as [-> Hresult].
    cbn. repeat split; auto; try discriminate. now rewrite Hresult.
  - destruct Hfailed as [(code & message & now' & -> & Hrow') _]; [discriminate|].
    rewrite Hrow in Hrow'. destruct e as [cls m| | | |];
      injection Hrow' as ? ? ?; subst; cbn; rewrite ?code_nonempty;
      (repeat split; auto; try discriminate; intros _; eauto).
  - destruct Hfailed as [(code & message & now' & -> & Hrow') _]; [discriminate|].
    rewrite Hrow in Hrow'. injection Hrow' as ? ? ?; subst. cbn.
    repeat split; auto; try discriminate. intros _. eauto.
  - destruct Hfailed as [(code & message & now' & -> & Hrow') _]; [discriminate|].
    rewrite Hrow in Hrow'. injection Hrow' as ? ? ?; subst. cbn.
    repeat split; auto; try discriminate. intros _. eauto.
Qed.

End read_back.

Section read_back_samples.
Import config url_utils service db job_orchestrator main main_more.
Import store_properties orchestrator_properties.

(** A run of X23 on the sample site that denies its project pages. *)
Lemma get_lookup_after_processing_witness :
  exists response message,
    get_lookup
      (database (_process_lookup (sample_site.world_of sample_site.denied_env)
                   (sample_site.orchestrator_of [sample_site.queued_job] [])
                   "lookup-1")) "lookup-1" = Ok response /\
    job_status response = Failed /\
    job_error response
    = Some {| scrape_error_code := "blocked_error";
              scrape_error_message := message |}.
Proof.
  destruct (get_lookup_after_processing
              (sample_site.world_of sample_site.denied_env)
              (sample_site.orchestrator_of [sample_site.queued_job] [])
              "lookup-1" sample_site.queued_job eq_refl)
    as [(response & Hget & _ & _ & _ & _ & Hfailed) _].
  assert (Hstatus : job_status response = Failed).
  { assert (Hrun : job_status <$>
              (match get_lookup
                 (database (_process_lookup
                    (sample_site.world_of sample_site.denied_env)
                    (sample_site.orchestrator_of [sample_site.queued_job] [])
                    "lookup-1")) "lookup-1" with
               | Ok x => Some x
               | Raise _ => None
               end) = Some Failed) by (vm_compute; reflexivity).
    rewrite Hget in Hrun. now inversion Hrun. }
  destruct (Hfailed Hstatus) as (code & message & Herror & _).
  assert (Hcode : code = "blocked_error").
  { assert (Hrun : (fun x => scrape_error_code <$> job_error x) <$>
              (match get_lookup
                 (database (_process_lookup
                    (sample_site.world_of sample_site.denied_env)
                    (sample_site.orchestrator_of [sample_site.queued_job] [])
                    "lookup-1")) "lookup-1" with
               | Ok x => Some x
               | Raise _ => None
               end) = Some (Some "blocked_error")) by (vm_compute; reflexivity).
    rewrite Hget in Hrun. cbn in Hrun. rewrite Herror in Hrun. cbn in Hrun.
    now inversion Hrun. }
  subst code. exists response, message. now repeat split.
Defined.

End read_back_samples.

(* ===================================================================== *)
(** * Invariants of the crawl that follow its bookkeeping *)
(* ===================================================================== *)

Section crawl_parts.
Import config http_client parser url_utils service observations crawl_properties.
Import crawl_observations.

Context (env : CrawlEnv) (normalized_hackathon_url hackathon_name : string).

Abbreviation scrape_candidate := (scrape_candidate env normalized_hackathon_url hackathon_name).
Abbreviation collect_task := (collect_task env normalized_hackathon_url hackathon_name).
Abbreviation collect_done := (collect_done env normalized_hackathon_url hackathon_name).
Abbreviation collect_pending := (collect_pending env normalized_hackathon_url hackathon_name).
Abbreviation drain_completed_scrapes :=
  (drain_completed_scrapes env normalized_hackathon_url hackathon_name).
Abbreviation visit_gallery_page :=
  (visit_gallery_page env normalized_hackathon_url hackathon_name).
Abbreviation walk_gallery := (walk_gallery env normalized_hackathon_url hackathon_name).
Abbreviation crawl_body := (crawl_body env normalized_hackathon_url hackathon_name).

Context (I : CrawlState -> Prop).

Lemma schedule_keeps c requires :
  bystander I -> invariant I (schedule_candidate c requires).
Proof. intros HI st Hst. now apply by_schedule. Qed.

(** The entries of a page that carry a badge. *)
Lemma schedule_winner_entries_keeps entries :
  bystander I -> invariant I (schedule_winner_entries entries).
Proof.
  intros HI. induction entries as [|entry entries IH]; [apply invariant_ret|].
  cbn [schedule_winner_entries].
  apply invariant_bind; [apply invariant_update; intros; now apply by_flag|].
  intros _.
  apply invariant_bind; [apply invariant_update; intros; now apply by_found|].
  intros _. apply invariant_bind; [now apply schedule_keeps | intros _; exact IH].
Qed.

Lemma detect_by_fallback_keeps should_run :
  bystander I -> invariant I (detect_by_fallback should_run).
Proof.
  intros HI. unfold detect_by_fallback.
  apply invariant_bind; [apply invariant_read|]. intros found.
  destruct (negb found && should_run).
  - apply invariant_bind; [apply invariant_read|]. intros candidates.
    apply invariant_bind; [apply invariant_update; intros; now apply by_fallback|].
    intros _. induction (unique_candidates ∅ candidates) as [|c l IH];
      [apply invariant_ret|].
    cbn [schedule_fallback].
    apply invariant_bind; [now apply schedule_keeps | intros _; exact IH].
  - destruct (negb found); [|apply invariant_ret].
    apply invariant_update. intros. now apply by_not_announced.
Qed.

(** The collection of a task, for a property that the winners and their
    reports do not break. *)
Lemma collect_task_keeps position t :
  bystander I ->
  (forall st projects, I st -> I (set_winners projects st)) ->
  (forall st i k title url prize_count project,
     I st ->
     I (log (Progress (winner_project_scraped i k title url prize_count project))
          st)) ->
  invariant I (collect_task position t).
Proof.
  intros HI Hwinners Hscraped. unfold service.collect_task.
  apply invariant_bind; [apply invariant_update; intros; now apply by_pending|].
  intros _. apply invariant_bind.
  { unfold service.scrape_candidate.
    apply invariant_bind; [apply invariant_fetched; intros; now apply by_fetch|].
    intros html. apply invariant_bind; [apply invariant_lift|]. intros project.
    destruct (requires_prize_confirmation t && no_prizes project);
      [apply invariant_ret|].
    apply invariant_bind; [|intros; apply invariant_ret].
    destruct (requires_prize_confirmation t); [|apply invariant_ret].
    apply invariant_update. intros. now apply by_found. }
  intros [[sid project]|]; [|apply invariant_ret].
  apply invariant_bind; [apply invariant_update; intros; now apply Hwinners|].
  intros _. apply invariant_bind; [apply invariant_read|]. intros index.
  apply invariant_bind; [apply invariant_read|]. intros total.
  apply invariant_update. intros. now apply Hscraped.
Qed.

(** The visit of a page, for a property that the bookkeeping of the
    pages does not break. *)
Lemma visit_keeps url :
  bystander I ->
  (forall st page_url, I st -> I (add_visited_page page_url st)) ->
  (forall st parsed, I st -> I (count_page parsed st)) ->
  (forall st page_url k j i next,
     I st -> I (log (Progress (gallery_page_scanned page_url k j i next)) st)) ->
  (forall position t, invariant I (collect_task position t)) ->
  invariant I (visit_gallery_page url).
Proof.
  intros HI Hvisited Hcount Hpage Hcollect. unfold service.visit_gallery_page.
  apply invariant_bind; [apply invariant_update; intros; now apply Hvisited|].
  intros _.
  apply invariant_bind; [apply invariant_fetched; intros; now apply by_fetch|].
  intros html.
  apply invariant_bind; [apply invariant_update; intros; now apply Hcount|].
  intros _.
  apply invariant_bind; [now apply schedule_winner_entries_keeps|]. intros _.
  apply invariant_bind; [apply invariant_read|]. intros page_number.
  apply invariant_bind; [apply invariant_update; intros; now apply Hpage|].
  intros _. apply invariant_bind; [now apply drain_keeps|]. intros _.
  apply invariant_ret.
Qed.

Lemma crawl_body_keeps pages gallery should_run :
  bystander I ->
  (forall url,
     hoare (fun st => I st /\ url ∉ visited_pages st) (visit_gallery_page url)
       (fun st _ => I st)) ->
  (forall position t, invariant I (collect_task position t)) ->
  invariant I (crawl_body pages gallery should_run).
Proof.
  intros HI Hvisit Hcollect st Hst. unfold service.crawl_body.
  pose proof (invariant_bind I (walk_gallery pages (Some gallery))
                (fun _ => detect_by_fallback should_run;;
                          drain_completed_scrapes (done_at_end (schedule env)) true)
                (walk_keeps env normalized_hackathon_url hackathon_name I pages (Some gallery) Hvisit)) as Hall.
  specialize (Hall (fun _ => invariant_bind I _ _
                               (detect_by_fallback_keeps should_run HI)
                               (fun _ => drain_keeps env normalized_hackathon_url hackathon_name I _ true Hcollect)) st Hst).
  cbn beta in Hall.
  destruct ((walk_gallery pages (Some gallery) ≫= _) st) as [st' ending].
  cbn [fst snd] in *. unfold cancel_pending. now apply by_pending.
Qed.

End crawl_parts.

Section crawl_results.
Import config http_client parser url_utils service observations crawl_properties.
Import crawl_observations.

(** The state a crawl ends in, for a property kept by the
    [try]/[finally] statement: it carries the trace, and the result that
    is returned is read off it. *)
Lemma scrape_hackathon_ends (I : CrawlState -> Prop) env pages hackathon_url :
  I initial_state ->
  (forall st effects, I st -> I (log (Fetch effects) st)) ->
  (forall n name gallery should_run,
     invariant I (crawl_body env n name pages gallery should_run)) ->
  exists st,
    I st /\ (scrape_hackathon env pages hackathon_url).1 = trace st /\
    forall r, (scrape_hackathon env pages hackathon_url).2 = Returned r ->
      result_winners r = winners st /\
      winner_count (hackathon r) = Z.of_nat (length (winners st)) /\
      meta_scanned_pages (hackathon r) = scanned_pages st /\
      scanned_pages st <> 0.
Proof.
  intros H0 Hfetch Hbody.
  unfold scrape_hackathon, mbind, crawl_bind, lift, fetched, read.
  destruct (normalize_hackathon_url hackathon_url) as [n|e]; cbn [fst snd];
    [|exists initial_state; repeat split; [exact H0 | discriminate ..]].
  destruct (fetch_text (settings env) (network env) n) as [effects [html|e]];
    cbn [fst snd];
    [|exists (log (Fetch effects) initial_state);
      repeat split; [now apply Hfetch | discriminate ..]].
  pose proof (Hbody n (@parse_hackathon_name (page_parser env) html)
                (@resolve_gallery_url (page_parser env) n html)
                (@winners_are_announced (page_parser env) html)
                (log (Fetch effects) initial_state) (Hfetch _ _ H0)) as Hst.
  destruct (crawl_body env n _ pages _ _ (log (Fetch effects) initial_state))
    as [st ending]. cbn [fst snd] in Hst.
  exists st. split; [exact Hst|].
  destruct ending as [[]|e|]; cbn [fst snd].
  - case_bool_decide as Hz; cbn [fst snd].
    + split; [reflexivity | discriminate].
    + split; [reflexivity|]. intros r [= <-]. cbn. now repeat split.
  - split; [reflexivity | discriminate].
  - split; [reflexivity | discriminate].
Qed.

Lemma omap_snoc {A B} (f : A -> option B) l x :
  omap f (l ++ [x]) = omap f l ++ match f x with Some y => [y] | None => [] end.
Proof. rewrite omap_app. cbn. now destruct (f x). Qed.

Lemma seqZ_snoc n : 0 <= n -> seqZ 1 (n + 1) = seqZ 1 n ++ [n + 1].
Proof.
  intros Hn. rewrite seqZ_app by lia. f_equal.
  rewrite seqZ_cons by lia. rewrite seqZ_nil by lia. f_equal. lia.
Qed.

(** ** The winners and their reports *)

Lemma winners_reported_log e st :
  (forall i k title url prize_count project,
     e <> Progress (winner_project_scraped i k title url prize_count project)) ->
  winners_reported st -> winners_reported (log e st).
Proof.
  intros He (Hw & Hi & Hp). unfold winners_reported, scraped_projects,
    scraped_indices in *. cbn [log trace winners].
  rewrite !omap_snoc.
  destruct e as [[]| |]; rewrite ?app_nil_r; try (now repeat split).
  exfalso. eapply He. reflexivity.
Qed.

Lemma winners_reported_bystander : bystander winners_reported.
Proof.
  split; intros; try (apply winners_reported_log; [discriminate | assumption]);
    try assumption.
  unfold schedule_candidate. case_bool_decide; [assumption|].
  cbn [fst]. destruct H as (Hw & Hi & Hp).
  unfold winners_reported, scraped_projects, scraped_indices in *.
  cbn [trace winners]. rewrite !omap_snoc, !app_nil_r. now repeat split.
Qed.

Lemma winners_reported_collect_task env n name position t :
  invariant winners_reported (collect_task env n name position t).
Proof.
  intros st HJ.
  assert (H1 : winners_reported
                 (set_pending_scrape_tasks
                    (delete position (pending_scrape_tasks st)) st)) by exact HJ.
  unfold collect_task, scrape_candidate, mbind, crawl_bind, update, fetched, lift,
    read, progress_callback.
  cbn [fst snd].
  set (st1 := set_pending_scrape_tasks (delete position (pending_scrape_tasks st)) st)
    in *.
  destruct (fetch_text_with_options _ _ _ _ _) as [effects [html|e]]; cbn [fst snd];
    [|apply winners_reported_log; [discriminate | exact H1]].
  assert (H2 : winners_reported (log (Fetch effects) st1))
    by (apply winners_reported_log; [discriminate | exact H1]).
  destruct (parse_project_page _ _ _) as [project|e]; cbn [fst snd]; [|exact H2].
  assert (Hkeep : forall project',
            prizes project' <> [] ->
            forall st2, winners_reported st2 ->
            winners_reported
              (log (Progress
                      (winner_project_scraped
                         (Z.of_nat (length (winners st2 ++ [project'])))
                         (Z.max (total_candidates_scheduled st2)
                            (Z.of_nat (length (winners st2 ++ [project']))))
                         (proj_project_title project') (proj_project_url project')
                         (Z.of_nat (length (prizes project'))) project'))
                 (set_winners (winners st2 ++ [project']) st2))).
  { intros project' Hprize st2 (Hw & Hi & Hp).
    unfold winners_reported, scraped_projects, scraped_indices in *.
    cbn [log set_winners trace winners]. rewrite !omap_snoc.
    rewrite <- Hw, Hi. split; [reflexivity|]. split.
    - rewrite length_app. cbn [length].
      replace (Z.of_nat (length (winners st2) + 1))
        with (Z.of_nat (length (winners st2)) + 1) by lia.
      now rewrite seqZ_snoc by lia.
    - apply Forall_app. split; [exact Hp|]. now apply Forall_singleton. }
  destruct (requires_prize_confirmation t); cbn [andb negb].
  - destruct (no_prizes project) eqn:Eprize; cbn [fst snd]; [exact H2|].
    apply Hkeep.
    + unfold no_prizes in Eprize. now destruct (prizes project).
    + apply winners_reported_log; [discriminate | exact H2].
  - destruct (no_prizes project) eqn:Eprize; cbn [fst snd].
    + apply Hkeep; [discriminate | exact H2].
    + apply Hkeep; [|exact H2].
      unfold no_prizes in Eprize. now destruct (prizes project).
Qed.

Lemma winners_reported_crawl env pages hackathon_url :
  exists st,
    winners_reported st /\
    (scrape_hackathon env pages hackathon_url).1 = trace st /\
    forall r, (scrape_hackathon env pages hackathon_url).2 = Returned r ->
      result_winners r = winners st /\
      winner_count (hackathon r) = Z.of_nat (length (winners st)) /\
      meta_scanned_pages (hackathon r) = scanned_pages st /\
      scanned_pages st <> 0.
Proof.
  apply scrape_hackathon_ends.
  - repeat split. apply Forall_nil_2.
  - intros. now apply winners_reported_bystander.
  - intros n name gallery should_run.
    apply crawl_body_keeps;
      [apply winners_reported_bystander | | apply winners_reported_collect_task].
    intros url st [Hst _]. revert st Hst.
    apply visit_keeps; try (intros; assumption);
      [apply winners_reported_bystander | | apply winners_reported_collect_task].
    intros. apply winners_reported_log; [discriminate | assumption].
Qed.

(** X24. The result of a crawl agrees with what the crawl reported: the
    [winner_project_scraped] events of any crawl are numbered 1, 2, ...
    in their order, and a crawl that returns lists in [winners] exactly
    the projects of these events, in that order, with [winner_count]
    their number. *)
Theorem result_lists_scraped_projects env pages hackathon_url :
  let run := scrape_hackathon env pages hackathon_url in
  scraped_indices run.1
  = seqZ 1 (Z.of_nat (length (scraped_projects run.1))) /\
  forall r, run.2 = Returned r ->
    result_winners r = scraped_projects run.1 /\
    winner_count (hackathon r) = Z.of_nat (length (result_winners r)).
Proof.
  cbv zeta.
  destruct (winners_reported_crawl env pages hackathon_url)
    as (st & (Hw & Hi & _) & -> & Hreturned).
  split; [now rewrite <- Hw|].
  intros r Hr. destruct (Hreturned r Hr) as (Hwinners & Hcount & _).
  rewrite Hwinners, Hcount. now split.
Qed.

(** X25. No winner is without a prize: every project that a crawl reports
    as scraped, and so every project in the result of a crawl that
    returns, has at least one prize record. *)
Theorem winners_have_prizes env pages hackathon_url :
  let run := scrape_hackathon env pages hackathon_url in
  Forall (fun project => prizes project <> []) (scraped_projects run.1) /\
  forall r, run.2 = Returned r ->
    Forall (fun project => prizes project <> []) (result_winners r).
Proof.
  cbv zeta.
  destruct (winners_reported_crawl env pages hackathon_url)
    as (st & (Hw & _ & Hp) & -> & Hreturned).
  split; [now rewrite <- Hw|].
  intros r Hr. destruct (Hreturned r Hr) as (-> & _). exact Hp.
Qed.

(** A run of X24 on the sample site with badges. *)
Lemma result_lists_scraped_projects_witness :
  exists r,
    (scrape_hackathon sample_site.badges_env 5 sample_site.hackathon_url).2
    = Returned r /\
    result_winners r
    = scraped_projects
        (scrape_hackathon sample_site.badges_env 5 sample_site.hackathon_url).1.
Proof.
  destruct (scrape_hackathon sample_site.badges_env 5 sample_site.hackathon_url).2
    as [r|e|] eqn:E; [|vm_compute in E; discriminate ..].
  exists r. split; [reflexivity|].
  apply (proj2 (result_lists_scraped_projects sample_site.badges_env 5
                  sample_site.hackathon_url) r E).
Defined.

(** A run of X25 on the sample site with badges, whose project pages
    list no prize. *)
Lemma winners_have_prizes_witness :
  exists r,
    (scrape_hackathon sample_site.badges_env 5 sample_site.hackathon_url).2
    = Returned r /\
    Forall (fun project => prizes project <> []) (result_winners r).
Proof.
  destruct (scrape_hackathon sample_site.badges_env 5 sample_site.hackathon_url).2
    as [r|e|] eqn:E; [|vm_compute in E; discriminate ..].
  exists r. split; [reflexivity|].
  apply (proj2 (winners_have_prizes sample_site.badges_env 5
                  sample_site.hackathon_url) r E).
Defined.

(** ** The gallery pages and their reports *)

Lemma page_open_log url k e st :
  (forall page_url n j i next,
     e <> Progress (gallery_page_scanned page_url n j i next)) ->
  page_open url k st -> page_open url k (log e st).
Proof.
  intros He H. unfold page_open, scanned_page_urls, scanned_page_numbers in *.
  cbn [log trace visited_pages scanned_pages]. rewrite !omap_snoc.
  destruct e as [[]| |]; rewrite ?app_nil_r; try exact H.
  exfalso. eapply He. reflexivity.
Qed.

Lemma page_open_bystander url k : bystander (page_open url k).
Proof.
  split; intros; try (apply page_open_log; [discriminate | assumption]);
    try assumption.
  unfold schedule_candidate. case_bool_decide; [assumption|].
  cbn [fst]. unfold page_open, scanned_page_urls, scanned_page_numbers in *.
  cbn [trace visited_pages scanned_pages]. now rewrite !omap_snoc, !app_nil_r.
Qed.

Lemma pages_once_log e st :
  (forall page_url n j i next,
     e <> Progress (gallery_page_scanned page_url n j i next)) ->
  pages_once st -> pages_once (log e st).
Proof.
  intros He H. unfold pages_once, scanned_page_urls, scanned_page_numbers in *.
  cbn [log trace visited_pages scanned_pages]. rewrite !omap_snoc.
  destruct e as [[]| |]; rewrite ?app_nil_r; try exact H.
  exfalso. eapply He. reflexivity.
Qed.

Lemma pages_once_bystander : bystander pages_once.
Proof.
  split; intros; try (apply pages_once_log; [discriminate | assumption]);
    try assumption.
  unfold schedule_candidate. case_bool_decide; [assumption|].
  cbn [fst]. unfold pages_once, scanned_page_urls, scanned_page_numbers in *.
  cbn [trace visited_pages scanned_pages]. now rewrite !omap_snoc, !app_nil_r.
Qed.

Lemma pages_once_collect_task env n name position t :
  invariant pages_once (collect_task env n name position t).
Proof.
  apply collect_task_keeps; [apply pages_once_bystander | |].
  - intros st projects H. exact H.
  - intros. apply pages_once_log; [discriminate | assumption].
Qed.

(** The scheduling of the badge-tagged entries of a page always returns. *)
Lemma pages_once_visit env n name url :
  hoare (fun st => pages_once st /\ url ∉ visited_pages st)
    (visit_gallery_page env n name url) (fun st _ => pages_once st).
Proof.
  intros st [(Hnd & Hsub & Hpos & Hnum) Hnew]. unfold visit_gallery_page.
  rewrite bind_update.
  assert (H1 : page_open url 0 (add_visited_page url st)).
  { unfold page_open. cbn [add_visited_page trace visited_pages scanned_pages].
    rewrite Z.sub_0_r. repeat split; try assumption.
    - intros u Hu. apply elem_of_union_r. now apply Hsub.
    - intros Hin. now apply Hnew, Hsub.
    - apply elem_of_union_l. now apply elem_of_singleton. }
  unfold mbind at 1. unfold crawl_bind, fetched. cbn [fst snd].
  apply (page_open_log url 0 (Fetch (fetch_text (settings env) (network env) url).1))
    in H1; [|discriminate].
  destruct (fetch_text (settings env) (network env) url).2 as [html|e];
    cbn [fst snd].
  2:{ destruct H1 as (? & ? & ? & Hn & _). rewrite Z.sub_0_r in *.
      now repeat split. }
  rewrite bind_update.
  set (parsed := parse_gallery_page url html).
  set (st2 := count_page parsed _).
  assert (H2 : page_open url 1 st2).
  { destruct H1 as (? & ? & ? & Hn & ? & ?). rewrite Z.sub_0_r in *.
    unfold page_open, st2. cbn [count_page trace visited_pages scanned_pages].
    rewrite Z.add_simpl_r. now repeat split. }
  destruct (schedule_winner_entries_returns (winner_entries parsed) st2)
    as [st3 E3].
  pose proof (schedule_winner_entries_keeps (page_open url 1)
                (winner_entries parsed) (page_open_bystander url 1) st2 H2) as H3.
  rewrite E3 in H3. cbn [fst] in H3.
  rewrite (bind_returned _ _ _ _ _ E3), bind_read. unfold progress_callback.
  rewrite bind_update.
  set (st4 := log _ st3).
  assert (H4 : pages_once st4).
  { destruct H3 as (Hnd3 & Hsub3 & Hpos3 & Hnum3 & Hnew3 & Hvis3).
    unfold pages_once, st4, scanned_page_urls, scanned_page_numbers in *.
    cbn [log trace visited_pages scanned_pages]. rewrite !omap_snoc.
    split; [|split; [|split]].
    - apply NoDup_app. split; [exact Hnd3|]. split; [|apply NoDup_singleton].
      intros u Hu ->%list_elem_of_singleton. now apply Hnew3.
    - intros u [Hu | ->%list_elem_of_singleton]%elem_of_app; auto.
    - lia.
    - rewrite Hnum3.
      replace (scanned_pages st3) with (scanned_pages st3 - 1 + 1) at 2 3 by lia.
      now rewrite seqZ_snoc by lia. }
  exact (invariant_bind pages_once _ (fun _ => mret (next_page_url parsed))
           (drain_keeps env n name pages_once _ false
              (pages_once_collect_task env n name))
           (fun _ => invariant_ret pages_once _) st4 H4).
Qed.

Lemma pages_once_crawl env pages hackathon_url :
  exists st,
    pages_once st /\
    (scrape_hackathon env pages hackathon_url).1 = trace st /\
    forall r, (scrape_hackathon env pages hackathon_url).2 = Returned r ->
      result_winners r = winners st /\
      winner_count (hackathon r) = Z.of_nat (length (winners st)) /\
      meta_scanned_pages (hackathon r) = scanned_pages st /\
      scanned_pages st <> 0.
Proof.
  apply scrape_hackathon_ends.
  - repeat split; [apply NoDup_nil_2 | intros u Hu; inversion Hu | reflexivity].
  - intros. now apply pages_once_bystander.
  - intros n name gallery should_run.
    apply crawl_body_keeps;
      [apply pages_once_bystander | apply pages_once_visit
      | apply pages_once_collect_task].
Qed.

Lemma length_scanned_pages effects :
  length (scanned_page_urls effects) = length (scanned_page_numbers effects).
Proof.
  induction effects as [|[[]| |] effects IH]; cbn; auto.
Qed.

(** X26. No gallery page is scanned twice: the [gallery_page_scanned]
    events of a crawl carry pairwise distinct page URLs, so that the walk
    stops on a next-page link that leads back, and they are numbered 1,
    2, ... in their order; a crawl that returns reports their number, at
    least one, as [scanned_pages]. *)
Theorem gallery_pages_scanned_once env pages hackathon_url :
  let run := scrape_hackathon env pages hackathon_url in
  NoDup (scanned_page_urls run.1) /\
  scanned_page_numbers run.1
  = seqZ 1 (Z.of_nat (length (scanned_page_urls run.1))) /\
  forall r, run.2 = Returned r ->
    meta_scanned_pages (hackathon r)
    = Z.of_nat (length (scanned_page_urls run.1)) /\
    1 <= meta_scanned_pages (hackathon r).
Proof.
  cbv zeta.
  destruct (pages_once_crawl env pages hackathon_url)
    as (st & (Hnd & _ & Hpos & Hnum) & -> & Hreturned).
  assert (Hlen : Z.of_nat (length (scanned_page_urls (trace st)))
                 = scanned_pages st).
  { rewrite length_scanned_pages, Hnum, length_seqZ. lia. }
  split; [exact Hnd|]. split; [now rewrite Hlen|].
  intros r Hr. destruct (Hreturned r Hr) as (_ & _ & Hpages & Hnonzero).
  rewrite Hlen, Hpages. split; [reflexivity | lia].
Qed.

(** A run of X26 on the sample site with badges. *)
Lemma gallery_pages_scanned_once_witness :
  exists r,
    (scrape_hackathon sample_site.badges_env 5 sample_site.hackathon_url).2
    = Returned r /\
    1 <= meta_scanned_pages (hackathon r).
Proof.
  destruct (scrape_hackathon sample_site.badges_env 5 sample_site.hackathon_url).2
    as [r|e|] eqn:E; [|vm_compute in E; discriminate ..].
  exists r. split; [reflexivity|].
  apply (proj2 (proj2 (gallery_pages_scanned_once sample_site.badges_env 5
                         sample_site.hackathon_url)) r E).
Defined.

End crawl_results.

(* ===================================================================== *)
(** * Crawls of finite galleries *)
(* ===================================================================== *)

Section finite_gallery.
Import config http_client parser url_utils service observations crawl_properties.

(** X27. The loop over the gallery pages stops by itself on a finite
    gallery, because no page is visited twice: when the gallery URL and
    the next-page links of the pages the site serves lie in a finite set
    [U], a crawl with time for [size U] pages or more ends, with a result
    or with an error, and what it does and how it ends do not depend on
    how many more pages it is given time for. *)
Theorem crawl_terminates env (U : gset string) pages hackathon_url :
  gallery_within env hackathon_url U ->
  (size U <= pages)%nat ->
  (scrape_hackathon env pages hackathon_url).2 <> Unfinished /\
  scrape_hackathon env pages hackathon_url
  = scrape_hackathon env (size U) hackathon_url.
Proof.
  intros Hwithin Hsize.
  pose proof (finite_gallery_ends env U (size U) hackathon_url Hwithin
                (Nat.le_refl _)) as Hend.
  rewrite (scrape_hackathon_more_pages env (size U) pages hackathon_url Hend Hsize).
  now split.
Qed.

End finite_gallery.

Section finite_gallery_samples.
Import config http_client parser url_utils service observations crawl_properties.
Import sample_site.

(** A crawl of the gallery whose two pages link to each other ends, with
    time for two pages as with time for seven. *)
Lemma crawl_terminates_witness :
  (scrape_hackathon cyclic_env 7 hackathon_url).2 <> Unfinished /\
  scrape_hackathon cyclic_env 7 hackathon_url
  = scrape_hackathon cyclic_env 2 hackathon_url.
Proof.
  destruct (crawl_terminates cyclic_env {[ gallery_url; second_page_url ]} 7
              hackathon_url) as [Hend Hsame].
  - split.
    + intros normalized html Hn _. vm_compute in Hn. injection Hn as <-.
      apply elem_of_union_l, elem_of_singleton. reflexivity.
    + intros page_url html next _ _ H. cbn in H. injection H as <-.
      destruct (String.eqb page_url gallery_url); set_solver.
  - vm_compute. lia.
  - split; [exact Hend|]. rewrite Hsame. vm_compute. reflexivity.
Defined.

End finite_gallery_samples.
